(** * openpile: mesh construction, boundary conditions and the Winkler loop

    A shallow embedding of [openpile.construct] (the pile table, soil
    profiles, and [Model]: mesh generation, soil properties,
    boundary-condition setters) and of [openpile.analyze] (the result
    tables and [simple_winkler_analysis]), with the properties of the
    design document, and further properties of the code, stated over it.

    Python floats are modelled as exact rationals ([Q]); NaN, where pandas
    produces it, is [None].  The mesh builder is given a second time in
    binary64 (module [Float64]), for what depends on the rounding of the
    doubles.  Lines written with [print] are collected in a log that every
    operation returns next to its result. *)

From Stdlib Require Import QArith Qabs Qround Qminmax ZArith List Lia Lqa String.
From Stdlib Require Import Sorting.Sorted.
From Stdlib Require Floats.
From stdpp Require Import base list.

Local Open Scope Q_scope.

(** ** Python exceptions and printed output *)

Inductive exn : Type :=
  | AttributeError
  | TypeError
  | IndexError
  | ValueError
  | UserWarning
  | UnboundLocalError
  | LinAlgError.

(** How a call ends: with a value, with an exception, or not at all. *)
Inductive outcome (A : Type) : Type :=
  | Returned (a : A)
  | Raised (e : exn)
  | Diverged.
Arguments Returned {A} a.
Arguments Raised {A} e.
Arguments Diverged {A}.

(** The lines the program can print. *)
Inductive message : Type :=
  (* "Load not applied! The chosen elevation is outside the mesh. The load
     must be applied on the structure." *)
  | LoadOutsideMesh
  (* "Load not applied! The chosen elevation is not meshed as a node. Please
     include elevation in `x2mesh` variable when creating the Model." *)
  | LoadNotMeshed
  (* "Support not applied! The chosen elevation is outside the mesh. The
     support must be applied on the structure." *)
  | SupportOutsideMesh
  (* "Support not applied! The chosen elevation is not meshed as a node.
     Please include elevation in `x2mesh` variable when creating the Model." *)
  | SupportNotMeshed
  (* "!User Input Error! Please create Model first with the Model.create()." *)
  | UserInputError
  (* "Cannot converge. Failure of the pile-soil system. Boundary conditions
     may not be realistic or values may be too large." *)
  | CannotConverge
  (* f"Converged at iteration no. {iter_no}" *)
  | ConvergedAt (iter_no : Z)
  (* "Not converged after 100 iterations." *)
  | NotConvergedAfter100.

Definition printed : Type := list message.

(** Sequencing of calls that may raise. *)
Definition bind {A B : Type} (c : outcome A) (k : A -> outcome B) : outcome B :=
  match c with
  | Returned a => k a
  | Raised e => Raised e
  | Diverged => Diverged
  end.

(** ** Tables of the model ([pandas.DataFrame] rows) *)

(** [nodes_coordinates]: columns "x [m]" and "y [m]". *)
Record node_row : Type := mk_node { x_m : Q; y_m : Q }.

(** [element_coordinates]: "x_top [m]", "x_bottom [m]", "y_top [m]",
    "y_bottom [m]". *)
Record element_row : Type :=
  mk_element { x_top : Q; x_bottom : Q; y_top : Q; y_bottom : Q }.

(** [global_forces]: node coordinates plus "Px [kN]", "Py [kN]", "Mz [kNm]". *)
Record force_row : Type :=
  mk_force { f_node : node_row; Px_kN : Q; Py_kN : Q; Mz_kNm : Q }.

(** [global_disp]: node coordinates plus "Tx [m]", "Ty [m]", "Rz [rad]". *)
Record disp_row : Type :=
  mk_disp { d_node : node_row; Tx_m : Q; Ty_m : Q; Rz_rad : Q }.

(** [global_restrained]: node coordinates plus the flags "Tx", "Ty", "Rz". *)
Record restrained_row : Type :=
  mk_restrained { r_node : node_row; r_Tx : bool; r_Ty : bool; r_Rz : bool }.

(** ** Comparisons of floats *)

Definition Qlt_bool (a b : Q) : bool := negb (Qle_bool b a).
Definition Qgt_bool (a b : Q) : bool := Qlt_bool b a.
Definition Qge_bool (a b : Q) : bool := Qle_bool b a.

(** ** numpy helpers *)

(** [np.isclose(a, b, atol=atol)] with numpy's default [rtol = 1e-05]:
    [|a - b| <= atol + rtol * |b|]. *)
Definition rtol : Q := 1 # 100000.

Definition isclose (a b atol : Q) : bool :=
  Qle_bool (Qabs (a - b)) (atol + rtol * Qabs b).

(** [math.isclose(a, b, abs_tol=abs_tol)] with the default
    [rel_tol = 1e-09]:
    [|a - b| <= max(rel_tol * max(|a|, |b|), abs_tol)]. *)
Definition math_isclose (a b abs_tol : Q) : bool :=
  Qle_bool (Qabs (a - b))
    (Qmax ((1 # 1000000000) * Qmax (Qabs a) (Qabs b)) abs_tol).

(** [np.where(check == True)[0]]: the positions holding [true]. *)
Fixpoint np_where_from (i : nat) (check : list bool) : list nat :=
  match check with
  | [] => []
  | b :: rest =>
      if b then i :: np_where_from (S i) rest else np_where_from (S i) rest
  end.

Definition np_where (check : list bool) : list nat := np_where_from 0 check.

(** [any(check)]. *)
Definition any (check : list bool) : bool := existsb (fun b => b) check.

(** [int(arr)] on an index array: only an array of size one converts. *)
Definition int_of_array (idx : list nat) : outcome nat :=
  match idx with
  | [i] => Returned i
  | _ => Raised TypeError
  end.

(** [np.unique]: the sorted (ascending) distinct values. *)
Fixpoint insert_unique (a : Q) (l : list Q) : list Q :=
  match l with
  | [] => [a]
  | b :: rest =>
      match a ?= b with
      | Lt => a :: b :: rest
      | Eq => b :: rest
      | Gt => b :: insert_unique a rest
      end
  end.

Definition np_unique (l : list Q) : list Q := fold_right insert_unique [] l.

(** [np.arange(start=1, stop=divider)]. *)
Definition np_arange_from_1 (stop : Z) : list Z :=
  map Z.of_nat (seq 1 (Z.to_nat stop - 1)).

(** Rounding to the nearest integer, ties to the even one ([np.rint]). *)
Definition round_half_even (q : Q) : Z :=
  let f := Qfloor q in
  let r := (q - inject_Z f)%Q in
  match Qcompare r (1 # 2) with
  | Lt => f
  | Gt => (f + 1)%Z
  | Eq => if Z.even f then f else (f + 1)%Z
  end.

(** [DataFrame.round(3)] on one value. *)
Definition round3 (q : Q) : Q := inject_Z (round_half_even (q * 1000)) / 1000.

(** [np.insert(arr, idx, v)]: [v] is placed before each original position
    listed in [idx]; a position equal to the length appends. *)
Fixpoint np_insert_from (i : nat) (arr : list (option Q)) (idx : list nat)
    (v : option Q) : list (option Q) :=
  let here := if bool_decide (i ∈ idx) then [v] else [] in
  match arr with
  | [] => here
  | a :: rest => here ++ a :: np_insert_from (S i) rest idx v
  end.

Definition np_insert (arr : list (option Q)) (idx : list nat) (v : option Q)
    : list (option Q) :=
  np_insert_from 0 arr idx v.

(** [Series.cumsum()] with pandas' default [skipna=True]: a NaN entry stays
    NaN and does not enter the running sum. *)
Fixpoint cumsum_from (acc : Q) (s : list (option Q)) : list (option Q) :=
  match s with
  | [] => []
  | None :: rest => None :: cumsum_from acc rest
  | Some v :: rest => Some (acc + v) :: cumsum_from (acc + v) rest
  end.

Definition cumsum (s : list (option Q)) : list (option Q) := cumsum_from 0 s.

(** [values[:-1]]. *)
Definition drop_last {A : Type} (l : list A) : list A := removelast l.

(** Stable insertion sort by a rational key, ascending
    ([DataFrame.sort_values(by=...)]). *)
Fixpoint insert_by {A : Type} (key : A -> Q) (a : A) (l : list A) : list A :=
  match l with
  | [] => [a]
  | b :: rest =>
      if Qle_bool (key b) (key a) then b :: insert_by key a rest
      else a :: b :: rest
  end.

Definition sort_values {A : Type} (key : A -> Q) (l : list A) : list A :=
  fold_right (insert_by key) [] l.

(** [sort_values(by=..., ascending=False)]. *)
Definition sort_values_desc {A : Type} (key : A -> Q) (l : list A) : list A :=
  sort_values (fun a => - key a) l.

(** ** [openpile.construct]: Pile, Layer, SoilProfile *)

(** Python's [sum] over a list of floats. *)
Definition py_sum (l : list Q) : Q := fold_left Qplus l 0.

Module Pile.

(** The three lists of [pile_sections]: "length", "diameter" and
    "wall thickness". *)
Record t : Type := mk {
  name : string;
  top_elevation : Q;
  section_length : list Q;
  section_diameter : list Q;
  section_wall_thickness : list Q
}.

(** The "Elevation [m]" column of [Pile.data] built in [_postinit]: the top
    and the bottom of every section, top to bottom. *)
Fixpoint elevations_from (cur : Q) (lengths : list Q) : list Q :=
  match lengths with
  | [] => []
  | val :: rest => cur :: (cur - val) :: elevations_from (cur - val) rest
  end.

Definition data_elevation (p : t) : list Q :=
  elevations_from (top_elevation p) (section_length p).

Definition bottom_elevation (p : t) : Q :=
  top_elevation p - py_sum (section_length p).

Definition length (p : t) : Q := py_sum (section_length p).

End Pile.

Module Layer.

(** [lateral_model] and [axial_model] are soil-model objects of
    [openpile.soilmodels]; only their presence is recorded. *)
Record t : Type := mk {
  name : string;
  top : Q;
  bottom : Q;
  weight : Q;
  lateral_model : bool;
  axial_model : bool
}.

(** The root validator [check_elevations] and the bound of [weight]
    ([confloat(gt=10.0)]). *)
Definition valid (l : t) : bool :=
  Qgt_bool (top l) (bottom l) && Qgt_bool (weight l) 10.

End Layer.

Module SoilProfile.

Record t : Type := mk {
  name : string;
  top_elevation : Q;
  water_elevation : Q;
  layers : list Layer.t
}.

Definition bottom_elevation (sp : t) : Q :=
  top_elevation sp
  - py_sum (map (fun x => Qabs (Layer.top x - Layer.bottom x)) (layers sp)).

(** The loop of the root validator over consecutive sorted layers:
    [m.isclose(top_sorted[i + 1], bottom_sorted[i], abs_tol=0.001)]. *)
Fixpoint layers_touch (sorted : list (Q * Q)) : bool :=
  match sorted with
  | (_, bottom_i) :: (((top_i1, _) :: _) as rest) =>
      math_isclose top_i1 bottom_i (1 # 1000) && layers_touch rest
  | _ => true
  end.

(** The root validator [check_layers_elevations]: the layers are sorted by
    top elevation, highest first; the first top must be the ground
    elevation and each layer must start where the one above ends. *)
Definition check_layers_elevations (sp : t) : outcome unit :=
  let sorted :=
    rev (sort_values fst
           (map (fun x => (Layer.top x, Layer.bottom x)) (layers sp))) in
  match sorted with
  | [] => Raised IndexError
  | (top0, _) :: _ =>
      if negb (Qeq_bool top0 (top_elevation sp)) then Raised ValueError
      else if layers_touch sorted then Returned tt
      else Raised ValueError
  end.

End SoilProfile.

(** ** [openpile.construct.Pile]: the table [data] and what is read from it *)

(** [m.pi]: the double nearest to pi, 884279719003555 / 2^48. *)
Definition m_pi : Q := 884279719003555 # 281474976710656.

(** One row of [Pile.data]: "Elevation [m]", "Diameter [m]",
    "Wall thickness [m]" ([None] is [pd.NA]), "Area [m2]", "I [m4]". *)
Record pile_row : Type := mk_pile_row {
  pd_elevation : Q;
  pd_diameter : Q;
  pd_wall_thickness : option Q;
  pd_area : Q;
  pd_I : Q
}.

(** The line printed by the properties of a [Pile] that has no data yet:
    "Please first create the pile with the Pile.create() method". *)
Inductive pile_message : Type := PleaseCreatePile.

(** [lst.append(val); lst.append(lst[-1])] for every [val]: the top and the
    bottom of each section carry the same value. *)
Definition twice {A : Type} (l : list A) : list A :=
  flat_map (fun val => [val; val]) l.

(** Area and second moment of area of a circular section:
    [m.pi / 4 * (d**2 - (d - 2 * wt) ** 2)] and
    [m.pi / 64 * (d**4 - (d - 2 * wt) ** 4)]. *)
Definition section_area (d wt : Q) : Q :=
  m_pi / 4 * (d ^ 2 - (d - 2 * wt) ^ 2).

Definition section_I (d wt : Q) : Q :=
  m_pi / 64 * (d ^ 4 - (d - 2 * wt) ^ 4).

(** The rows of [pd.DataFrame(data={...})] from its five columns. *)
Fixpoint data_rows (elevation diameter thickness area I : list Q)
    : list pile_row :=
  match elevation, diameter, thickness, area, I with
  | e :: elevation', d :: diameter', t :: thickness', a :: area', i :: I' =>
      mk_pile_row e d (Some t) a i
      :: data_rows elevation' diameter' thickness' area' I'
  | _, _, _, _, _ => []
  end.

(** [Series.mean()]: NaN on an empty column. *)
Definition mean (col : list Q) : option Q :=
  match col with
  | [] => None
  | _ => Some (py_sum col / inject_Z (Z.of_nat (List.length col)))
  end.

Module PileObject.

(** A [Pile] instance: its declared fields and the attributes that
    [_postinit] sets, [None] while they are not set. *)
Record t : Type := mk {
  fields : Pile.t;
  _uw : option Q;
  _young_modulus : option Q;
  _nu : option Q;
  _shear_modulus : option Q;
  data : option (list pile_row)
}.

(** The dataclass constructor [Pile(...)]. *)
Definition new (fields : Pile.t) : t := mk fields None None None None None.

(** The table built at the end of [_postinit]; the [DataFrame] constructor
    refuses columns of different lengths. *)
Definition build_data (p : Pile.t) : outcome (list pile_row) :=
  let elevation := Pile.data_elevation p in
  let diameter := twice (Pile.section_diameter p) in
  let thickness := twice (Pile.section_wall_thickness p) in
  let area :=
    twice (zip_with section_area (Pile.section_diameter p)
             (Pile.section_wall_thickness p)) in
  let second_moment_of_area :=
    twice (zip_with section_I (Pile.section_diameter p)
             (Pile.section_wall_thickness p)) in
  let n := List.length elevation in
  if Nat.eqb (List.length diameter) n && Nat.eqb (List.length thickness) n
     && Nat.eqb (List.length area) n
     && Nat.eqb (List.length second_moment_of_area) n
  then Returned (data_rows elevation diameter thickness area second_moment_of_area)
  else Raised ValueError.

Section create.

(** [validation.pile_sections_must_be], which is not part of these
    sources. *)
Variable pile_sections_must_be : Pile.t -> outcome unit.

(** [Pile._postinit]; [kind] and [material] have one admissible value each,
    "Circular" and "Steel". *)
Definition _postinit (self : t) : outcome t :=
  bind (pile_sections_must_be (fields self)) (fun _ =>
  let young_modulus := 210000000 in
  let nu := 3 # 10 in
  bind (build_data (fields self)) (fun d =>
  Returned
    (mk (fields self) (Some 78) (Some young_modulus) (Some nu)
       (Some (young_modulus / (2 + 2 * nu))) (Some d)))).

(** [Pile.create]. *)
Definition create (name : string) (top_elevation : Q)
    (length diameter wall_thickness : list Q) : outcome t :=
  _postinit (new (Pile.mk name top_elevation length diameter wall_thickness)).

End create.

(** The property [E] and its setter. *)
Definition E (self : t) : list pile_message * option Q :=
  match _young_modulus self with
  | Some v => ([], Some v)
  | None => ([PleaseCreatePile], None)
  end.

Definition set_E (value : Q) (self : t) : list pile_message * t :=
  ([], mk (fields self) (_uw self) (Some value) (_nu self)
         (_shear_modulus self) (data self)).

(** The properties [I], [width] and [area]: the mean of a column of
    [data].  The value is [None] for NaN, and when the line is printed and
    nothing is returned. *)
Definition column_mean (column : pile_row -> Q) (self : t)
    : list pile_message * option Q :=
  match data self with
  | Some d => ([], mean (map column d))
  | None => ([PleaseCreatePile], None)
  end.

Definition I (self : t) : list pile_message * option Q := column_mean pd_I self.
Definition width (self : t) : list pile_message * option Q :=
  column_mean pd_diameter self.
Definition area (self : t) : list pile_message * option Q :=
  column_mean pd_area self.

(** Their setters: [data.loc[:, column] = value] and
    [data.loc[:, ["Wall thickness [m]"]] = pd.NA]. *)
Definition set_column (write : Q -> pile_row -> pile_row) (value : Q)
    (self : t) : list pile_message * t :=
  match data self with
  | Some d =>
      ([], mk (fields self) (_uw self) (_young_modulus self) (_nu self)
             (_shear_modulus self)
             (Some (map (fun r =>
                           let r := write value r in
                           mk_pile_row (pd_elevation r) (pd_diameter r) None
                             (pd_area r) (pd_I r)) d)))
  | None => ([PleaseCreatePile], self)
  end.

Definition set_I : Q -> t -> list pile_message * t :=
  set_column (fun v r => mk_pile_row (pd_elevation r) (pd_diameter r)
                           (pd_wall_thickness r) (pd_area r) v).
Definition set_width : Q -> t -> list pile_message * t :=
  set_column (fun v r => mk_pile_row (pd_elevation r) v
                           (pd_wall_thickness r) (pd_area r) (pd_I r)).
Definition set_area : Q -> t -> list pile_message * t :=
  set_column (fun v r => mk_pile_row (pd_elevation r) (pd_diameter r)
                           (pd_wall_thickness r) v (pd_I r)).

End PileObject.

(** ** [openpile.construct.Model] *)

(** One row of [soil_properties]. *)
Record soil_row : Type := mk_soil_row {
  sp_x_top : Q;
  sp_x_bottom : Q;
  sp_top_soil_layer : option Q;
  sp_unit_weight : option Q;
  sp_xg_top : Q;
  sp_xg_bottom : Q;
  sp_sigma_v_top : option Q;
  sp_sigma_v_bottom : option Q
}.

(** One row of the table returned by [get_soil_profile]:
    "Top soil layer [m]" and "Unit Weight [kN/m3]". *)
Record profile_row : Type := mk_profile_row { pr_top : Q; pr_weight : Q }.

(** One row of [pd.merge_asof(left=elements, right=profile, ...)]. *)
Record merged_row : Type := mk_merged_row {
  mr_x_top : Q;
  mr_x_bottom : Q;
  mr_top_soil_layer : option Q;
  mr_unit_weight : option Q
}.

(** [pd.merge_asof(..., direction="forward")]: each left row takes the first
    right row whose key is at or after its own; both sides sorted by key. *)
Definition merge_asof_forward (left : list (Q * Q)) (right : list profile_row)
    : list merged_row :=
  map (fun l =>
         match find (fun r => Qle_bool (fst l) (pr_top r)) right with
         | Some r => mk_merged_row (fst l) (snd l) (Some (pr_top r)) (Some (pr_weight r))
         | None => mk_merged_row (fst l) (snd l) None None
         end) left.

(** The inner [while] of the secondary discretisation:
    [while new_spacing > coarseness: divider += 1; new_spacing = spacing / divider].
    [None] when the fuel runs out.  The quotient is the exact one; the
    rounded quotient of the doubles, which can stop the loop one pass
    earlier or later, is that of [Float64.refine_spacing]. *)
Fixpoint refine_spacing (fuel : nat) (spacing coarseness : Q) (divider : Z)
    (new_spacing : Q) : option (Z * Q) :=
  match fuel with
  | O => None
  | S fuel' =>
      if Qgt_bool new_spacing coarseness then
        let divider' := (divider + 1)%Z in
        refine_spacing fuel' spacing coarseness divider'
          (spacing / inject_Z divider')
      else Some (divider, new_spacing)
  end.

(** Passes after which the inner [while] has stopped if it stops at all: it
    stops once [divider >= spacing / coarseness]. *)
Definition refine_fuel (spacing coarseness : Q) : nat :=
  S (Z.to_nat (Qceiling (spacing / coarseness))).

(** The body of [for i in range(len(x) - 1)]: the new nodes strictly inside
    the span from [xi] down to [xi1]. *)
Definition new_x (coarseness xi xi1 : Q) : option (list Q) :=
  let spacing := xi - xi1 in
  match refine_spacing (refine_fuel spacing coarseness) spacing coarseness 1 spacing with
  | None => None
  | Some (divider, new_spacing) =>
      Some (map (fun k => xi - inject_Z k * new_spacing) (np_arange_from_1 divider))
  end.

(** The whole [for] loop: [x_secondary] for the anchor elevations [x]. *)
Fixpoint x_secondary (coarseness : Q) (x : list Q) : option (list Q) :=
  match x with
  | xi :: ((xi1 :: _) as rest) =>
      match new_x coarseness xi xi1, x_secondary coarseness rest with
      | Some here, Some below => Some (here ++ below)
      | _, _ => None
      end
  | _ => Some []
  end.

(** Consecutive pairs [(x[:-1], x[1:])]. *)
Fixpoint consecutive (x : list Q) : list (Q * Q) :=
  match x with
  | a :: ((b :: _) as rest) => (a, b) :: consecutive rest
  | _ => []
  end.

Module Model.

(** The declared fields and the attributes that [_postinit] adds.  The
    spring tables, filled by the soil models, and [element_properties] are
    not part of what is stated below and are left out. *)
Record t : Type := mk {
  name : string;
  pile : Pile.t;
  soil : option SoilProfile.t;
  x2mesh : list Q;
  coarseness : Q;
  nodes_coordinates : list node_row;
  element_coordinates : list element_row;
  element_number : nat;
  soil_properties : list soil_row;
  global_forces : list force_row;
  global_disp : list disp_row;
  global_restrained : list restrained_row
}.

(** The root validator [soil_and_pile_bottom_elevation_match]:
    [values["soil"].bottom_elevation] is read whatever [soil] is. *)
Definition soil_and_pile_bottom_elevation_match
    (pile : Pile.t) (soil : option SoilProfile.t) : outcome unit :=
  match soil with
  | None => Raised AttributeError
  | Some sp =>
      if Qlt_bool (Pile.bottom_elevation pile) (SoilProfile.bottom_elevation sp)
      then Raised UserWarning
      else Returned tt
  end.

(** The anchor elevations: first part of [get_coordinates], up to the
    first [np.unique(x)[::-1]].  Elevations that are equal as numbers are
    one anchor here; as doubles the toe of the pile table and
    [bottom_elevation], computed in two ways, can differ in the last bit
    and stay apart, which [Float64.primary_x] follows. *)
Definition primary_x (pile : Pile.t) (soil : option SoilProfile.t)
    (x2mesh : list Q) : list Q :=
  let x := Pile.data_elevation pile in
  let x :=
    match soil with
    | Some sp =>
        let soil_elevations :=
          map Layer.top (SoilProfile.layers sp)
          ++ map Layer.bottom (SoilProfile.layers sp) in
        let soil_elevations :=
          if existsb (fun e => Qlt_bool e (Pile.bottom_elevation pile)) soil_elevations
          then filter (fun e => Qge_bool e (Pile.bottom_elevation pile))
                 (Pile.bottom_elevation pile :: soil_elevations)
          else soil_elevations in
        x ++ soil_elevations
    | None => x
    end in
  let x := x ++ x2mesh in
  rev (np_unique x).

(** The node elevations before rounding: second part of [get_coordinates],
    up to the second [np.unique(x)[::-1]]. *)
Definition mesh_x (coarseness : Q) (x : list Q) : option (list Q) :=
  match x_secondary coarseness x with
  | Some secondary => Some (rev (np_unique (x ++ secondary)))
  | None => None
  end.

(** [get_coordinates]: the node table and the element table, both rounded
    to three decimals. *)
Definition get_coordinates (pile : Pile.t) (soil : option SoilProfile.t)
    (x2mesh : list Q) (coarseness : Q)
    : outcome (list node_row * list element_row) :=
  match mesh_x coarseness (primary_x pile soil x2mesh) with
  | None => Diverged
  | Some x =>
      let nodes := map (fun xi => mk_node (round3 xi) (round3 0)) x in
      let element :=
        map (fun ab => mk_element (round3 (fst ab)) (round3 (snd ab))
                         (round3 0) (round3 0))
          (consecutive x) in
      Returned (nodes, element)
  end.

(** [get_soil_profile]: layer tops and unit weights, from the highest
    layer down. *)
Definition get_soil_profile (sp : SoilProfile.t) : list profile_row :=
  rev (sort_values pr_top
         (map (fun x => mk_profile_row (Layer.top x) (Layer.weight x))
            (SoilProfile.layers sp))).

(** The "Unit Weight [kN/m3]" column after the buoyancy correction. *)
Definition buoyant (water_elevation : Q) (r : merged_row) : option Q :=
  if Qle_bool (mr_x_top r) water_elevation
  then option_map (fun w => w - 10) (mr_unit_weight r)
  else mr_unit_weight r.

(** The creation of [soil_properties] in [_postinit]. *)
Definition make_soil_properties (element : list element_row)
    (soil : option SoilProfile.t) : outcome (list soil_row) :=
  match soil with
  | None => Raised AttributeError
  | Some sp =>
      let merged :=
        sort_values_desc mr_x_top
          (merge_asof_forward
             (sort_values fst (map (fun e => (x_top e, x_bottom e)) element))
             (sort_values pr_top (get_soil_profile sp))) in
      let weight := map (buoyant (SoilProfile.water_elevation sp)) merged in
      let s :=
        zip_with (fun r w => option_map (fun w => (mr_x_top r - mr_x_bottom r) * w) w)
          merged weight in
      let sigma_v_top :=
        np_insert (drop_last (cumsum s))
          (np_where (map (fun r => Qeq_bool (mr_x_top r) (SoilProfile.top_elevation sp))
                       merged))
          (Some 0) in
      let sigma_v_bottom := cumsum s in
      if negb (Nat.eqb (List.length sigma_v_top) (List.length merged))
      then Raised ValueError
      else
        Returned
          (zip_with
             (fun rw tb =>
                mk_soil_row (mr_x_top (fst rw)) (mr_x_bottom (fst rw))
                  (mr_top_soil_layer (fst rw)) (snd rw)
                  (mr_x_top (fst rw) - SoilProfile.top_elevation sp)
                  (mr_x_bottom (fst rw) - SoilProfile.top_elevation sp)
                  (fst tb) (snd tb))
             (zip merged weight) (zip sigma_v_top sigma_v_bottom))
  end.

(** [Model.create]: the dataclass constructor with its root validator,
    then the steps of [_postinit] that build the mesh, the soil table and
    the tables of boundary conditions.  The merge of the pile table into
    [element_properties] and [create_springs], which calls into the soil
    models, are not modelled: [Returned] says what these steps leave in
    the model, not that the soil models went through. *)
Definition create (name : string) (pile : Pile.t) (soil : option SoilProfile.t)
    (x2mesh : list Q) (coarseness : Q) : outcome t :=
  bind (soil_and_pile_bottom_elevation_match pile soil) (fun _ =>
  bind (get_coordinates pile soil x2mesh coarseness) (fun coords =>
  let nodes := fst coords in
  let element := snd coords in
  bind (make_soil_properties element soil) (fun soil_props =>
  Returned
    (mk name pile soil x2mesh coarseness nodes element (List.length element)
       soil_props
       (map (fun n => mk_force n 0 0 0) nodes)
       (map (fun n => mk_disp n 0 0 0) nodes)
       (map (fun n => mk_restrained n false false false) nodes))))).

End Model.

(** ** The mesh builder in binary64

    [get_coordinates] once more, on the numbers that Python computes with:
    IEEE 754 binary64, rounded to nearest with ties to even after every
    operation, with its infinities and NaN.  These are the primitive floats
    of Rocq.  Where the exact reading above and the doubles of the code can
    part, in the quotient [spacing / divider] that decides how often a span
    is cut and in the rounding of the tables, this is the reading that
    follows the code. *)

Module Float64.

Import Floats.

#[local] Set Warnings "-inexact-float".

(** The number that a float denotes; [None] for an infinity and for NaN. *)
Definition to_Q (f : float) : option Q :=
  match Prim2SF f with
  | S754_zero _ => Some 0
  | S754_finite s m e =>
      Some ((if s then -1 else 1) * inject_Z (Zpos m) * 2 ^ e)
  | _ => None
  end.

(** A Python [int] converted to a float, as numpy does when an integer
    meets a float64; exact below 2^53. *)
Definition of_int (z : Z) : float :=
  if (z <? 0)%Z then (- of_uint63 (Uint63.of_Z (- z)))%float
  else of_uint63 (Uint63.of_Z z).

(** Python's [sum] over a list of floats: from 0, left to right. *)
Definition py_sum (l : list float) : float := fold_left add l 0%float.

(** [np.unique]: the distinct values in ascending order.  NaN compares
    with nothing; numpy sorts it last and keeps one. *)
Fixpoint insert_unique (a : float) (l : list float) : list float :=
  match l with
  | [] => [a]
  | b :: rest =>
      match compare a b with
      | FLt => a :: b :: rest
      | FEq => b :: rest
      | FGt => b :: insert_unique a rest
      | FNotComparable =>
          if is_nan b then (if is_nan a then b :: rest else a :: b :: rest)
          else b :: insert_unique a rest
      end
  end.

Definition np_unique (l : list float) : list float :=
  fold_right insert_unique [] l.

(** [np.rint]: the nearest integer, ties to the even one.  A float of
    magnitude 2^52 or more is an integer already. *)
Definition np_rint (x : float) : float :=
  match to_Q x with
  | Some q => if Qle_bool (2 ^ 52) (Qabs q) then x else of_int (round_half_even q)
  | None => x
  end.

(** [DataFrame.round(3)] on one value, which numpy computes as
    [rint(x * 1000) / 1000]. *)
Definition round3 (x : float) : float := (np_rint (x * 1000) / 1000)%float.

(** The rows of the node table and of the element table. *)
Record node_row : Type := mk_node { x_m : float; y_m : float }.

Record element_row : Type :=
  mk_element { x_top : float; x_bottom : float; y_top : float; y_bottom : float }.

(** What [get_coordinates] reads of the model: the top of the pile and the
    lengths of its sections, the top and the bottom of every soil layer
    ([None] for a model without soil), [x2mesh] and [coarseness]. *)
Record t : Type := mk {
  top_elevation : float;
  section_length : list float;
  layers : option (list (float * float));
  x2mesh : list float;
  coarseness : float
}.

(** The "Elevation [m]" column of [Pile.data]: the top and the bottom of
    every section, each bottom being the float [elevation[-1] - val]. *)
Fixpoint elevations_from (cur : float) (lengths : list float) : list float :=
  match lengths with
  | [] => []
  | val :: rest =>
      cur :: (cur - val)%float :: elevations_from (cur - val)%float rest
  end.

Definition data_elevation (self : t) : list float :=
  elevations_from (top_elevation self) (section_length self).

(** [Pile.bottom_elevation]: [top_elevation - sum(lengths)]. *)
Definition bottom_elevation (self : t) : float :=
  (top_elevation self - py_sum (section_length self))%float.

(** The anchor elevations, up to the first [np.unique(x)[::-1]]. *)
Definition primary_x (self : t) : list float :=
  let x := data_elevation self in
  let x :=
    match layers self with
    | Some ls =>
        let soil_elevations := map fst ls ++ map snd ls in
        let soil_elevations :=
          if existsb (fun e => ltb e (bottom_elevation self)) soil_elevations
          then List.filter (fun e => leb (bottom_elevation self) e)
                 (bottom_elevation self :: soil_elevations)
          else soil_elevations in
        x ++ soil_elevations
    | None => x
    end in
  let x := x ++ x2mesh self in
  rev (np_unique x).

(** The inner [while]:
    [while new_spacing > coarseness: divider += 1; new_spacing = spacing / divider],
    the quotient being the rounded one.  [None] when the fuel runs out. *)
Fixpoint refine_spacing (fuel : nat) (spacing coarseness : float) (divider : Z)
    (new_spacing : float) : option (Z * float) :=
  match fuel with
  | O => None
  | S fuel' =>
      if ltb coarseness new_spacing then
        let divider' := (divider + 1)%Z in
        refine_spacing fuel' spacing coarseness divider'
          (spacing / of_int divider')%float
      else Some (divider, new_spacing)
  end.

(** Passes that are enough for the inner [while] when it stops: the
    rounded quotient is at most [coarseness] as soon as the exact one is,
    that is, from [divider >= spacing / coarseness] on.  With an infinite
    spacing, or a coarseness that is not positive, it does not stop. *)
Definition refine_fuel (spacing coarseness : float) : nat :=
  match to_Q spacing, to_Q coarseness with
  | Some s, Some c => S (Z.to_nat (Qceiling (s / c)))
  | _, _ => 1%nat
  end.

(** The body of [for i in range(len(x) - 1)]:
    [x[i] - np.arange(1, divider) * new_spacing]. *)
Definition new_x (coarseness xi xi1 : float) : option (list float) :=
  let spacing := (xi - xi1)%float in
  match refine_spacing (refine_fuel spacing coarseness) spacing coarseness 1
          spacing with
  | None => None
  | Some (divider, new_spacing) =>
      Some (map (fun k => (xi - of_int k * new_spacing)%float)
              (np_arange_from_1 divider))
  end.

Fixpoint x_secondary (coarseness : float) (x : list float)
    : option (list float) :=
  match x with
  | xi :: ((xi1 :: _) as rest) =>
      match new_x coarseness xi xi1, x_secondary coarseness rest with
      | Some here, Some below => Some (here ++ below)
      | _, _ => None
      end
  | _ => Some []
  end.

(** The node elevations before rounding, up to the second
    [np.unique(x)[::-1]]. *)
Definition mesh_x (coarseness : float) (x : list float) : option (list float) :=
  match x_secondary coarseness x with
  | Some secondary => Some (rev (np_unique (x ++ secondary)))
  | None => None
  end.

(** Consecutive pairs [(x[:-1], x[1:])]. *)
Fixpoint consecutive (x : list float) : list (float * float) :=
  match x with
  | a :: ((b :: _) as rest) => (a, b) :: consecutive rest
  | _ => []
  end.

(** [get_coordinates]: the node table and the element table, both rounded
    to three decimals. *)
Definition get_coordinates (self : t)
    : outcome (list node_row * list element_row) :=
  match mesh_x (coarseness self) (primary_x self) with
  | None => Diverged
  | Some x =>
      let nodes := map (fun xi => mk_node (round3 xi) (round3 0)) x in
      let element :=
        map (fun ab => mk_element (round3 (fst ab)) (round3 (snd ab))
                         (round3 0) (round3 0))
          (consecutive x) in
      Returned (nodes, element)
  end.

(** The length of an element of the table, as a number. *)
Definition element_length (e : element_row) : option Q :=
  match to_Q (x_top e), to_Q (x_bottom e) with
  | Some a, Some b => Some (a - b)
  | _, _ => None
  end.

(** A 10 m pile in one layer of soil, with a coarseness of 3.3334. *)
Definition short_mesh : t :=
  mk 0 [10%float] (Some [(0%float, (-10)%float)]) [] 3.3334.

(** Its node elevations before and after [round(3)]. *)
Definition short_x : list float :=
  [0; -3.3333333333333335; -6.666666666666667; -10]%float.

Definition short_nodes : list float := [0; -3.333; -6.667; -10]%float.

(** A 2.1 m pile in one layer of soil, with a coarseness of 0.7. *)
Definition stub_mesh : t :=
  mk 0 [2.1%float] (Some [(0%float, (-2.1)%float)]) [] 0.7.

Definition stub_nodes : list float := [0; -0.525; -1.05; -1.575; -2.1]%float.

End Float64.

(** ** Boundary-condition setters of [Model] *)

(** The [try: ... except Exception: print(...); raise] around a setter body. *)
Definition try_except_raise {A : Type} (body : printed * outcome A)
    : printed * outcome A :=
  match snd body with
  | Raised e => (fst body ++ [UserInputError], Raised e)
  | _ => body
  end.

(** [df["x [m]"].iloc[0]] and [.iloc[-1]]. *)
Definition iloc_first (nodes : list node_row) : outcome Q :=
  match nodes with
  | [] => Raised IndexError
  | n :: _ => Returned (x_m n)
  end.

Definition iloc_last (nodes : list node_row) : outcome Q :=
  match nodes with
  | [] => Raised IndexError
  | n :: rest => Returned (x_m (List.last rest n))
  end.

(** [np.isclose(nodes_elevations, np.tile(elevation, ...), atol=0.001)]. *)
Definition node_check (self : Model.t) (elevation : Q) : list bool :=
  let nodes_elevations := map x_m (Model.nodes_coordinates self) in
  map (fun a => isclose a elevation (1 # 1000)) nodes_elevations.

(** The [else] branch shared by the three setters: which of the two lines
    is printed. *)
Definition report_unmatched (self : Model.t) (elevation : Q)
    (outside not_meshed : message) : printed * outcome Model.t :=
  match iloc_first (Model.nodes_coordinates self) with
  | Returned first =>
      if Qgt_bool elevation first then ([outside], Returned self)
      else
        match iloc_last (Model.nodes_coordinates self) with
        | Returned last =>
            if Qlt_bool elevation last then ([outside], Returned self)
            else ([not_meshed], Returned self)
        | Raised e => ([], Raised e)
        | Diverged => ([], Diverged)
        end
  | Raised e => ([], Raised e)
  | Diverged => ([], Diverged)
  end.

Definition with_global_forces (self : Model.t) (gf : list force_row) : Model.t :=
  Model.mk (Model.name self) (Model.pile self) (Model.soil self)
    (Model.x2mesh self) (Model.coarseness self) (Model.nodes_coordinates self)
    (Model.element_coordinates self) (Model.element_number self)
    (Model.soil_properties self) gf (Model.global_disp self)
    (Model.global_restrained self).

Definition with_global_disp (self : Model.t) (gd : list disp_row) : Model.t :=
  Model.mk (Model.name self) (Model.pile self) (Model.soil self)
    (Model.x2mesh self) (Model.coarseness self) (Model.nodes_coordinates self)
    (Model.element_coordinates self) (Model.element_number self)
    (Model.soil_properties self) (Model.global_forces self) gd
    (Model.global_restrained self).

Definition with_global_restrained (self : Model.t) (gr : list restrained_row)
    : Model.t :=
  Model.mk (Model.name self) (Model.pile self) (Model.soil self)
    (Model.x2mesh self) (Model.coarseness self) (Model.nodes_coordinates self)
    (Model.element_coordinates self) (Model.element_number self)
    (Model.soil_properties self) (Model.global_forces self)
    (Model.global_disp self) gr.

(** [df.loc[node_idx, column] = value], one definition per column. *)
Definition set_Px (v : Q) (r : force_row) : force_row :=
  mk_force (f_node r) v (Py_kN r) (Mz_kNm r).
Definition set_Py (v : Q) (r : force_row) : force_row :=
  mk_force (f_node r) (Px_kN r) v (Mz_kNm r).
Definition set_Mz (v : Q) (r : force_row) : force_row :=
  mk_force (f_node r) (Px_kN r) (Py_kN r) v.
Definition set_Tx_m (v : Q) (r : disp_row) : disp_row :=
  mk_disp (d_node r) v (Ty_m r) (Rz_rad r).
Definition set_Ty_m (v : Q) (r : disp_row) : disp_row :=
  mk_disp (d_node r) (Tx_m r) v (Rz_rad r).
Definition set_Rz_rad (v : Q) (r : disp_row) : disp_row :=
  mk_disp (d_node r) (Tx_m r) (Ty_m r) v.
Definition set_r_Tx (v : bool) (r : restrained_row) : restrained_row :=
  mk_restrained (r_node r) v (r_Ty r) (r_Rz r).
Definition set_r_Ty (v : bool) (r : restrained_row) : restrained_row :=
  mk_restrained (r_node r) (r_Tx r) v (r_Rz r).
Definition set_r_Rz (v : bool) (r : restrained_row) : restrained_row :=
  mk_restrained (r_node r) (r_Tx r) (r_Ty r) v.

(** [if value is not None: table.loc[node_idx, column] = value]. *)
Definition loc_set_if {R : Type} (set : Q -> R -> R) (value : option Q)
    (node_idx : nat) (table : list R) : list R :=
  match value with
  | Some v => alter (set v) node_idx table
  | None => table
  end.

(** [Model.set_pointload(elevation, Py, Px, Mz)]. *)
Definition set_pointload (self : Model.t) (elevation : Q) (Py Px Mz : option Q)
    : printed * outcome Model.t :=
  let check := node_check self elevation in
  try_except_raise
    (if any check then
       match int_of_array (np_where check) with
       | Returned node_idx =>
           let gf := Model.global_forces self in
           let gf := loc_set_if set_Px Px node_idx gf in
           let gf := loc_set_if set_Py Py node_idx gf in
           let gf := loc_set_if set_Mz Mz node_idx gf in
           ([], Returned (with_global_forces self gf))
       | Raised e => ([], Raised e)
       | Diverged => ([], Diverged)
       end
     else report_unmatched self elevation LoadOutsideMesh LoadNotMeshed).

(** [if value is not None: global_disp.loc[...] = value;
    global_restrained.loc[...] = value > 0.0]. *)
Definition loc_set_restrained_if (set : bool -> restrained_row -> restrained_row)
    (value : option Q) (node_idx : nat) (table : list restrained_row)
    : list restrained_row :=
  match value with
  | Some v => alter (set (Qgt_bool v 0)) node_idx table
  | None => table
  end.

(** [Model.set_pointdisplacement(elevation, Ty, Tx, Rz)]. *)
Definition set_pointdisplacement (self : Model.t) (elevation : Q)
    (Ty Tx Rz : option Q) : printed * outcome Model.t :=
  try_except_raise
    (let check := node_check self elevation in
     if any check then
       match int_of_array (np_where check) with
       | Returned node_idx =>
           let gd := Model.global_disp self in
           let gr := Model.global_restrained self in
           let gd := loc_set_if set_Tx_m Tx node_idx gd in
           let gr := loc_set_restrained_if set_r_Tx Tx node_idx gr in
           let gd := loc_set_if set_Ty_m Ty node_idx gd in
           let gr := loc_set_restrained_if set_r_Ty Ty node_idx gr in
           let gd := loc_set_if set_Rz_rad Rz node_idx gd in
           let gr := loc_set_restrained_if set_r_Rz Rz node_idx gr in
           ([], Returned (with_global_restrained (with_global_disp self gd) gr))
       | Raised e => ([], Raised e)
       | Diverged => ([], Diverged)
       end
     else report_unmatched self elevation SupportOutsideMesh SupportNotMeshed).

(** [Model.set_support(elevation, Ty, Tx, Rz)]. *)
Definition set_support (self : Model.t) (elevation : Q) (Ty Tx Rz : bool)
    : printed * outcome Model.t :=
  try_except_raise
    (let check := node_check self elevation in
     if any check then
       match int_of_array (np_where check) with
       | Returned node_idx =>
           let gr := Model.global_restrained self in
           let gr := alter (set_r_Tx Tx) node_idx gr in
           let gr := alter (set_r_Ty Ty) node_idx gr in
           let gr := alter (set_r_Rz Rz) node_idx gr in
           ([], Returned (with_global_restrained self gr))
       | Raised e => ([], Raised e)
       | Diverged => ([], Diverged)
       end
     else report_unmatched self elevation SupportOutsideMesh SupportNotMeshed).

(** ** [Model.get_pointload] *)

(** One line of [Model.get_pointload]:
    f"Load applied at elevation {elevation} m (node no. {idx}):
    Px = {Px} kN, Py = {Py} kN, Mx = {Mz} kNm." *)
Record pointload_line : Type := LoadAppliedAt {
  pl_elevation : Q;
  pl_idx : nat;
  pl_Px : Q;
  pl_Py : Q;
  pl_Mz : Q
}.

(** Truth value of a float: [any([Px, Py, Mz])] holds when one of the three
    is not zero. *)
Definition truthy (v : Q) : bool := negb (Qeq_bool v 0).

(** The loop of [get_pointload] over [global_forces.itertuples()], from
    row number [idx] on. *)
Fixpoint pointload_lines_from (idx : nat) (rows : list force_row)
    : list pointload_line :=
  match rows with
  | [] => []
  | r :: rest =>
      if truthy (Px_kN r) || truthy (Py_kN r) || truthy (Mz_kNm r)
      then LoadAppliedAt (x_m (f_node r)) idx (Px_kN r) (Py_kN r) (Mz_kNm r)
           :: pointload_lines_from (S idx) rest
      else pointload_lines_from (S idx) rest
  end.

(** [Model.get_pointload(output, verbose)]: the lines printed and the value
    returned, which is the text of all the lines when [output] is set and
    [None] otherwise.  The [except] branch is entered only when the model
    has no [global_forces] yet, which a [Model.t] always has. *)
Definition get_pointload (self : Model.t) (output verbose : bool)
    : list pointload_line * option (list pointload_line) :=
  let out := pointload_lines_from 0 (Model.global_forces self) in
  (if verbose then out else [], if output then Some out else None).

(** ** [openpile.analyze] *)

Definition Vec : Type := list Q.
Definition Mat : Type := list Vec.

(** numpy arithmetic on one-dimensional arrays of equal length. *)
Definition vadd (a b : Vec) : Vec := zip_with Qplus a b.
Definition vsub (a b : Vec) : Vec := zip_with Qminus a b.
Definition vneg (a : Vec) : Vec := map Qopp a.
Definition vdot (a b : Vec) : Q := py_sum (zip_with Qmult a b).

(** [K.dot(d)]. *)
Definition mdot (K : Mat) (d : Vec) : Vec := map (fun row => vdot row d) K.

(** [v[~supports]]: the entries at the unrestrained degrees of freedom. *)
Definition free_part (v : Vec) (supports : list bool) : Vec :=
  map fst (filter (fun p => negb (snd p)) (zip v supports)).

(** [np.zeros(U.shape)] and [U[:] = 0.0]. *)
Definition zeros_like (U : Vec) : Vec := map (fun _ => 0) U.

(** [np.linalg.norm] of a vector is the square root of the sum of its
    squares; the value is kept as that sum, and two norms are compared
    through their squares. *)
Record norm : Type := mk_norm { squared : Q }.

Definition np_linalg_norm (v : Vec) : norm := mk_norm (vdot v v).

(** [n < k * m] for norms [n], [m] and a factor [k >= 0]. *)
Definition norm_lt_scaled (n : norm) (k : Q) (m : norm) : bool :=
  Qlt_bool (squared n) (k * k * squared m).

(** [v.reshape(-1, 3)]: three entries per node. *)
Fixpoint reshape3 (v : Vec) : list (Q * Q * Q) :=
  match v with
  | a :: b :: c :: rest => (a, b, c) :: reshape3 rest
  | _ => []
  end.

(** One row of a result table: elevation and three values. *)
Definition result_row : Type := (Q * (Q * Q * Q))%type.

(** [disp_to_df(model, u)]: "Elevation [m]", "Settlement [m]",
    "Deflection [m]", "Rotation [rad]", for a vector [u] with three entries
    per node.  On a vector of another length [reshape] or the DataFrame
    constructor raises [ValueError]; that case is not modelled. *)
Definition disp_to_df (model : Model.t) (u : Vec) : list result_row :=
  zip (map x_m (Model.nodes_coordinates model)) (reshape3 u).

(** [df[[col]].mask(df[[col]].abs() < 1e-3, 0.0)] on one value. *)
Definition mask_small (v : Q) : Q :=
  if Qlt_bool (Qabs v) (1 # 1000) then 0 else v.

(** [reaction_forces_to_df(model, Q)]: small values are zeroed and only the
    rows with a value above 1e-3 are kept, for a vector [Q] with three
    entries per node.  On a vector of another length [reshape] or the
    DataFrame constructor raises [ValueError]; that case is not modelled. *)
Definition reaction_forces_to_df (model : Model.t) (Q : Vec) : list result_row :=
  filter
    (fun r : result_row =>
       let '(_, (n, v, m)) := r in
       Qgt_bool (Qabs n) (1 # 1000) || Qgt_bool (Qabs v) (1 # 1000)
       || Qgt_bool (Qabs m) (1 # 1000))
    (map (fun r : result_row =>
            let '(x, (n, v, m)) := r in (x, (mask_small n, mask_small v, mask_small m)))
       (zip (map x_m (Model.nodes_coordinates model)) (reshape3 Q))).

Inductive stiffness_kind : Type := initial | secant | tangent.

(** The functions of [openpile.core.kernel] that the analysis calls.  The
    tables of internal forces and of spring mobilisation are reformatted
    kernel outputs and are taken from the kernel as they are.
    [solve_equations] raises [LinAlgError] when the reduced stiffness matrix
    is singular. *)
Class Kernel : Type := {
  Table : Type;
  build_stiffness_matrix : Model.t -> Vec -> stiffness_kind -> Mat;
  solve_equations : Mat -> Vec -> Vec -> list bool -> outcome (Vec * Vec);
  pile_internal_forces : Model.t -> Vec -> Vec;
  structural_forces_to_df : Model.t -> Vec -> Table;
  springs_mob_to_df : Model.t -> Vec -> Table;
  hb_mob : Model.t -> Vec -> Table;
  mb_mob : Model.t -> Vec -> Table
}.

(** Modelled from the spec: [kernel.mesh_to_global_force_dof_vector], absent
    from the sources; the force vector is indexed by
    3 * node index + component. *)
Definition mesh_to_global_force_dof_vector (df : list force_row) : Vec :=
  concat (map (fun r => [Px_kN r; Py_kN r; Mz_kNm r]) df).

(** Modelled from the spec: [kernel.mesh_to_global_disp_dof_vector], absent
    from the sources; same indexing. *)
Definition mesh_to_global_disp_dof_vector (df : list disp_row) : Vec :=
  concat (map (fun r => [Tx_m r; Ty_m r; Rz_rad r]) df).

(** Modelled from the spec: [kernel.mesh_to_global_restrained_dof_vector],
    absent from the sources; same indexing. *)
Definition mesh_to_global_restrained_dof_vector (df : list restrained_row)
    : list bool :=
  concat (map (fun r => [r_Tx r; r_Ty r; r_Rz r]) df).

(** The [AnalyzeResult] dataclass. *)
Record AnalyzeResult `{Kernel} : Type := mk_result {
  _name : string * string * string;
  _d : list result_row;
  _f : Table;
  _Q : list result_row;
  _dist_mob : Table;
  _hb_mob : Table;
  _mb_mob : Table
}.

(** The local variables of [simple_winkler_analysis] that the loop changes.
    [Q] is unbound until the first solve has returned. *)
Record loop_state : Type := mk_state {
  st_K : Mat;
  st_Rg : Vec;
  st_U : Vec;
  st_d : Vec;
  st_Q : option Vec;
  st_iter_no : Z
}.

(** How one pass through the loop body ends, with the lines it printed. *)
Inductive pass_end : Type :=
  | Continue (out : printed) (st : loop_state)
  | Break (out : printed) (st : loop_state)
  | Propagate (e : exn)
  | Hang.

Section simple_winkler_analysis.

Context `{Kernel}.
Variable model : Model.t.
Variable max_iter : Z.

(** [F] and [supports], fixed before the loop. *)
Definition global_F : Vec :=
  mesh_to_global_force_dof_vector (Model.global_forces model).
Definition global_supports : list bool :=
  mesh_to_global_restrained_dof_vector (Model.global_restrained model).

(** The convergence test of the loop:
    [np.linalg.norm(Rg[~supports]) < 1e-4 * control]. *)
Definition residual_test (Rg : Vec) (control : norm) : bool :=
  norm_lt_scaled (np_linalg_norm (free_part Rg global_supports)) (1 # 10000)
    control.

(** One pass through the body of [while iter_no <= max_iter]. *)
Definition loop_body (st : loop_state) : pass_end :=
  match solve_equations (st_K st) (st_Rg st) (st_U st) global_supports with
  | Raised LinAlgError => Break [CannotConverge] st
  | Raised e => Propagate e
  | Diverged => Hang
  | Returned (u_inc, Q) =>
      let F_ext := vsub global_F Q in
      let control := np_linalg_norm F_ext in
      let d := vadd (st_d st) u_inc in
      let K_secant := build_stiffness_matrix model d secant in
      let F_int := vneg (mdot K_secant d) in
      let Rg := vadd F_ext F_int in
      let advance :=
        Continue
          (if (st_iter_no st =? 100)%Z then [NotConvergedAfter100] else [])
          (mk_state (build_stiffness_matrix model d tangent) Rg
             (zeros_like (st_U st)) d (Some Q) (st_iter_no st + 1)) in
      if residual_test Rg control then
        if (0 <? st_iter_no st)%Z then
          Break [ConvergedAt (st_iter_no st)]
            (mk_state (st_K st) Rg (st_U st) d (Some Q) (st_iter_no st))
        else advance
      else advance
  end.

(** The [while] loop, with the lines printed so far; [None] when the fuel
    runs out. *)
Fixpoint while_loop (fuel : nat) (out : printed) (st : loop_state)
    : option (printed * outcome loop_state) :=
  if (st_iter_no st <=? max_iter)%Z then
    match fuel with
    | O => None
    | S fuel' =>
        match loop_body st with
        | Continue out' st' => while_loop fuel' (out ++ out') st'
        | Break out' st' => Some (out ++ out', Returned st')
        | Propagate e => Some (out, Raised e)
        | Hang => Some (out, Diverged)
        end
    end
  else Some (out, Returned st).

(** The state on entry to the loop. *)
Definition initial_state : loop_state :=
  let U := mesh_to_global_disp_dof_vector (Model.global_disp model) in
  let d := zeros_like U in
  let K := build_stiffness_matrix model d initial in
  mk_state K global_F U d None 0.

(** The code after the loop: the result object.  Reading [Q] while it is
    unbound raises. *)
Definition final_results (sp : SoilProfile.t) (st : loop_state)
    : outcome (option AnalyzeResult) :=
  let q_int := pile_internal_forces model (st_d st) in
  match st_Q st with
  | None => Raised UnboundLocalError
  | Some Q =>
      Returned
        (Some
           (mk_result _
              (Model.name model, Pile.name (Model.pile model), SoilProfile.name sp)
              (disp_to_df model (st_d st))
              (structural_forces_to_df model q_int)
              (reaction_forces_to_df model Q)
              (springs_mob_to_df model (st_d st))
              (hb_mob model (st_d st))
              (mb_mob model (st_d st))))
  end.

(** [simple_winkler_analysis(model, max_iter)]: when [model.soil is None]
    a [UserWarning] object is built and dropped, and the function ends
    without a [return]. *)
Definition simple_winkler_analysis : printed * outcome (option AnalyzeResult) :=
  match Model.soil model with
  | None => ([], Returned None)
  | Some sp =>
      match while_loop (Z.to_nat (max_iter + 1)) [] initial_state with
      | None => ([], Diverged)
      | Some (out, Returned st) => (out, final_results sp st)
      | Some (out, Raised e) => (out, Raised e)
      | Some (out, Diverged) => (out, Diverged)
      end
  end.

End simple_winkler_analysis.

(** ** Notions used in the statements *)

(** The elevation lies above the first node or below the last one. *)
Definition outside_mesh (self : Model.t) (elevation : Q) : Prop :=
  match Model.nodes_coordinates self with
  | [] => False
  | n :: rest => x_m n < elevation \/ elevation < x_m (List.last rest n)
  end.

(** A call of one of the three setters, as data. *)
Inductive bc_call : Type :=
  | PointLoad (Py Px Mz : option Q)
  | PointDisplacement (Ty Tx Rz : option Q)
  | Support (Ty Tx Rz : bool).

Definition apply_call (self : Model.t) (elevation : Q) (c : bc_call)
    : printed * outcome Model.t :=
  match c with
  | PointLoad Py Px Mz => set_pointload self elevation Py Px Mz
  | PointDisplacement Ty Tx Rz => set_pointdisplacement self elevation Ty Tx Rz
  | Support Ty Tx Rz => set_support self elevation Ty Tx Rz
  end.

(** The lines of the two kinds of rejection, by setter. *)
Definition outside_line (c : bc_call) : message :=
  match c with PointLoad _ _ _ => LoadOutsideMesh | _ => SupportOutsideMesh end.

Definition not_meshed_line (c : bc_call) : message :=
  match c with PointLoad _ _ _ => LoadNotMeshed | _ => SupportNotMeshed end.





(** A script of setter calls run one after the other on the same model;
    the lines printed are collected and the first exception ends the
    script. *)
Fixpoint apply_calls (self : Model.t) (calls : list (Q * bc_call))
    : printed * outcome Model.t :=
  match calls with
  | [] => ([], Returned self)
  | (elevation, c) :: rest =>
      match apply_call self elevation c with
      | (out, Returned m) =>
          (out ++ fst (apply_calls m rest), snd (apply_calls m rest))
      | (out, Raised e) => (out, Raised e)
      | (out, Diverged) => (out, Diverged)
      end
  end.

(** How a reaction component [value] appears in the reaction table: as zero
    when it is below 1e-3 in absolute value, as it is otherwise. *)
Definition shown_as (value shown : Q) : Prop :=
  (Qabs value < 1 # 1000 /\ shown = 0)
  \/ ((1 # 1000) <= Qabs value /\ shown = value).

(** The tables of boundary conditions have one row per node. *)
Definition tables_aligned (self : Model.t) : Prop :=
  List.length (Model.global_forces self) = List.length (Model.nodes_coordinates self)
  /\ List.length (Model.global_disp self) = List.length (Model.nodes_coordinates self)
  /\ List.length (Model.global_restrained self)
     = List.length (Model.nodes_coordinates self).

(** [n] passes through the loop body, each one ending at the bottom of the
    body (neither [break] nor an exception), from state [st] on; the result
    is the state before the next test of [iter_no <= max_iter]. *)
Fixpoint run_passes `{Kernel} (model : Model.t) (max_iter : Z) (n : nat)
    (out : printed) (st : loop_state) : option (printed * loop_state) :=
  match n with
  | O => Some (out, st)
  | S n' =>
      if (st_iter_no st <=? max_iter)%Z then
        match loop_body model st with
        | Continue out' st' => run_passes model max_iter n' (out ++ out') st'
        | _ => None
        end
      else None
  end.

(** The result object built after the loop from the displacements [d] and
    the reactions [Q]. *)
Definition result_from `{Kernel} (model : Model.t) (sp : SoilProfile.t)
    (d Q : Vec) : AnalyzeResult :=
  mk_result _
    (Model.name model, Pile.name (Model.pile model), SoilProfile.name sp)
    (disp_to_df model d)
    (structural_forces_to_df model (pile_internal_forces model d))
    (reaction_forces_to_df model Q)
    (springs_mob_to_df model d)
    (hb_mob model d)
    (mb_mob model d).

(** The pass ends by declaring convergence: it prints the "Converged"
    line and leaves the loop. *)
Definition declares_convergence (p : pass_end) : Prop :=
  match p with
  | Break [ConvergedAt _] _ => True
  | _ => False
  end.

(** The pass ends at the bottom of the body and the loop goes on. *)
Definition goes_on (p : pass_end) : Prop :=
  match p with
  | Continue _ _ => True
  | _ => False
  end.

(** The square of the norm of a vector: the sum of the squares of its
    entries. *)
Fixpoint squares (v : Vec) : Q :=
  match v with
  | [] => 0
  | a :: rest => a * a + squares rest
  end.

(** The square of the norm of [v] over the free degrees of freedom: the
    sum of the squares of the entries of [v] whose flag in [supports] is
    [false]. *)
Fixpoint free_squares (v : Vec) (supports : list bool) : Q :=
  match v, supports with
  | a :: rest, s :: flags =>
      (if s then 0 else a * a) + free_squares rest flags
  | _, _ => 0
  end.

(** A list of elevations from the top down, each strictly below the one
    before. *)
Definition descending (x : list Q) : Prop :=
  StronglySorted (fun a b => b < a) x.

(** [y] is, as a number, one of the elevations of [x]. *)
Definition InQ (y : Q) (x : list Q) : Prop := exists z, In z x /\ z == y.

(** The [k]-th of the points that cut the span from [a] down to [b] into
    [ceil((a - b) / c)] equal parts; the 0-th is [a], the last is [b]. *)
Definition subdivision_point (c a b : Q) (k : Z) : Q :=
  a - inject_Z k * ((a - b) / inject_Z (Qceiling ((a - b) / c))).

(** The weight of soil above the bottom of the last of [rows]: the sum of
    thickness times unit weight over the rows that have a unit weight, that
    is, over the elements at or below the ground surface. *)
Fixpoint overburden (rows : list soil_row) : Q :=
  match rows with
  | [] => 0
  | r :: rest =>
      match sp_unit_weight r with
      | Some w => (sp_x_top r - sp_x_bottom r) * w + overburden rest
      | None => overburden rest
      end
  end.

(** The sum of the entries of a series that are not NaN. *)
Fixpoint nansum (s : list (option Q)) : Q :=
  match s with
  | [] => 0
  | Some v :: rest => v + nansum rest
  | None :: rest => nansum rest
  end.

(** A table whose key never increases from one row to the next. *)
Definition key_descends {A : Type} (key : A -> Q) (l : list A) : Prop :=
  StronglySorted (fun a b => key b <= key a) l.

(** A table whose key never decreases from one row to the next. *)
Definition key_ascends {A : Type} (key : A -> Q) (l : list A) : Prop :=
  StronglySorted (fun a b => key a <= key b) l.

(** ** Examples *)

(** A 40 m pile in one layer of soil, meshed every 10 m: nodes at
    0, -10, -20, -30 and -40. *)
Definition example_pile : Pile.t := Pile.mk "WTG01" 0 [40] [2] [8 # 100].

Definition example_soil : SoilProfile.t :=
  SoilProfile.mk "BH01" 0 0 [Layer.mk "Layer0" 0 (-40) 18 true false].

Definition example_created : outcome Model.t :=
  Model.create "Example" example_pile (Some example_soil) [] 10.

(** A 10 m pile in one layer of soil, one element: nodes at 0 and -10. *)
Definition short_pile : Pile.t := Pile.mk "P" 0 [10] [2] [8 # 100].

Definition short_soil : SoilProfile.t :=
  SoilProfile.mk "BH" 0 0 [Layer.mk "Layer0" 0 (-10) 18 true false].

(** The short pile with a shear load of 100 at the head and the toe held in
    both translations. *)
Definition short_loaded : outcome Model.t :=
  bind (Model.create "Short" short_pile (Some short_soil) [] 10) (fun m =>
  bind (snd (set_pointload m 0 (Some 100) None None)) (fun m =>
  snd (set_support m (-10) true true false))).

(** A stand-in for the kernel with fixed answers: the stiffness matrix is
    the identity, doubled in tangent mode so that the solver can tell the
    first solve from the later ones; the first solve answers [first] and
    every later one [later]. *)
Definition identity6 (k : Q) : Mat :=
  [ [k; 0; 0; 0; 0; 0]; [0; k; 0; 0; 0; 0]; [0; 0; k; 0; 0; 0];
    [0; 0; 0; k; 0; 0]; [0; 0; 0; 0; k; 0]; [0; 0; 0; 0; 0; k] ].

Definition scripted_kernel (first later : outcome (Vec * Vec)) : Kernel := {|
  Table := unit;
  build_stiffness_matrix := fun _ _ kind =>
    match kind with tangent => identity6 2 | _ => identity6 1 end;
  solve_equations := fun K _ _ _ =>
    match K with
    | (k :: _) :: _ => if Qeq_bool k 1 then first else later
    | _ => later
    end;
  pile_internal_forces := fun _ _ => [];
  structural_forces_to_df := fun _ _ => tt;
  springs_mob_to_df := fun _ _ => tt;
  hb_mob := fun _ _ => tt;
  mb_mob := fun _ _ => tt
|}.

(** First solve: head deflection 99, toe reaction -60. *)
Definition first_answer : outcome (Vec * Vec) :=
  Returned ([0; 99; 0; 0; 0; 0], [0; 0; 0; 0; -60; 0]).

(** Second solve: a further head deflection of 0.989, no reaction. *)
Definition second_answer : outcome (Vec * Vec) :=
  Returned ([0; 989 # 1000; 0; 0; 0; 0], [0; 0; 0; 0; 0; 0]).

(** A solve that moves nothing: the residual stays what it was. *)
Definition idle_answer : outcome (Vec * Vec) :=
  Returned ([0; 0; 0; 0; 0; 0], [0; 0; 0; 0; 0; 0]).

(** A solve that balances the head load of 100 at once: head deflection
    100, no reaction. *)
Definition balanced_answer : outcome (Vec * Vec) :=
  Returned ([0; 100; 0; 0; 0; 0], [0; 0; 0; 0; 0; 0]).

(** A 40 m pile whose head stands 5 m above the ground, in two layers of
    soil with the water table 3 m below the ground, meshed every 5 m. *)
Definition tall_pile : Pile.t := Pile.mk "WTG02" 5 [10; 30] [2; 2] [8 # 100; 8 # 100].

Definition layered_soil : SoilProfile.t :=
  SoilProfile.mk "BH02" 0 (-3)
    [ Layer.mk "Sand" 0 (-20) 18 true false;
      Layer.mk "Clay" (-20) (-40) 19 true false ].

Definition tall_created : outcome Model.t :=
  Model.create "Tall" tall_pile (Some layered_soil) [] 5.


(** * Properties *)

(** ** Comparisons *)

Lemma Qlt_bool_true (a b : Q) : Qlt_bool a b = true <-> a < b.
Proof.
  unfold Qlt_bool. rewrite negb_true_iff.
  split; intros Hab.
  - apply Qnot_le_lt. intros Hle. apply Qle_bool_iff in Hle. congruence.
  - apply not_true_is_false. intros Hle. apply Qle_bool_iff in Hle.
    apply (Qlt_not_le _ _ Hab Hle).
Qed.

Lemma Qlt_bool_false (a b : Q) : Qlt_bool a b = false <-> b <= a.
Proof.
  unfold Qlt_bool. rewrite negb_false_iff. apply Qle_bool_iff.
Qed.

Lemma Qgt_bool_true (a b : Q) : Qgt_bool a b = true <-> b < a.
Proof. apply Qlt_bool_true. Qed.

Lemma Qgt_bool_false (a b : Q) : Qgt_bool a b = false <-> a <= b.
Proof. apply Qlt_bool_false. Qed.

Lemma isclose_false (a b atol : Q) :
  isclose a b atol = false <-> atol + rtol * Qabs b < Qabs (a - b).
Proof.
  unfold isclose. split; intros Hc.
  - apply Qnot_le_lt. intros Hle. apply Qle_bool_iff in Hle. congruence.
  - apply not_true_is_false. intros Hle. apply Qle_bool_iff in Hle.
    apply (Qlt_not_le _ _ Hc Hle).
Qed.

(** ** The boundary-condition setters *)

Lemma any_map_false {A : Type} (f : A -> bool) (l : list A) :
  (forall a, In a l -> f a = false) -> any (map f l) = false.
Proof.
  unfold any. induction l as [|a l IH]; intros Hall; simpl.
  - reflexivity.
  - rewrite (Hall a (or_introl eq_refl)). simpl.
    apply IH. intros b Hb. apply Hall. right. exact Hb.
Qed.

(** No node within the tolerance of [np.isclose]: the check finds nothing. *)
Lemma node_check_unmatched (self : Model.t) (elevation : Q) :
  (forall n, In n (Model.nodes_coordinates self) ->
             (1 # 1000) + rtol * Qabs elevation < Qabs (x_m n - elevation)) ->
  any (node_check self elevation) = false.
Proof.
  intros Hfar. unfold node_check. rewrite map_map.
  apply any_map_false. intros n Hn. apply isclose_false. apply Hfar, Hn.
Qed.

Lemma report_unmatched_spec (self : Model.t) (elevation : Q)
    (outside not_meshed : message) :
  Model.nodes_coordinates self <> [] ->
  exists msg,
    report_unmatched self elevation outside not_meshed = ([msg], Returned self)
    /\ ((msg = outside /\ outside_mesh self elevation)
        \/ (msg = not_meshed /\ ~ outside_mesh self elevation)).
Proof.
  intros Hne. unfold report_unmatched, outside_mesh, iloc_first, iloc_last.
  destruct (Model.nodes_coordinates self) as [|n rest]; [congruence|].
  destruct (Qgt_bool elevation (x_m n)) eqn:Hfirst.
  - exists outside. split; [reflexivity|]. left. split; [reflexivity|].
    left. apply Qgt_bool_true. exact Hfirst.
  - destruct (Qlt_bool elevation (x_m (List.last rest n))) eqn:Hlast.
    + exists outside. split; [reflexivity|]. left. split; [reflexivity|].
      right. apply Qlt_bool_true. exact Hlast.
    + exists not_meshed. split; [reflexivity|]. right. split; [reflexivity|].
      apply Qgt_bool_false in Hfirst. apply Qlt_bool_false in Hlast.
      intros [Habove|Hbelow].
      * apply (Qlt_not_le _ _ Habove Hfirst).
      * apply (Qlt_not_le _ _ Hbelow Hlast).
Qed.

(** What a setter does when the check finds nothing. *)
Lemma apply_call_unmatched (self : Model.t) (elevation : Q) (c : bc_call) :
  any (node_check self elevation) = false ->
  apply_call self elevation c
  = try_except_raise
      (report_unmatched self elevation (outside_line c) (not_meshed_line c)).
Proof.
  intros Hany. destruct c; simpl;
    unfold set_pointload, set_pointdisplacement, set_support;
    rewrite Hany; reflexivity.
Qed.

(** What a setter does when the check finds exactly one node. *)
Lemma apply_call_matched (self : Model.t) (elevation : Q) (c : bc_call)
    (node_idx : nat) :
  any (node_check self elevation) = true ->
  np_where (node_check self elevation) = [node_idx] ->
  apply_call self elevation c
  = ([], Returned
       match c with
       | PointLoad Py Px Mz =>
           with_global_forces self
             (loc_set_if set_Mz Mz node_idx
                (loc_set_if set_Py Py node_idx
                   (loc_set_if set_Px Px node_idx (Model.global_forces self))))
       | PointDisplacement Ty Tx Rz =>
           with_global_restrained
             (with_global_disp self
                (loc_set_if set_Rz_rad Rz node_idx
                   (loc_set_if set_Ty_m Ty node_idx
                      (loc_set_if set_Tx_m Tx node_idx (Model.global_disp self)))))
             (loc_set_restrained_if set_r_Rz Rz node_idx
                (loc_set_restrained_if set_r_Ty Ty node_idx
                   (loc_set_restrained_if set_r_Tx Tx node_idx
                      (Model.global_restrained self))))
       | Support Ty Tx Rz =>
           with_global_restrained self
             (alter (set_r_Rz Rz) node_idx
                (alter (set_r_Ty Ty) node_idx
                   (alter (set_r_Tx Tx) node_idx (Model.global_restrained self))))
       end).
Proof.
  intros Hany Hidx. destruct c; simpl;
    unfold set_pointload, set_pointdisplacement, set_support;
    rewrite Hany, Hidx; reflexivity.
Qed.

(** A call that printed nothing and returned found exactly one node. *)
Lemma apply_call_silent (self m1 : Model.t) (elevation : Q) (c : bc_call) :
  apply_call self elevation c = ([], Returned m1) ->
  any (node_check self elevation) = true
  /\ exists node_idx, np_where (node_check self elevation) = [node_idx].
Proof.
  intros Hcall.
  destruct (any (node_check self elevation)) eqn:Hany.
  - split; [reflexivity|].
    destruct (np_where (node_check self elevation)) as [|i [|j rest]] eqn:Hidx.
    + destruct c; simpl in Hcall;
        unfold set_pointload, set_pointdisplacement, set_support in Hcall;
        rewrite Hany, Hidx in Hcall; discriminate.
    + exists i. reflexivity.
    + destruct c; simpl in Hcall;
        unfold set_pointload, set_pointdisplacement, set_support in Hcall;
        rewrite Hany, Hidx in Hcall; discriminate.
  - rewrite (apply_call_unmatched _ _ _ Hany) in Hcall.
    unfold report_unmatched, try_except_raise in Hcall.
    destruct (iloc_first (Model.nodes_coordinates self)); simpl in Hcall;
      try discriminate.
    destruct (Qgt_bool elevation a); simpl in Hcall; try discriminate.
    destruct (iloc_last (Model.nodes_coordinates self)); simpl in Hcall;
      try discriminate.
    destruct (Qlt_bool elevation a0); simpl in Hcall; discriminate.
Qed.

(** C7 (as amended).  A call of a boundary-condition setter whose elevation
    is farther from every mesh node than the tolerance of the check, which
    is 0.001 + 1e-5 * |elevation|, is rejected: the call returns the model
    as it was, with the force table, the prescribed-displacement table and
    the restraint mask untouched, and prints exactly one line, which says
    "outside the mesh" when the elevation is above the first node or below
    the last one and "not meshed as a node" otherwise. *)
Theorem setter_rejects_unmatched_elevation
    (self : Model.t) (elevation : Q) (c : bc_call) :
  Model.nodes_coordinates self <> [] ->
  (forall n, In n (Model.nodes_coordinates self) ->
             (1 # 1000) + rtol * Qabs elevation < Qabs (x_m n - elevation)) ->
  (outside_mesh self elevation
   /\ apply_call self elevation c = ([outside_line c], Returned self))
  \/ (~ outside_mesh self elevation
      /\ apply_call self elevation c = ([not_meshed_line c], Returned self)).
Proof.
  intros Hne Hfar.
  rewrite (apply_call_unmatched _ _ _ (node_check_unmatched _ _ Hfar)).
  destruct (report_unmatched_spec self elevation (outside_line c)
              (not_meshed_line c) Hne) as (msg & Hrep & Hmsg).
  rewrite Hrep. unfold try_except_raise. simpl.
  destruct Hmsg as [[-> Hout]|[-> Hin]]; [left|right]; split;
    first [assumption | reflexivity].
Qed.

(** The amended C7 at work: a load asked for at -35 on the example mesh,
    which has no node there, and one asked for at +1, above the pile. *)
Lemma setter_rejects_unmatched_elevation_witness :
  exists m,
    example_created = Returned m
    /\ apply_call m (-35) (PointLoad (Some 200) None None)
       = ([LoadNotMeshed], Returned m)
    /\ apply_call m 1 (Support true true false)
       = ([SupportOutsideMesh], Returned m).
Proof.
  eexists. split; [vm_compute; reflexivity|].
  match goal with
  | |- apply_call ?m _ _ = _ /\ _ =>
      assert (Hne : Model.nodes_coordinates m <> []) by discriminate;
      pose proof (setter_rejects_unmatched_elevation m (-35)
                    (PointLoad (Some 200) None None) Hne) as Hload;
      pose proof (setter_rejects_unmatched_elevation m 1
                    (Support true true false) Hne) as Hsupport
  end.
  split.
  - destruct Hload as [[Hout _]|[_ Hcall]].
    + intros n Hn. simpl in Hn.
      repeat (destruct Hn as [<-|Hn]; [vm_compute; reflexivity|]).
      destruct Hn.
    + exfalso. simpl in Hout.
      destruct Hout as [H|H]; vm_compute in H; discriminate.
    + exact Hcall.
  - destruct Hsupport as [[_ Hcall]|[Hin _]].
    + intros n Hn. simpl in Hn.
      repeat (destruct Hn as [<-|Hn]; [vm_compute; reflexivity|]).
      destruct Hn.
    + exact Hcall.
    + exfalso. apply Hin. simpl. left. vm_compute. reflexivity.
Defined.

(** C7 as stated fails: -30.0012 is farther than 1 mm from every node of
    the example mesh, yet a load declared there is applied to the node at
    -30, because the check also allows 1e-5 times the elevation. *)
Lemma setter_accepts_elevation_beyond_1mm :
  exists m m',
    example_created = Returned m
    /\ Forall (fun n => (1 # 1000) < Qabs (x_m n - (-300012 # 10000)))
         (Model.nodes_coordinates m)
    /\ apply_call m (-300012 # 10000) (PointLoad (Some 200) None None)
       = ([], Returned m')
    /\ Py_kN <$> Model.global_forces m !! 3%nat = Some 0
    /\ Py_kN <$> Model.global_forces m' !! 3%nat = Some 200.
Proof.
  eexists. eexists. split; [vm_compute; reflexivity|].
  split; [repeat constructor|].
  split; [vm_compute; reflexivity|].
  split; reflexivity.
Qed.






(** The setters leave the node table alone, so a second call at the same
    elevation finds the same node. *)
Lemma apply_call_keeps_nodes (self m1 : Model.t) (elevation : Q) (c : bc_call) :
  apply_call self elevation c = ([], Returned m1) ->
  Model.nodes_coordinates m1 = Model.nodes_coordinates self.
Proof.
  intros Hcall.
  destruct (apply_call_silent _ _ _ _ Hcall) as (Hany & i & Hidx).
  rewrite (apply_call_matched _ _ c i Hany Hidx) in Hcall.
  injection Hcall as <-. destruct c; reflexivity.
Qed.

(** [np.where] lists exactly the positions that hold [true]. *)
Lemma np_where_from_spec (check : list bool) (k i : nat) :
  In i (np_where_from k check)
  <-> (k <= i)%nat /\ check !! (i - k)%nat = Some true.
Proof.
  revert k. induction check as [|b rest IH]; intros k; simpl.
  - split; [contradiction|]. intros [_ H]. discriminate.
  - assert (Hstep : In i (np_where_from (S k) rest)
                    <-> (k < i)%nat /\ (b :: rest) !! (i - k)%nat = Some true).
    { rewrite IH. split; intros [Hk Hl]; (split; [lia|]).
      - replace (i - k)%nat with (S (i - S k)) by lia. exact Hl.
      - replace (i - k)%nat with (S (i - S k)) in Hl by lia. exact Hl. }
    destruct b; simpl.
    + rewrite Hstep. split.
      * intros [<-|[Hk Hl]].
        -- split; [lia|]. rewrite Nat.sub_diag. reflexivity.
        -- split; [lia|exact Hl].
      * intros [Hk Hl]. destruct (decide (k = i)) as [->|Hne]; [left; reflexivity|].
        right. split; [lia|exact Hl].
    + rewrite Hstep. split.
      * intros [Hk Hl]. split; [lia|exact Hl].
      * intros [Hk Hl]. split; [|exact Hl].
        destruct (decide (k = i)) as [->|Hne]; [|lia].
        rewrite Nat.sub_diag in Hl. discriminate.
Qed.

Lemma np_where_spec (check : list bool) (i : nat) :
  In i (np_where check) <-> check !! i = Some true.
Proof.
  unfold np_where. rewrite np_where_from_spec, Nat.sub_0_r.
  split; [intros [_ H]; exact H | intros H; split; [lia|exact H]].
Qed.

(** The node found by the check of a setter lies within the tolerance. *)
Lemma matched_node_is_close (self : Model.t) (elevation : Q) (node_idx : nat) :
  np_where (node_check self elevation) = [node_idx] ->
  exists n, Model.nodes_coordinates self !! node_idx = Some n
            /\ isclose (x_m n) elevation (1 # 1000) = true.
Proof.
  intros Hidx.
  assert (Hin : In node_idx (np_where (node_check self elevation)))
    by (rewrite Hidx; left; reflexivity).
  apply np_where_spec in Hin. unfold node_check in Hin.
  rewrite map_map in Hin. rewrite list_lookup_fmap in Hin.
  destruct (Model.nodes_coordinates self !! node_idx) as [n|] eqn:Hn;
    [|discriminate].
  exists n. split; [reflexivity|]. simpl in Hin. congruence.
Qed.

(** The setters keep the tables aligned with the nodes. *)
Lemma apply_call_keeps_aligned (self m1 : Model.t) (elevation : Q) (c : bc_call) :
  tables_aligned self ->
  apply_call self elevation c = ([], Returned m1) ->
  tables_aligned m1.
Proof.
  intros (Hgf & Hgd & Hgr) Hcall.
  destruct (apply_call_silent _ _ _ _ Hcall) as (Hany & i & Hidx).
  rewrite (apply_call_matched _ _ c i Hany Hidx) in Hcall.
  injection Hcall as <-.
  destruct c as [Py Px Mz|Ty Tx Rz|Ty Tx Rz]; unfold tables_aligned; simpl;
    unfold loc_set_if, loc_set_restrained_if;
    repeat match goal with |- context [match ?o with Some _ => _ | None => _ end] =>
             destruct o end;
    rewrite ?length_alter; auto.
Qed.






(** C9.  When [set_pointdisplacement] finds the node, every component that
    is given a value has that value written into the prescribed-displacement
    table, whatever its sign, and the restraint mask of that degree of
    freedom is set to whether the value is strictly positive: restrained if
    and only if the value is greater than zero, unrestrained for zero and
    for negative values. *)
Theorem pointdisplacement_restrains_iff_positive
    (self m' : Model.t) (elevation : Q) (Ty Tx Rz : option Q) :
  tables_aligned self ->
  set_pointdisplacement self elevation Ty Tx Rz = ([], Returned m') ->
  exists node_idx n rd rr,
    Model.nodes_coordinates self !! node_idx = Some n
    /\ isclose (x_m n) elevation (1 # 1000) = true
    /\ Model.global_disp m' !! node_idx = Some rd
    /\ Model.global_restrained m' !! node_idx = Some rr
    /\ (forall v, Tx = Some v -> Tx_m rd = v /\ (r_Tx rr = true <-> 0 < v))
    /\ (forall v, Ty = Some v -> Ty_m rd = v /\ (r_Ty rr = true <-> 0 < v))
    /\ (forall v, Rz = Some v -> Rz_rad rd = v /\ (r_Rz rr = true <-> 0 < v)).
Proof.
  intros (_ & Hgd & Hgr) Hcall.
  change (apply_call self elevation (PointDisplacement Ty Tx Rz)
          = ([], Returned m')) in Hcall.
  destruct (apply_call_silent _ _ _ _ Hcall) as (Hany & i & Hidx).
  rewrite (apply_call_matched _ _ _ i Hany Hidx) in Hcall.
  injection Hcall as <-.
  destruct (matched_node_is_close _ _ _ Hidx) as (n & Hn & Hclose).
  pose proof (lookup_lt_Some _ _ _ Hn) as Hlt.
  destruct (lookup_lt_is_Some_2 (Model.global_disp self) i) as [rd0 Hrd0];
    [lia|].
  destruct (lookup_lt_is_Some_2 (Model.global_restrained self) i) as [rr0 Hrr0];
    [lia|].
  exists i, n. simpl.
  destruct Tx as [tx|], Ty as [ty|], Rz as [rz|]; simpl;
    rewrite ?list_lookup_alter_eq, ?Hrd0, ?Hrr0; simpl;
    eexists; eexists;
    (split; [exact Hn|]); (split; [exact Hclose|]);
    (split; [reflexivity|]); (split; [reflexivity|]);
    repeat split; intros; simplify_eq; simpl;
    first [ reflexivity
          | apply Qgt_bool_true; assumption
          | apply Qgt_bool_true; congruence ].
Qed.

(** C9 at work: at -20 a deflection of -0.005, a settlement of 0 and a
    rotation of 0.01 are prescribed; all three are recorded and only the
    rotation ends up restrained. *)
Lemma pointdisplacement_restrains_iff_positive_witness :
  exists m m',
    example_created = Returned m
    /\ set_pointdisplacement m (-20) (Some (-5 # 1000)) (Some 0) (Some (1 # 100))
       = ([], Returned m')
    /\ exists node_idx n rd rr,
         Model.nodes_coordinates m !! node_idx = Some n
         /\ isclose (x_m n) (-20) (1 # 1000) = true
         /\ Model.global_disp m' !! node_idx = Some rd
         /\ Model.global_restrained m' !! node_idx = Some rr
         /\ (forall v, Some 0 = Some v -> Tx_m rd = v /\ (r_Tx rr = true <-> 0 < v))
         /\ (forall v, Some (-5 # 1000) = Some v ->
                       Ty_m rd = v /\ (r_Ty rr = true <-> 0 < v))
         /\ (forall v, Some (1 # 100) = Some v ->
                       Rz_rad rd = v /\ (r_Rz rr = true <-> 0 < v)).
Proof.
  eexists. eexists.
  split; [vm_compute; reflexivity|].
  split; [vm_compute; reflexivity|].
  eapply pointdisplacement_restrains_iff_positive.
  - repeat split; reflexivity.
  - vm_compute. reflexivity.
Defined.

(** ** Model construction without a soil profile *)

(** C2 (the code fails it).  Whatever the pile, the extra elevations and
    the coarseness, [Model.create] without a soil profile does not produce a
    mesh: the root validator reads [values["soil"].bottom_elevation] on
    [None] and the construction ends in an [AttributeError]. *)
Theorem create_without_soil_raises
    (name : string) (pile : Pile.t) (x2mesh : list Q) (coarseness : Q) :
  Model.create name pile None x2mesh coarseness = Raised AttributeError.
Proof. reflexivity. Qed.

(** ** The Winkler analysis *)

(** C10.  On a model whose soil profile is absent, whatever its other
    fields and whatever the kernel, [simple_winkler_analysis] prints
    nothing, raises nothing and returns [None]: no solve is attempted and
    no result object is built. *)
Theorem winkler_without_soil_returns_none `{Kernel}
    (name : string) (pile : Pile.t) (x2mesh : list Q) (coarseness : Q)
    (nodes : list node_row) (element : list element_row) (element_number : nat)
    (soil_properties : list soil_row) (forces : list force_row)
    (disp : list disp_row) (restrained : list restrained_row) (max_iter : Z) :
  simple_winkler_analysis
    (Model.mk name pile None x2mesh coarseness nodes element element_number
       soil_properties forces disp restrained)
    max_iter
  = ([], Returned None).
Proof. reflexivity. Qed.

(** Python's [sum], one term at a time. *)
Lemma fold_left_Qplus (l : list Q) (a : Q) :
  fold_left Qplus l a == a + fold_left Qplus l 0.
Proof.
  revert a. induction l as [|b l IH]; intros a; simpl.
  - ring.
  - rewrite (IH (a + b)), (IH (0 + b)). ring.
Qed.

Lemma py_sum_cons (a : Q) (l : list Q) : py_sum (a :: l) == a + py_sum l.
Proof.
  unfold py_sum. simpl. rewrite fold_left_Qplus. ring.
Qed.

(** The norm that [np.linalg.norm] computes has the sum of the squares of
    the entries as its square. *)
Lemma squares_vdot (v : Vec) : squared (np_linalg_norm v) == squares v.
Proof.
  unfold np_linalg_norm, vdot. cbn [squared].
  induction v as [|a v IH]; [reflexivity|].
  cbn [zip_with squares]. rewrite py_sum_cons, IH. reflexivity.
Qed.

(** [Rg[~supports]] keeps the entries whose flag is [False]. *)
Lemma free_squares_vdot (v : Vec) (supports : list bool) :
  squared (np_linalg_norm (free_part v supports)) == free_squares v supports.
Proof.
  rewrite squares_vdot. unfold free_part.
  revert supports. induction v as [|a v IH]; intros [|s flags];
    try reflexivity.
  cbn [zip_with free_squares]. rewrite filter_cons.
  destruct s; cbn [snd negb].
  - rewrite decide_False by (intros []). rewrite IH. ring.
  - rewrite decide_True by exact I. cbn [map fst squares]. rewrite IH.
    reflexivity.
Qed.

(** The loop, pass by pass. *)

Section loop_facts.

Context `{Kernel}.
Variable model : Model.t.
Variable max_iter : Z.

(** [n] passes that reach the bottom of the body use up [n] units of fuel
    and leave the loop in the state they end in. *)
Lemma while_loop_after_passes (n fuel : nat) (out out' : printed)
    (st st' : loop_state) :
  run_passes model max_iter n out st = Some (out', st') ->
  while_loop model max_iter (n + fuel) out st
  = while_loop model max_iter fuel out' st'.
Proof.
  revert out st. induction n as [|n IH]; intros out st Hrun; simpl in Hrun.
  - injection Hrun as <- <-. reflexivity.
  - simpl. destruct (st_iter_no st <=? max_iter)%Z; [|discriminate].
    destruct (loop_body model st) as [o s| | |]; try discriminate.
    apply IH. exact Hrun.
Qed.

(** Every pass that reaches the bottom of the body adds one to [iter_no]. *)
Lemma loop_body_continue_iter (st st' : loop_state) (o : printed) :
  loop_body model st = Continue o st' ->
  st_iter_no st' = (st_iter_no st + 1)%Z /\ st_Q st' <> None.
Proof.
  unfold loop_body.
  destruct (solve_equations _ _ _ _) as [[u_inc Q]|e|]; [|destruct e|];
    try discriminate.
  destruct (residual_test _ _ _); [destruct (0 <? st_iter_no st)%Z|];
    try discriminate; intros Hc; injection Hc as _ <-; simpl;
    (split; [reflexivity|discriminate]).
Qed.

Lemma run_passes_iter (n : nat) (out out' : printed) (st st' : loop_state) :
  run_passes model max_iter n out st = Some (out', st') ->
  st_iter_no st' = (st_iter_no st + Z.of_nat n)%Z
  /\ ((0 < n)%nat -> (st_iter_no st + Z.of_nat n - 1 <= max_iter)%Z)
  /\ ((0 < n)%nat -> st_Q st' <> None).
Proof.
  revert out st. induction n as [|n IH]; intros out st Hrun; simpl in Hrun.
  - injection Hrun as <- <-. split; [lia|]. split; [lia|]. lia.
  - destruct (st_iter_no st <=? max_iter)%Z eqn:Hguard; [|discriminate].
    apply Z.leb_le in Hguard.
    destruct (loop_body model st) as [o s| | |] eqn:Hbody; try discriminate.
    destruct (loop_body_continue_iter _ _ _ Hbody) as [Hs HQ].
    destruct (IH _ _ Hrun) as (Hiter & Hbound & HQ').
    split; [lia|]. split.
    + intros _. destruct n as [|n]; [lia|]. lia.
    + intros _. destruct n as [|n]; [|apply HQ'; lia].
      simpl in Hrun. injection Hrun as _ <-. exact HQ.
Qed.

(** The last of [S n] passes, taken apart. *)
Lemma run_passes_last (n : nat) (out out2 : printed) (st st2 : loop_state) :
  run_passes model max_iter (S n) out st = Some (out2, st2) ->
  exists out1 st1 o,
    run_passes model max_iter n out st = Some (out1, st1)
    /\ (st_iter_no st1 <= max_iter)%Z
    /\ loop_body model st1 = Continue o st2
    /\ out2 = out1 ++ o.
Proof.
  revert out st. induction n as [|n IH]; intros out st Hrun.
  - simpl in Hrun.
    destruct (st_iter_no st <=? max_iter)%Z eqn:Hguard; [|discriminate].
    destruct (loop_body model st) as [o s| | |] eqn:Hbody; try discriminate.
    injection Hrun as <- <-. exists out, st, o.
    split; [reflexivity|]. split; [apply Z.leb_le; exact Hguard|].
    split; [exact Hbody|reflexivity].
  - change (run_passes model max_iter (S (S n)) out st)
      with (if (st_iter_no st <=? max_iter)%Z then
              match loop_body model st with
              | Continue out' st' => run_passes model max_iter (S n) (out ++ out') st'
              | _ => None
              end
            else None) in Hrun.
    destruct (st_iter_no st <=? max_iter)%Z eqn:Hguard; [|discriminate].
    destruct (loop_body model st) as [o s| | |] eqn:Hbody; try discriminate.
    destruct (IH _ _ Hrun) as (out1 & st1 & o1 & Hrun1 & Hg1 & Hb1 & ->).
    exists out1, st1, o1. split; [|auto].
    simpl. rewrite Hguard, Hbody. exact Hrun1.
Qed.

End loop_facts.

Section loop_claims.

Context `{Kernel}.
Variable model : Model.t.

(** What a pass prints when it reaches the bottom of the body. *)
Lemma loop_body_continue_out (st st' : loop_state) (o : printed) :
  loop_body model st = Continue o st' ->
  o = if (st_iter_no st =? 100)%Z then [NotConvergedAfter100] else [].
Proof.
  unfold loop_body.
  destruct (solve_equations _ _ _ _) as [[u_inc Q]|e|]; [|destruct e|];
    try discriminate.
  destruct (residual_test _ _ _); [destruct (0 <? st_iter_no st)%Z|];
    try discriminate; intros Hc; injection Hc as <- _; reflexivity.
Qed.

(** The convergence test of the loop, spelled out: the sum of the squares
    of the residual over the free degrees of freedom against 1e-4 squared
    times the sum of the squares of the external force. *)
Lemma residual_test_spec (Rg F_ext : Vec) :
  residual_test model Rg (np_linalg_norm F_ext) = true
  <-> free_squares Rg (global_supports model)
      < (1 # 10000) * (1 # 10000) * squares F_ext.
Proof.
  unfold residual_test, norm_lt_scaled.
  rewrite Qlt_bool_true, free_squares_vdot, squares_vdot. reflexivity.
Qed.

(** C1 (as amended).  In a pass whose solve returns, convergence is
    declared exactly when the norm of the residual [Rg] restricted to the
    free degrees of freedom is below 1e-4 times the norm of the external
    force [F - Q] of that same pass, [Q] being the reactions that the pass
    has just solved for, and the iteration number is at least 1.  Both
    norms being square roots, the test is stated on their squares: the sum
    of the squares of the entries of [Rg] at the degrees of freedom that
    are not supported is less than 1e-4 squared times the sum of the
    squares of the entries of [F - Q].  In every other case the loop goes
    on; in particular a residual that passes the test at iteration 0 is not
    accepted. *)
Theorem convergence_declared_iff (st : loop_state) (u_inc Q : Vec) :
  solve_equations (st_K st) (st_Rg st) (st_U st) (global_supports model)
  = Returned (u_inc, Q) ->
  let F_ext := vsub (global_F model) Q in
  let d := vadd (st_d st) u_inc in
  let Rg := vadd F_ext (vneg (mdot (build_stiffness_matrix model d secant) d)) in
  (declares_convergence (loop_body model st)
   <-> free_squares Rg (global_supports model)
       < (1 # 10000) * (1 # 10000) * squares F_ext
       /\ (1 <= st_iter_no st)%Z)
  /\ (~ declares_convergence (loop_body model st)
      -> goes_on (loop_body model st)).
Proof.
  intros Hsolve F_ext d Rg. rewrite <- residual_test_spec.
  unfold loop_body. rewrite Hsolve.
  fold F_ext. fold d. fold Rg.
  destruct (residual_test model Rg (np_linalg_norm F_ext)) eqn:Htest.
  - destruct (0 <? st_iter_no st)%Z eqn:Hiter; simpl.
    + apply Z.ltb_lt in Hiter. split; [|tauto].
      split; [intros _; split; [reflexivity|lia] | trivial].
    + apply Z.ltb_ge in Hiter. split; [|trivial].
      split; [contradiction | intros [_ Hge]; lia].
  - simpl. split; [|trivial].
    split; [contradiction | intros [Hfalse _]; discriminate].
Qed.

(** C3 (as amended).  When the solve of a pass raises [LinAlgError], the
    loop stops there and then: the failure line is printed, the solve is not
    tried again and the state accumulated by the earlier passes is left as
    it is.  When at least one pass has completed before, the analysis then
    returns a result object built from the displacements accumulated so far
    and from the reactions of the last completed solve. *)
Theorem singular_system_stops_loop (max_iter : Z) (sp : SoilProfile.t)
    (n : nat) (out : printed) (st : loop_state) :
  Model.soil model = Some sp ->
  run_passes model max_iter n [] (initial_state model) = Some (out, st) ->
  (st_iter_no st <= max_iter)%Z ->
  solve_equations (st_K st) (st_Rg st) (st_U st) (global_supports model)
  = Raised LinAlgError ->
  (0 < n)%nat ->
  exists Q,
    st_Q st = Some Q
    /\ while_loop model max_iter (Z.to_nat (max_iter + 1)) [] (initial_state model)
       = Some (out ++ [CannotConverge], Returned st)
    /\ simple_winkler_analysis model max_iter
       = (out ++ [CannotConverge],
          Returned (Some (result_from model sp (st_d st) Q))).
Proof.
  intros Hsoil Hrun Hguard Hsolve Hn.
  destruct (run_passes_iter _ _ _ _ _ _ _ Hrun) as (Hiter & _ & HQ).
  simpl in Hiter.
  destruct (st_Q st) as [Q|] eqn:HstQ; [|exfalso; apply (HQ Hn); reflexivity].
  exists Q. split; [reflexivity|].
  assert (Hloop :
    while_loop model max_iter (Z.to_nat (max_iter + 1)) [] (initial_state model)
    = Some (out ++ [CannotConverge], Returned st)).
  { replace (Z.to_nat (max_iter + 1))
      with (n + S (Z.to_nat (max_iter + 1) - S n))%nat by lia.
    rewrite (while_loop_after_passes _ _ _ _ _ _ _ _ Hrun).
    simpl. apply Z.leb_le in Hguard. rewrite Hguard.
    unfold loop_body. rewrite Hsolve. reflexivity. }
  split; [exact Hloop|].
  unfold simple_winkler_analysis. rewrite Hsoil, Hloop.
  unfold final_results. rewrite HstQ. reflexivity.
Qed.

(** C4.  With the default budget of 100 the loop body runs for the
    iteration numbers 0 to 100 and no further: run of [n] passes that all
    reach the bottom of the body has [n <= 101], the first solve and at most
    100 iterations after it, and the iteration number after it is [n].  When
    all 101 passes happen, that is when the budget is used up without
    convergence and without a failure of the solver, the line "Not
    converged after 100 iterations." is the last one printed and the
    analysis returns, without raising, the result object built from the
    displacements and the reactions of the last pass. *)
Theorem iteration_budget (sp : SoilProfile.t) (n : nat) (out : printed)
    (st : loop_state) :
  Model.soil model = Some sp ->
  run_passes model 100 n [] (initial_state model) = Some (out, st) ->
  (n <= 101)%nat
  /\ st_iter_no st = Z.of_nat n
  /\ (n = 101%nat ->
      exists out0 Q,
        out = out0 ++ [NotConvergedAfter100]
        /\ st_Q st = Some Q
        /\ simple_winkler_analysis model 100
           = (out, Returned (Some (result_from model sp (st_d st) Q)))).
Proof.
  intros Hsoil Hrun.
  destruct (run_passes_iter _ _ _ _ _ _ _ Hrun) as (Hiter & Hbound & HQ).
  simpl in Hiter, Hbound.
  split; [destruct n as [|n]; lia|]. split; [lia|].
  intros ->.
  destruct (run_passes_last _ _ _ _ _ _ _ Hrun)
    as (out1 & st1 & o & Hrun1 & _ & Hbody & ->).
  destruct (run_passes_iter _ _ _ _ _ _ _ Hrun1) as (Hiter1 & _ & _).
  simpl in Hiter1.
  rewrite (loop_body_continue_out _ _ _ Hbody), Hiter1. simpl.
  destruct (st_Q st) as [Q|] eqn:HstQ; [|exfalso; apply HQ; [lia|reflexivity]].
  exists out1, Q. split; [reflexivity|]. split; [reflexivity|].
  unfold simple_winkler_analysis. rewrite Hsoil.
  change (Z.to_nat (100 + 1)) with (101 + 0)%nat.
  rewrite (while_loop_after_passes _ _ _ _ _ _ _ _ Hrun).
  simpl. rewrite Hiter. simpl.
  rewrite (loop_body_continue_out _ _ _ Hbody), Hiter1. simpl.
  unfold final_results. rewrite HstQ. reflexivity.
Qed.

End loop_claims.

(** The amended C1 at work on the loaded short pile, with a kernel whose
    first solve balances the load at once and whose later solves move
    nothing.  The residual of the first pass is zero and passes the test,
    but the iteration number is 0: convergence is not declared and the loop
    goes on.  The second pass finds the same residual at iteration 1 and
    declares convergence. *)
Lemma convergence_declared_iff_witness :
  exists m st1,
    let K := scripted_kernel balanced_answer idle_answer in
    short_loaded = Returned m
    /\ loop_body m (initial_state m) = Continue [] st1
    /\ st_iter_no (initial_state m) = 0%Z
    /\ free_squares (st_Rg st1) (global_supports m)
       < (1 # 10000) * (1 # 10000)
         * squares (vsub (global_F m) [0; 0; 0; 0; 0; 0])
    /\ ~ declares_convergence (loop_body m (initial_state m))
    /\ goes_on (loop_body m (initial_state m))
    /\ st_iter_no st1 = 1%Z
    /\ declares_convergence (loop_body m st1).
Proof.
  eexists. eexists. intros K.
  split; [vm_compute; reflexivity|].
  split; [vm_compute; reflexivity|].
  split; [reflexivity|].
  split; [vm_compute; reflexivity|].
  match goal with
  | |- ~ declares_convergence (loop_body ?m (initial_state ?m)) /\ _
       /\ _ /\ declares_convergence (loop_body ?m ?st1) =>
      destruct (convergence_declared_iff (H := K) m (initial_state m)
                  [0; 100; 0; 0; 0; 0] [0; 0; 0; 0; 0; 0])
        as [Hiff0 Hgo0]; [vm_compute; reflexivity|];
      destruct (convergence_declared_iff (H := K) m st1
                  [0; 0; 0; 0; 0; 0] [0; 0; 0; 0; 0; 0])
        as [Hiff1 _]; [vm_compute; reflexivity|]
  end.
  split.
  { intros Hd. apply Hiff0 in Hd. destruct Hd as [_ Hge].
    vm_compute in Hge. apply Hge. reflexivity. }
  split.
  { apply Hgo0. intros Hd. apply Hiff0 in Hd. destruct Hd as [_ Hge].
    vm_compute in Hge. apply Hge. reflexivity. }
  split; [reflexivity|].
  apply Hiff1. split; [vm_compute; reflexivity | vm_compute; discriminate].
Defined.

(** C1 as stated fails.  On the loaded short pile with the scripted kernel,
    the external force of the first pass has squared norm 13600 and that of
    the second pass 10000; the residual of the second pass, of squared norm
    0.000121, is below 1e-4 times the first norm and the iteration number
    is 1, yet convergence is not declared: the code compares with the norm
    of the second pass. *)
Lemma convergence_not_measured_against_first_iteration :
  exists m st1 st2,
    let K := scripted_kernel first_answer second_answer in
    short_loaded = Returned m
    /\ loop_body m (initial_state m) = Continue [] st1
    /\ st_iter_no st1 = 1%Z
    /\ loop_body m st1 = Continue [] st2
    /\ norm_lt_scaled
         (np_linalg_norm (free_part (st_Rg st2) (global_supports m)))
         (1 # 10000)
         (np_linalg_norm (vsub (global_F m) [0; 0; 0; 0; -60; 0]))
       = true
    /\ ~ declares_convergence (loop_body m st1).
Proof.
  eexists. eexists. eexists. intros K.
  split; [vm_compute; reflexivity|].
  split; [vm_compute; reflexivity|].
  split; [reflexivity|].
  split; [vm_compute; reflexivity|].
  split; [vm_compute; reflexivity|].
  vm_compute. tauto.
Qed.

(** The amended C3 at work: the scripted kernel answers the first solve
    and fails the second. *)
Lemma singular_system_stops_loop_witness :
  exists m out st,
    let K := scripted_kernel first_answer (Raised LinAlgError) in
    short_loaded = Returned m
    /\ run_passes m 100 1 [] (initial_state m) = Some (out, st)
    /\ exists Q,
         st_Q st = Some Q
         /\ while_loop m 100 (Z.to_nat (100 + 1)) [] (initial_state m)
            = Some (out ++ [CannotConverge], Returned st)
         /\ simple_winkler_analysis m 100
            = (out ++ [CannotConverge],
               Returned (Some (result_from m short_soil (st_d st) Q))).
Proof.
  eexists. eexists. eexists. intros K.
  split; [vm_compute; reflexivity|].
  split; [vm_compute; reflexivity|].
  apply (singular_system_stops_loop (H := K) _ 100 short_soil 1).
  - reflexivity.
  - vm_compute. reflexivity.
  - vm_compute. discriminate.
  - reflexivity.
  - lia.
Defined.

(** C3 as stated fails.  The scripted kernel fails the second solve; the
    analysis does not end in a failure: it returns a result object, whose
    displacement table holds the head deflection of 99 accumulated by the
    first pass. *)
Lemma singular_system_still_returns_result :
  exists m r,
    let K := scripted_kernel first_answer (Raised LinAlgError) in
    short_loaded = Returned m
    /\ simple_winkler_analysis m 100 = ([CannotConverge], Returned (Some r))
    /\ _d r = disp_to_df m (vadd [0; 0; 0; 0; 0; 0] [0; 99; 0; 0; 0; 0])
    /\ _Q r = reaction_forces_to_df m [0; 0; 0; 0; -60; 0].
Proof.
  eexists. eexists. intros K.
  split; [vm_compute; reflexivity|].
  split; [vm_compute; reflexivity|].
  split; vm_compute; reflexivity.
Qed.

(** C4 at work: with a kernel whose solves move nothing the residual
    never shrinks, all 101 passes happen and the analysis still returns. *)
Lemma iteration_budget_witness :
  exists m out st,
    let K := scripted_kernel idle_answer idle_answer in
    short_loaded = Returned m
    /\ run_passes m 100 101 [] (initial_state m) = Some (out, st)
    /\ (101 <= 101)%nat
    /\ st_iter_no st = Z.of_nat 101
    /\ (101%nat = 101%nat ->
        exists out0 Q,
          out = out0 ++ [NotConvergedAfter100]
          /\ st_Q st = Some Q
          /\ simple_winkler_analysis m 100
             = (out, Returned (Some (result_from m short_soil (st_d st) Q)))).
Proof.
  eexists. eexists. eexists. intros K.
  split; [vm_compute; reflexivity|].
  split; [vm_compute; reflexivity|].
  apply (iteration_budget (H := K) _ short_soil 101).
  - reflexivity.
  - vm_compute. reflexivity.
Defined.

(** ** The mesh *)

(** [np.unique]: sorted, without repetition, with the same values. *)

Lemma insert_unique_In (a : Q) (l : list Q) (z : Q) :
  In z (insert_unique a l) -> z = a \/ In z l.
Proof.
  induction l as [|b rest IH]; simpl.
  - intros [<-|[]]. left. reflexivity.
  - destruct (a ?= b); simpl.
    + tauto.
    + intros [<-|Hz]; [left; reflexivity|right; exact Hz].
    + intros [<-|Hz]; [right; left; reflexivity|].
      destruct (IH Hz) as [->|Hin]; [left; reflexivity|right; right; exact Hin].
Qed.

Lemma insert_unique_keeps (a : Q) (l : list Q) (z : Q) :
  In z l -> In z (insert_unique a l).
Proof.
  induction l as [|b rest IH]; simpl; [contradiction|].
  destruct (a ?= b); simpl.
  - tauto.
  - tauto.
  - intros [<-|Hz]; [left; reflexivity|right; apply IH, Hz].
Qed.

Lemma insert_unique_has (a : Q) (l : list Q) : InQ a (insert_unique a l).
Proof.
  induction l as [|b rest IH]; simpl.
  - exists a. split; [left; reflexivity|reflexivity].
  - destruct (Qcompare_spec a b) as [Heq|Hlt|Hgt].
    + exists b. split; [left; reflexivity|symmetry; exact Heq].
    + exists a. split; [left; reflexivity|reflexivity].
    + destruct IH as (z & Hz & Hza). exists z. split; [right; exact Hz|exact Hza].
Qed.

Lemma insert_unique_sorted (a : Q) (l : list Q) :
  StronglySorted Qlt l -> StronglySorted Qlt (insert_unique a l).
Proof.
  induction l as [|b rest IH]; intros Hs; simpl.
  - constructor; constructor.
  - apply StronglySorted_inv in Hs. destruct Hs as [Hrest Hb].
    destruct (Qcompare_spec a b) as [Heq|Hlt|Hgt].
    + constructor; assumption.
    + constructor; [constructor; assumption|].
      constructor; [exact Hlt|].
      rewrite List.Forall_forall in Hb |- *. intros z Hz.
      apply Qlt_trans with b; [exact Hlt|apply Hb, Hz].
    + constructor; [apply IH, Hrest|].
      rewrite List.Forall_forall in Hb |- *. intros z Hz.
      destruct (insert_unique_In _ _ _ Hz) as [->|Hin];
        [exact Hgt|apply Hb, Hin].
Qed.

Lemma np_unique_In (l : list Q) (z : Q) : In z (np_unique l) -> In z l.
Proof.
  induction l as [|a l IH]; simpl; [tauto|].
  intros Hz. destruct (insert_unique_In _ _ _ Hz) as [->|Hin];
    [left; reflexivity|right; apply IH, Hin].
Qed.

Lemma np_unique_has (l : list Q) (z : Q) : In z l -> InQ z (np_unique l).
Proof.
  induction l as [|a l IH]; simpl; [contradiction|].
  intros [<-|Hz].
  - apply insert_unique_has.
  - destruct (IH Hz) as (z' & Hz' & Heq). exists z'.
    split; [apply insert_unique_keeps, Hz'|exact Heq].
Qed.

Lemma np_unique_sorted (l : list Q) : StronglySorted Qlt (np_unique l).
Proof.
  induction l as [|a l IH]; simpl; [constructor|].
  apply insert_unique_sorted, IH.
Qed.

Lemma StronglySorted_snoc {A : Type} (R : A -> A -> Prop) (l : list A) (a : A) :
  StronglySorted R l -> Forall (fun b => R b a) l -> StronglySorted R (l ++ [a]).
Proof.
  induction l as [|b l IH]; intros Hs Hall; simpl.
  - constructor; constructor.
  - apply StronglySorted_inv in Hs. destruct Hs as [Hl Hb].
    apply List.Forall_cons_iff in Hall. destruct Hall as [Hba Hall].
    constructor; [apply IH; assumption|].
    apply List.Forall_app. split; [exact Hb|constructor; [exact Hba|constructor]].
Qed.

(** [np.unique(x)[::-1]] is strictly descending. *)
Lemma rev_np_unique_descending (l : list Q) : descending (rev (np_unique l)).
Proof.
  unfold descending. generalize (np_unique_sorted l).
  induction (np_unique l) as [|a u IH]; intros Hs; simpl; [constructor|].
  apply StronglySorted_inv in Hs. destruct Hs as [Hu Ha].
  apply StronglySorted_snoc; [apply IH, Hu|].
  rewrite List.Forall_forall in Ha |- *. intros z Hz.
  apply Ha. apply in_rev. exact Hz.
Qed.

Lemma rev_np_unique_In (l : list Q) (z : Q) : In z (rev (np_unique l)) -> In z l.
Proof. intros Hz. apply np_unique_In, in_rev, Hz. Qed.

Lemma rev_np_unique_has (l : list Q) (z : Q) :
  In z l -> InQ z (rev (np_unique l)).
Proof.
  intros Hz. destruct (np_unique_has _ _ Hz) as (z' & Hz' & Heq).
  exists z'. split; [apply in_rev; rewrite rev_involutive; exact Hz'|exact Heq].
Qed.

(** The inner [while]: it stops at the first divider that brings the
    spacing down to the coarseness, which is the ceiling of their ratio. *)

Lemma Qdiv_le_iff (spacing c d : Q) :
  0 < c -> 0 < d -> (spacing / d <= c <-> spacing / c <= d).
Proof.
  intros Hc Hd. split; intros Hle.
  - apply Qle_shift_div_r; [exact Hc|].
    apply Qle_trans with (spacing / d * d).
    + assert (Heq : spacing / d * d == spacing) by (field; lra). lra.
    + assert (H0 : spacing / d * d <= c * d)
        by (apply Qmult_le_compat_r; lra).
      lra.
  - apply Qle_shift_div_r; [exact Hd|].
    apply Qle_trans with (spacing / c * c).
    + assert (Heq : spacing / c * c == spacing) by (field; lra). lra.
    + assert (H0 : spacing / c * c <= d * c)
        by (apply Qmult_le_compat_r; lra).
      lra.
Qed.

Lemma refine_spacing_steps (spacing c : Q) (fuel : nat) (d : Z) (ns : Q) :
  0 < c ->
  let n := Qceiling (spacing / c) in
  (1 <= d <= n)%Z ->
  ns == spacing / inject_Z d ->
  (Z.to_nat (n - d) < fuel)%nat ->
  exists s, refine_spacing fuel spacing c d ns = Some (n, s)
            /\ s == spacing / inject_Z n.
Proof.
  intros Hc n. revert d ns.
  induction fuel as [|fuel IH]; intros d ns Hd Hns Hfuel; [lia|].
  simpl.
  assert (Hdpos : 0 < inject_Z d).
  { change 0 with (inject_Z 0). rewrite <- Zlt_Qlt. lia. }
  destruct (Qgt_bool ns c) eqn:Htest.
  - apply Qgt_bool_true in Htest.
    assert (Hdn : (d < n)%Z).
    { destruct (Z.eq_dec d n) as [->|Hne]; [|lia].
      exfalso. apply (Qlt_not_le _ _ Htest). rewrite Hns.
      apply (proj2 (Qdiv_le_iff spacing c (inject_Z n) Hc Hdpos)).
      apply Qle_ceiling. }
    apply IH; [lia|reflexivity|lia].
  - apply Qgt_bool_false in Htest.
    assert (Hdn : (n <= d)%Z).
    { rewrite Hns in Htest.
      apply (proj1 (Qdiv_le_iff spacing c (inject_Z d) Hc Hdpos)) in Htest.
      apply Qceiling_resp_le in Htest. rewrite Qceiling_Z in Htest. exact Htest. }
    assert (d = n) as -> by lia.
    exists ns. split; [reflexivity|exact Hns].
Qed.

Lemma Qceiling_pos (q : Q) : 0 < q -> (1 <= Qceiling q)%Z.
Proof.
  intros Hq. pose proof (Qle_ceiling q) as Hle.
  assert (H0 : inject_Z 0 < inject_Z (Qceiling q))
    by (apply Qlt_le_trans with q; [exact Hq|exact Hle]).
  rewrite <- Zlt_Qlt in H0. lia.
Qed.

Lemma refine_spacing_spec (spacing c : Q) :
  0 < c -> 0 < spacing ->
  exists s,
    refine_spacing (refine_fuel spacing c) spacing c 1 spacing
    = Some (Qceiling (spacing / c), s)
    /\ s == spacing / inject_Z (Qceiling (spacing / c)).
Proof.
  intros Hc Hs.
  assert (Hpos : 0 < spacing / c) by (apply Qlt_shift_div_l; lra).
  pose proof (Qceiling_pos _ Hpos) as Hn.
  apply refine_spacing_steps.
  - exact Hc.
  - lia.
  - field.
  - unfold refine_fuel. lia.
Qed.

Lemma np_arange_from_1_In (stop k : Z) :
  In k (np_arange_from_1 stop) <-> (1 <= k < stop)%Z.
Proof.
  unfold np_arange_from_1. rewrite in_map_iff. split.
  - intros (i & <- & Hi). apply in_seq in Hi. lia.
  - intros Hk. exists (Z.to_nat k). split; [lia|]. apply in_seq. lia.
Qed.

(** The new nodes of one span: [divider - 1] of them, at equal distance
    [spacing / divider], where [divider] is the ceiling of
    [spacing / coarseness]. *)
Lemma new_x_spec (c a b : Q) :
  0 < c -> b < a ->
  exists s,
    new_x c a b
    = Some (map (fun k => a - inject_Z k * s)
              (np_arange_from_1 (Qceiling ((a - b) / c))))
    /\ s == (a - b) / inject_Z (Qceiling ((a - b) / c))
    /\ 0 < s <= c.
Proof.
  intros Hc Hab. unfold new_x.
  assert (Hs : 0 < a - b) by lra.
  destruct (refine_spacing_spec (a - b) c Hc Hs) as (s & -> & Heq).
  exists s. split; [reflexivity|]. split; [exact Heq|].
  assert (Hpos : 0 < (a - b) / c) by (apply Qlt_shift_div_l; lra).
  pose proof (Qceiling_pos _ Hpos) as Hn.
  assert (Hnpos : 0 < inject_Z (Qceiling ((a - b) / c))).
  { change 0 with (inject_Z 0). rewrite <- Zlt_Qlt. lia. }
  rewrite Heq. split.
  - apply Qlt_shift_div_l; lra.
  - apply (proj2 (Qdiv_le_iff (a - b) c _ Hc Hnpos)). apply Qle_ceiling.
Qed.

(** Consecutive pairs of a descending list. *)

Lemma descending_inv (a : Q) (x : list Q) :
  descending (a :: x) -> descending x /\ forall r, In r x -> r < a.
Proof.
  intros Hd. apply StronglySorted_inv in Hd. destruct Hd as [Hx Ha].
  split; [exact Hx|]. apply List.Forall_forall. exact Ha.
Qed.

Lemma consecutive_cons (p q : Q) (rest : list Q) :
  consecutive (p :: q :: rest) = (p, q) :: consecutive (q :: rest).
Proof. reflexivity. Qed.

Lemma consecutive_In (x : list Q) (a b : Q) :
  In (a, b) (consecutive x) -> In a x /\ In b x.
Proof.
  induction x as [|p x IH]; [contradiction|].
  destruct x as [|q rest]; [contradiction|].
  rewrite consecutive_cons. intros [Heq|Hin].
  - injection Heq as <- <-. split; [left|right; left]; reflexivity.
  - destruct (IH Hin) as [Ha Hb]. split; right; assumption.
Qed.

Lemma consecutive_lt (x : list Q) (a b : Q) :
  descending x -> In (a, b) (consecutive x) -> b < a.
Proof.
  induction x as [|p x IH]; [contradiction|].
  destruct x as [|q rest]; [contradiction|].
  rewrite consecutive_cons. intros Hd [Heq|Hin].
  - injection Heq as <- <-. apply descending_inv in Hd.
    apply (proj2 Hd). left. reflexivity.
  - apply IH; [apply descending_inv in Hd; apply Hd|exact Hin].
Qed.

(** The points that cut a span. *)

Section span.

Variables c a b : Q.
Hypothesis Hc : 0 < c.
Hypothesis Hab : b < a.

Let n : Z := Qceiling ((a - b) / c).

Lemma span_divider_pos : (1 <= n)%Z.
Proof.
  apply Qceiling_pos. apply Qlt_shift_div_l; lra.
Qed.

Lemma span_divider_Qpos : 0 < inject_Z n.
Proof.
  change 0 with (inject_Z 0). rewrite <- Zlt_Qlt.
  pose proof span_divider_pos. lia.
Qed.

Lemma span_step_bounds : 0 < (a - b) / inject_Z n <= c.
Proof.
  pose proof span_divider_Qpos as Hn. split.
  - apply Qlt_shift_div_l; lra.
  - apply (proj2 (Qdiv_le_iff (a - b) c _ Hc Hn)). apply Qle_ceiling.
Qed.

Lemma subdivision_point_first : subdivision_point c a b 0 == a.
Proof. unfold subdivision_point. change (inject_Z 0) with 0. ring. Qed.

Lemma subdivision_point_last : subdivision_point c a b n == b.
Proof.
  unfold subdivision_point. fold n. pose proof span_divider_Qpos as Hn.
  field. lra.
Qed.

Lemma subdivision_point_next (k : Z) :
  subdivision_point c a b k - subdivision_point c a b (k + 1)
  == (a - b) / inject_Z n.
Proof.
  unfold subdivision_point. fold n. rewrite inject_Z_plus.
  pose proof span_divider_Qpos as Hn. change (inject_Z 1) with 1.
  field. lra.
Qed.

Lemma subdivision_point_mono (j k : Z) :
  (j <= k)%Z -> subdivision_point c a b k <= subdivision_point c a b j.
Proof.
  intros Hjk. unfold subdivision_point. fold n.
  pose proof span_step_bounds as [Hs _].
  assert (Hq : inject_Z j <= inject_Z k) by (rewrite <- Zle_Qle; exact Hjk).
  assert (Hm : inject_Z j * ((a - b) / inject_Z n)
               <= inject_Z k * ((a - b) / inject_Z n))
    by (apply Qmult_le_compat_r; lra).
  lra.
Qed.

Lemma subdivision_point_strict (j k : Z) :
  (j < k)%Z -> subdivision_point c a b k < subdivision_point c a b j.
Proof.
  intros Hjk.
  pose proof (subdivision_point_mono (j + 1) k ltac:(lia)) as Hle.
  pose proof (subdivision_point_next j) as Hnext.
  pose proof span_step_bounds as [Hs _].
  lra.
Qed.

Lemma subdivision_point_inside (k : Z) :
  (1 <= k < n)%Z ->
  b < subdivision_point c a b k /\ subdivision_point c a b k < a.
Proof.
  intros Hk.
  pose proof (subdivision_point_strict k n ltac:(lia)) as Hlow.
  pose proof (subdivision_point_strict 0 k ltac:(lia)) as Hhigh.
  rewrite subdivision_point_last in Hlow.
  rewrite subdivision_point_first in Hhigh.
  split; assumption.
Qed.

End span.

(** The secondary discretisation: it terminates, and its nodes are the
    interior cutting points of the spans between consecutive anchors. *)

Lemma x_secondary_cons (c p q : Q) (rest : list Q) :
  x_secondary c (p :: q :: rest)
  = match new_x c p q, x_secondary c (q :: rest) with
    | Some here, Some below => Some (here ++ below)
    | _, _ => None
    end.
Proof. reflexivity. Qed.

Lemma x_secondary_spec (c : Q) (x : list Q) :
  0 < c -> descending x ->
  exists sec,
    x_secondary c x = Some sec
    /\ (forall y, In y sec ->
          exists a b k,
            In (a, b) (consecutive x)
            /\ (1 <= k < Qceiling ((a - b) / c))%Z
            /\ y == subdivision_point c a b k)
    /\ (forall a b k,
          In (a, b) (consecutive x) ->
          (1 <= k < Qceiling ((a - b) / c))%Z ->
          InQ (subdivision_point c a b k) sec).
Proof.
  intros Hc. induction x as [|p x IH]; intros Hd.
  - exists []. split; [reflexivity|]. split; intros; contradiction.
  - destruct x as [|q rest].
    + exists []. split; [reflexivity|]. split; intros; contradiction.
    + pose proof (descending_inv _ _ Hd) as [Hd' Hp].
      assert (Hqp : q < p) by (apply Hp; left; reflexivity).
      destruct (IH Hd') as (below & Hbelow & Hfrom & Hto).
      destruct (new_x_spec c p q Hc Hqp) as (s & Hhere & Hs & _).
      rewrite x_secondary_cons, Hhere, Hbelow.
      eexists. split; [reflexivity|].
      assert (Hpoint : forall k,
                 p - inject_Z k * s == subdivision_point c p q k).
      { intros k. unfold subdivision_point. rewrite Hs. reflexivity. }
      split.
      * intros y Hy. apply in_app_or in Hy. destruct Hy as [Hy|Hy].
        -- apply in_map_iff in Hy. destruct Hy as (k & <- & Hk).
           apply np_arange_from_1_In in Hk.
           exists p, q, k. rewrite consecutive_cons.
           split; [left; reflexivity|]. split; [exact Hk|apply Hpoint].
        -- destruct (Hfrom y Hy) as (a & b & k & Hin & Hk & Heq).
           exists a, b, k. rewrite consecutive_cons.
           split; [right; exact Hin|]. split; assumption.
      * intros a b k Hin Hk. rewrite consecutive_cons in Hin.
        destruct Hin as [Heq|Hin].
        -- injection Heq as <- <-.
           exists (p - inject_Z k * s). split; [|apply Hpoint].
           apply in_or_app. left. apply in_map_iff.
           exists k. split; [reflexivity|].
           apply np_arange_from_1_In. exact Hk.
        -- destruct (Hto a b k Hin Hk) as (z & Hz & Heq).
           exists z. split; [apply in_or_app; right; exact Hz|exact Heq].
Qed.

(** The node elevations before rounding. *)

Lemma mesh_x_inv (c : Q) (anchors x : list Q) :
  Model.mesh_x c anchors = Some x ->
  exists sec, x_secondary c anchors = Some sec
              /\ x = rev (np_unique (anchors ++ sec)).
Proof.
  unfold Model.mesh_x. destruct (x_secondary c anchors) as [sec|];
    [|discriminate].
  intros Heq. injection Heq as <-. exists sec. split; reflexivity.
Qed.

Lemma mesh_x_descending (c : Q) (anchors x : list Q) :
  Model.mesh_x c anchors = Some x -> descending x.
Proof.
  intros Hx. destruct (mesh_x_inv _ _ _ Hx) as (sec & _ & ->).
  apply rev_np_unique_descending.
Qed.

(** With a positive coarseness the meshing terminates. *)
Lemma mesh_x_total (c : Q) (anchors : list Q) :
  0 < c -> descending anchors -> exists x, Model.mesh_x c anchors = Some x.
Proof.
  intros Hc Hd. unfold Model.mesh_x.
  destruct (x_secondary_spec c anchors Hc Hd) as (sec & -> & _).
  eexists. reflexivity.
Qed.

(** What [Model.create] returns, taken apart. *)
Lemma create_inv (name : string) (pile : Pile.t) (soil : option SoilProfile.t)
    (x2mesh : list Q) (c : Q) (m : Model.t) :
  Model.create name pile soil x2mesh c = Returned m ->
  exists sp x,
    soil = Some sp
    /\ Model.mesh_x c (Model.primary_x pile soil x2mesh) = Some x
    /\ Model.nodes_coordinates m
       = map (fun xi => mk_node (round3 xi) (round3 0)) x
    /\ Model.element_coordinates m
       = map (fun ab => mk_element (round3 (fst ab)) (round3 (snd ab))
                          (round3 0) (round3 0))
           (consecutive x)
    /\ Model.make_soil_properties (Model.element_coordinates m) soil
       = Returned (Model.soil_properties m)
    /\ Model.soil m = soil.
Proof.
  unfold Model.create, Model.soil_and_pile_bottom_elevation_match.
  destruct soil as [sp|]; [|discriminate].
  destruct (Qlt_bool _ _); [discriminate|]. unfold bind at 1.
  unfold Model.get_coordinates.
  destruct (Model.mesh_x c _) as [x|]; [|discriminate]. unfold bind at 1.
  cbn [fst snd].
  match goal with
  | |- context [Model.make_soil_properties ?e ?s] =>
      destruct (Model.make_soil_properties e s) as [rows| |] eqn:Hrows
  end; try discriminate.
  unfold bind. intros Heq. injection Heq as <-. cbn.
  exists sp, x. repeat split; try reflexivity. exact Hrows.
Qed.

(** ** The mesh in binary64 *)

(** The inner [while] gives the same result with any larger fuel. *)
Lemma refine_spacing_more_fuel (fuel fuel' : nat)
    (spacing coarseness : PrimFloat.float) (divider : Z)
    (new_spacing : PrimFloat.float) (r : Z * PrimFloat.float) :
  Float64.refine_spacing fuel spacing coarseness divider new_spacing = Some r ->
  (fuel <= fuel')%nat ->
  Float64.refine_spacing fuel' spacing coarseness divider new_spacing = Some r.
Proof.
  revert fuel' divider new_spacing.
  induction fuel as [|fuel IH]; intros fuel' divider new_spacing Hr Hle;
    [discriminate|].
  destruct fuel' as [|fuel']; [lia|]. simpl in Hr |- *.
  destruct (PrimFloat.ltb coarseness new_spacing); [|exact Hr].
  apply IH; [exact Hr|lia].
Qed.

(** C5.  [get_coordinates] lets an element of the mesh be longer than the
    coarseness.  A 10 m pile in one layer of soil with a coarseness of
    3.3334 has one span between two anchors, from 0 down to -10.  The loop
    cuts it in three, 10 / 3 = 3.3333333333333335 being no more than
    3.3334, and the nodes computed are 0, -3.3333333333333335,
    -6.666666666666667 and -10.  The tables are then rounded to three
    decimals: the nodes become 0, -3.333, -6.667 and -10, and element 1 of
    the element table, which runs from -3.333 down to -6.667 and has no
    anchor at either end, is 3.334 long, longer than the coarseness. *)
Theorem mesh_element_exceeds_coarseness :
  exists nodes element e len c,
    Float64.primary_x Float64.short_mesh
    = [Float64.of_int 0; Float64.of_int (-10)]
    /\ Float64.mesh_x (Float64.coarseness Float64.short_mesh)
         (Float64.primary_x Float64.short_mesh)
       = Some Float64.short_x
    /\ Float64.get_coordinates Float64.short_mesh = Returned (nodes, element)
    /\ map Float64.x_m nodes = Float64.short_nodes
    /\ map (fun e => (Float64.x_top e, Float64.x_bottom e)) element
       = Float64.consecutive Float64.short_nodes
    /\ element !! 1%nat = Some e
    /\ Float64.element_length e = Some len
    /\ Float64.to_Q (Float64.coarseness Float64.short_mesh) = Some c
    /\ c < len
    /\ Qabs (len - (3334 # 1000)) < 1 # 1000000000000.
Proof.
  eexists. eexists. eexists. eexists. eexists.
  split; [vm_compute; reflexivity|].
  split; [vm_compute; reflexivity|].
  split; [vm_compute; reflexivity|].
  split; [vm_compute; reflexivity|].
  split; [vm_compute; reflexivity|].
  split; [vm_compute; reflexivity|].
  split; [vm_compute; reflexivity|].
  split; [vm_compute; reflexivity|].
  split; vm_compute; reflexivity.
Qed.

(** The number of subspans is decided by the rounded quotient: a span of
    2.1 with a coarseness of 0.7 is cut in four and not in three, 2.1 / 3
    being 0.7000000000000001 in binary64. *)
Example rounded_quotient_adds_a_subspan :
  exists nodes element,
    Float64.get_coordinates Float64.stub_mesh = Returned (nodes, element)
    /\ map Float64.x_m nodes = Float64.stub_nodes
    /\ List.length element = 4%nat.
Proof.
  eexists. eexists.
  split; [vm_compute; reflexivity|].
  split; vm_compute; reflexivity.
Qed.

(** ** Soil properties *)

(** [sort_values]: sorted, with the same rows; a table already in the
    opposite order is reversed. *)

Lemma insert_by_In {A : Type} (key : A -> Q) (a z : A) (l : list A) :
  In z (insert_by key a l) <-> z = a \/ In z l.
Proof.
  induction l as [|b rest IH]; simpl.
  - split; [intros [<-|[]]; left; reflexivity | intros [->|[]]; left; reflexivity].
  - destruct (Qle_bool (key b) (key a)); simpl; rewrite ?IH; split; intros Hz;
      intuition (subst; auto).
Qed.

Lemma sort_values_In {A : Type} (key : A -> Q) (z : A) (l : list A) :
  In z (sort_values key l) <-> In z l.
Proof.
  induction l as [|a l IH]; simpl; [tauto|].
  rewrite insert_by_In, IH. split; intros [H|H]; subst; auto.
Qed.

Lemma insert_by_ascends {A : Type} (key : A -> Q) (a : A) (l : list A) :
  key_ascends key l -> key_ascends key (insert_by key a l).
Proof.
  unfold key_ascends. induction l as [|b rest IH]; intros Hs; simpl.
  - constructor; constructor.
  - apply StronglySorted_inv in Hs. destruct Hs as [Hrest Hb].
    destruct (Qle_bool (key b) (key a)) eqn:Hle.
    + apply Qle_bool_iff in Hle.
      constructor; [apply IH, Hrest|].
      rewrite List.Forall_forall in Hb |- *. intros z Hz.
      apply insert_by_In in Hz. destruct Hz as [->|Hz];
        [exact Hle|apply Hb, Hz].
    + assert (Hlt : key a < key b).
      { apply Qnot_le_lt. intros H. apply Qle_bool_iff in H. congruence. }
      constructor; [constructor; assumption|].
      constructor; [lra|].
      rewrite List.Forall_forall in Hb |- *. intros z Hz.
      pose proof (Hb z Hz). lra.
Qed.

Lemma sort_values_ascends {A : Type} (key : A -> Q) (l : list A) :
  key_ascends key (sort_values key l).
Proof.
  induction l as [|a l IH]; simpl; [constructor|].
  apply insert_by_ascends, IH.
Qed.

Lemma insert_by_last {A : Type} (key : A -> Q) (a : A) (l : list A) :
  (forall b, In b l -> key b <= key a) -> insert_by key a l = l ++ [a].
Proof.
  induction l as [|b rest IH]; intros Hall; simpl; [reflexivity|].
  assert (Hle : Qle_bool (key b) (key a) = true)
    by (apply Qle_bool_iff, Hall; left; reflexivity).
  rewrite Hle. f_equal. apply IH. intros z Hz. apply Hall. right. exact Hz.
Qed.

Lemma sort_values_reverses {A : Type} (key : A -> Q) (l : list A) :
  key_descends key l -> sort_values key l = rev l.
Proof.
  unfold key_descends. induction l as [|a l IH]; intros Hs; simpl; [reflexivity|].
  apply StronglySorted_inv in Hs. destruct Hs as [Hl Ha].
  rewrite (IH Hl). apply insert_by_last.
  intros b Hb. apply in_rev in Hb.
  rewrite List.Forall_forall in Ha. apply Ha, Hb.
Qed.

Lemma key_descends_rev {A : Type} (key : A -> Q) (l : list A) :
  key_descends key l -> key_ascends key (rev l).
Proof.
  unfold key_descends, key_ascends.
  induction l as [|a l IH]; intros Hs; simpl; [constructor|].
  apply StronglySorted_inv in Hs. destruct Hs as [Hl Ha].
  apply StronglySorted_snoc; [apply IH, Hl|].
  rewrite List.Forall_forall in Ha |- *. intros b Hb.
  apply Ha. apply in_rev. exact Hb.
Qed.

Lemma key_ascends_rev {A : Type} (key : A -> Q) (l : list A) :
  key_ascends key l -> key_descends key (rev l).
Proof.
  unfold key_descends, key_ascends.
  induction l as [|a l IH]; intros Hs; simpl; [constructor|].
  apply StronglySorted_inv in Hs. destruct Hs as [Hl Ha].
  apply StronglySorted_snoc; [apply IH, Hl|].
  rewrite List.Forall_forall in Ha |- *. intros b Hb.
  apply Ha. apply in_rev. exact Hb.
Qed.

Lemma key_descends_map {A B : Type} (f : A -> B) (key : B -> Q) (l : list A) :
  key_descends (fun a => key (f a)) l -> key_descends key (map f l).
Proof.
  unfold key_descends. induction l as [|a l IH]; intros Hs; simpl; [constructor|].
  apply StronglySorted_inv in Hs. destruct Hs as [Hl Ha].
  constructor; [apply IH, Hl|].
  rewrite List.Forall_forall in Ha |- *. intros b Hb.
  apply in_map_iff in Hb. destruct Hb as (z & <- & Hz). apply Ha, Hz.
Qed.

Lemma key_ascends_neg {A : Type} (key : A -> Q) (l : list A) :
  key_ascends key l -> key_descends (fun a => - key a) l.
Proof.
  unfold key_descends, key_ascends.
  induction l as [|a l IH]; intros Hs; [constructor|].
  apply StronglySorted_inv in Hs. destruct Hs as [Hl Ha].
  constructor; [apply IH, Hl|].
  rewrite List.Forall_forall in Ha |- *. intros b Hb.
  pose proof (Ha b Hb). lra.
Qed.

Lemma key_descends_ext {A : Type} (key key' : A -> Q) (l : list A) :
  (forall a, key' a = key a) -> key_descends key l -> key_descends key' l.
Proof.
  intros Hext. unfold key_descends.
  induction l as [|a l IH]; intros Hs; [constructor|].
  apply StronglySorted_inv in Hs. destruct Hs as [Hl Ha].
  constructor; [apply IH, Hl|].
  rewrite List.Forall_forall in Ha |- *. intros b Hb.
  rewrite !Hext. apply Ha, Hb.
Qed.

(** A table in descending key order survives the round trip of
    [_postinit]: sorted ascending, merged row by row, sorted descending. *)
Lemma sort_round_trip {A B C : Type} (g : A -> B) (f : B -> C)
    (keyB : B -> Q) (keyC : C -> Q) (l : list A) :
  (forall b, keyC (f b) = keyB b) ->
  key_descends (fun a => keyB (g a)) l ->
  sort_values_desc keyC (map f (sort_values keyB (map g l)))
  = map f (map g l).
Proof.
  intros Hkey Hd.
  rewrite (sort_values_reverses keyB (map g l)) by (apply key_descends_map, Hd).
  unfold sort_values_desc.
  rewrite sort_values_reverses.
  - rewrite <- map_rev, rev_involutive. reflexivity.
  - rewrite <- map_rev.
    apply (key_descends_map f (fun c => - keyC c)).
    apply (key_descends_map g (fun b => - keyC (f b))).
    apply (key_ascends_neg (fun a => keyC (f (g a)))).
    apply key_descends_rev.
    apply (key_descends_ext (fun a => keyB (g a))); [|exact Hd].
    intros a. apply Hkey.
Qed.

(** [merge_asof(direction="forward")] on a right table sorted by key: the
    row taken has the lowest key at or above the left key. *)
Lemma find_first_at_or_above (right : list profile_row) (x : Q) :
  key_ascends pr_top right ->
  match find (fun r => Qle_bool x (pr_top r)) right with
  | Some r =>
      In r right /\ x <= pr_top r
      /\ forall r', In r' right -> x <= pr_top r' -> pr_top r <= pr_top r'
  | None => forall r, In r right -> pr_top r < x
  end.
Proof.
  unfold key_ascends. induction right as [|r0 rest IH]; intros Hs; simpl.
  - intros r [].
  - apply StronglySorted_inv in Hs. destruct Hs as [Hrest Hr0].
    rewrite List.Forall_forall in Hr0.
    destruct (Qle_bool x (pr_top r0)) eqn:Hle.
    + apply Qle_bool_iff in Hle. split; [left; reflexivity|].
      split; [exact Hle|].
      intros r' [<-|Hr'] _; [lra|apply Hr0, Hr'].
    + assert (Hlt : pr_top r0 < x).
      { apply Qnot_le_lt. intros H. apply Qle_bool_iff in H. congruence. }
      specialize (IH Hrest).
      destruct (find (fun r => Qle_bool x (pr_top r)) rest) as [r|].
      * destruct IH as (Hin & Hxr & Hmin). split; [right; exact Hin|].
        split; [exact Hxr|].
        intros r' [<-|Hr'] Hx; [lra|apply Hmin; assumption].
      * intros r [<-|Hr]; [exact Hlt|apply IH, Hr].
Qed.

(** The rows of the sorted soil profile are the layers. *)
Lemma soil_profile_rows (sp : SoilProfile.t) (r : profile_row) :
  In r (sort_values pr_top (Model.get_soil_profile sp))
  <-> exists l, In l (SoilProfile.layers sp)
                /\ r = mk_profile_row (Layer.top l) (Layer.weight l).
Proof.
  unfold Model.get_soil_profile.
  rewrite sort_values_In, <- in_rev, sort_values_In, in_map_iff.
  split; intros (l & H1 & H2); exists l; split; auto.
Qed.

(** A profile that passed its validator has its ground elevation at the
    top of its highest layer. *)
Lemma ground_is_highest_top (sp : SoilProfile.t) :
  SoilProfile.check_layers_elevations sp = Returned tt ->
  (forall l, In l (SoilProfile.layers sp) ->
             Layer.top l <= SoilProfile.top_elevation sp)
  /\ exists l, In l (SoilProfile.layers sp)
               /\ Layer.top l == SoilProfile.top_elevation sp.
Proof.
  unfold SoilProfile.check_layers_elevations.
  set (pairs := map (fun x => (Layer.top x, Layer.bottom x)) (SoilProfile.layers sp)).
  pose proof (key_ascends_rev _ _ (sort_values_ascends fst pairs)) as Hd.
  assert (Hin : forall p, In p (rev (sort_values fst pairs)) <-> In p pairs).
  { intros p. rewrite <- in_rev. apply sort_values_In. }
  destruct (rev (sort_values fst pairs)) as [|[top0 bottom0] rest];
    [discriminate|].
  destruct (Qeq_bool top0 (SoilProfile.top_elevation sp)) eqn:Htop;
    [|discriminate].
  apply Qeq_bool_iff in Htop. intros _.
  apply StronglySorted_inv in Hd. destruct Hd as [_ Hall].
  rewrite List.Forall_forall in Hall. split.
  - intros l Hl.
    assert (Hp : In (Layer.top l, Layer.bottom l) ((top0, bottom0) :: rest)).
    { apply Hin. unfold pairs. apply in_map_iff. exists l. split; auto. }
    destruct Hp as [Heq|Hp].
    + injection Heq as <- _. lra.
    + specialize (Hall _ Hp). simpl in Hall. lra.
  - assert (Hp : In (top0, bottom0) pairs) by (apply Hin; left; reflexivity).
    unfold pairs in Hp. apply in_map_iff in Hp.
    destruct Hp as (l & Heq & Hl). injection Heq as <- _.
    exists l. split; [exact Hl|exact Htop].
Qed.

(** [cumsum] with NaN entries skipped. *)

Lemma cumsum_from_length (acc : Q) (s : list (option Q)) :
  List.length (cumsum_from acc s) = List.length s.
Proof.
  revert acc. induction s as [|[v|] rest IH]; intros acc; simpl;
    [reflexivity|rewrite IH; reflexivity|rewrite IH; reflexivity].
Qed.

Lemma cumsum_from_lookup (acc : Q) (s : list (option Q)) (i : nat) :
  match s !! i with
  | Some (Some _) =>
      exists t, cumsum_from acc s !! i = Some (Some t)
                /\ t == acc + nansum (take (S i) s)
  | Some None => cumsum_from acc s !! i = Some None
  | None => cumsum_from acc s !! i = None
  end.
Proof.
  revert acc i. induction s as [|o rest IH]; intros acc i.
  - reflexivity.
  - destruct i as [|i].
    + destruct o as [v|]; simpl.
      * exists (acc + v). split; [reflexivity|].
        simpl. ring.
      * reflexivity.
    + destruct o as [v|]; simpl.
      * specialize (IH (acc + v) i).
        destruct (rest !! i) as [[w|]|]; [|exact IH|exact IH].
        destruct IH as (t & Ht & Heq). exists t. split; [exact Ht|].
        rewrite Heq. ring.
      * specialize (IH acc i).
        destruct (rest !! i) as [[w|]|]; [|exact IH|exact IH].
        destruct IH as (t & Ht & Heq). exists t. split; [exact Ht|].
        rewrite Heq. reflexivity.
Qed.

(** [np.insert] at the positions found by [np.where]. *)

Lemma np_where_from_ge (check : list bool) (k i : nat) :
  In i (np_where_from k check) -> (k <= i)%nat.
Proof. intros Hi. apply np_where_from_spec in Hi. apply Hi. Qed.

Lemma np_insert_from_length (arr : list (option Q)) (check : list bool)
    (idx : list nat) (k : nat) (v : option Q) :
  List.length check = S (List.length arr) ->
  (forall i, (k <= i)%nat -> (i ∈ idx <-> In i (np_where_from k check))) ->
  List.length (np_insert_from k arr idx v)
  = (List.length arr + List.length (np_where_from k check))%nat.
Proof.
  revert check k. induction arr as [|a rest IH]; intros check k Hlen Hidx.
  - destruct check as [|b [|b' check']]; try discriminate.
    specialize (Hidx k (le_n k)). simpl in *.
    destruct b; simpl in *.
    + rewrite bool_decide_eq_true_2 by (apply Hidx; left; reflexivity).
      reflexivity.
    + rewrite bool_decide_eq_false_2 by (intros Hk; apply Hidx in Hk; exact Hk).
      reflexivity.
  - destruct check as [|b check']; [discriminate|].
    injection Hlen as Hlen.
    assert (Hrest : forall i, (S k <= i)%nat ->
                      (i ∈ idx <-> In i (np_where_from (S k) check'))).
    { intros i Hi. rewrite (Hidx i) by lia. simpl.
      destruct b; simpl; [|tauto].
      split; [intros [Hk|H]; [lia|exact H] | intros H; right; exact H]. }
    assert (Hk : k ∈ idx <-> b = true).
    { rewrite (Hidx k) by lia. simpl. destruct b; simpl.
      - split; [reflexivity|intros _; left; reflexivity].
      - split; [intros H; apply np_where_from_ge in H; lia|discriminate]. }
    cbn [np_insert_from]. rewrite length_app. cbn [List.length].
    rewrite (IH check' (S k) Hlen Hrest). simpl.
    destruct b; simpl.
    + rewrite bool_decide_eq_true_2 by (apply Hk; reflexivity). simpl. lia.
    + rewrite bool_decide_eq_false_2
        by (intros H; apply Hk in H; discriminate).
      simpl. lia.
Qed.

Lemma np_insert_from_none (arr : list (option Q)) (idx : list nat) (k : nat)
    (v : option Q) :
  (forall i, (k <= i)%nat -> i ∉ idx) -> np_insert_from k arr idx v = arr.
Proof.
  revert k. induction arr as [|a rest IH]; intros k Hidx; cbn [np_insert_from].
  - rewrite bool_decide_eq_false_2 by (apply Hidx; lia). reflexivity.
  - rewrite bool_decide_eq_false_2 by (apply Hidx; lia). simpl.
    f_equal. apply IH. intros i Hi. apply Hidx. lia.
Qed.

Lemma np_insert_from_single (arr : list (option Q)) (idx : list nat)
    (k g : nat) (v : option Q) :
  (forall i, (k <= i)%nat -> (i ∈ idx <-> i = g)) ->
  (k <= g <= k + List.length arr)%nat ->
  np_insert_from k arr idx v = take (g - k) arr ++ v :: drop (g - k) arr.
Proof.
  revert k. induction arr as [|a rest IH]; intros k Hidx Hg;
    cbn [np_insert_from].
  - simpl in Hg. assert (g = k) as -> by lia.
    rewrite bool_decide_eq_true_2 by (apply Hidx; [lia|reflexivity]).
    rewrite Nat.sub_diag. reflexivity.
  - destruct (decide (g = k)) as [->|Hne].
    + rewrite bool_decide_eq_true_2 by (apply Hidx; [lia|reflexivity]).
      rewrite Nat.sub_diag. simpl. f_equal. f_equal.
      apply np_insert_from_none. intros i Hi Hin.
      apply Hidx in Hin; lia.
    + rewrite bool_decide_eq_false_2
        by (intros Hin; apply Hidx in Hin; [congruence|lia]).
      simpl in Hg. replace (g - k)%nat with (S (g - S k)) by lia. simpl.
      f_equal. apply IH; [|lia].
      intros i Hi. apply Hidx. lia.
Qed.

(** The rows of [soil_properties], column by column. *)

Lemma zip_with_map_r_same {A B C : Type} (F : A -> B -> C) (h : A -> B)
    (l : list A) :
  zip_with F l (map h l) = map (fun a => F a (h a)) l.
Proof.
  induction l as [|a l IH]; simpl; [reflexivity|]. rewrite IH. reflexivity.
Qed.

Lemma key_descends_lookup {A : Type} (key : A -> Q) (l : list A)
    (i j : nat) (a b : A) :
  key_descends key l -> (i <= j)%nat ->
  l !! i = Some a -> l !! j = Some b -> key b <= key a.
Proof.
  unfold key_descends. intros Hs. revert i j.
  induction Hs as [|c l Hl IH Hall]; intros i j Hij Ha Hb; [discriminate|].
  destruct i as [|i]; simpl in Ha.
  - injection Ha as ->. destruct j as [|j]; simpl in Hb.
    + injection Hb as ->. lra.
    + rewrite List.Forall_forall in Hall. apply Hall.
      apply list_elem_of_In. apply (list_elem_of_lookup_2 _ j). exact Hb.
  - destruct j as [|j]; [lia|]. simpl in Hb.
    apply (IH i j); [lia|assumption|assumption].
Qed.

(** The running sum of the stress increments is the overburden. *)
Lemma overburden_nansum (rows : list soil_row) (s : list (option Q)) (k : nat) :
  (forall j row, rows !! j = Some row ->
     s !! j = Some (option_map (fun w => (sp_x_top row - sp_x_bottom row) * w)
                      (sp_unit_weight row))) ->
  (k <= List.length rows)%nat ->
  overburden (take k rows) == nansum (take k s).
Proof.
  revert s k. induction rows as [|r rows IH]; intros s k Hs Hk.
  - simpl in Hk. assert (k = 0%nat) as -> by lia. reflexivity.
  - destruct k as [|k]; [reflexivity|].
    pose proof (Hs 0%nat r eq_refl) as H0.
    destruct s as [|o s]; [discriminate|]. simpl in H0. injection H0 as ->.
    simpl. simpl in Hk.
    assert (IH' : overburden (take k rows) == nansum (take k s))
      by (apply IH; [intros j row Hj; apply (Hs (S j) row Hj)|lia]).
    destruct (sp_unit_weight r) as [w|]; simpl; rewrite IH'; reflexivity.
Qed.

Lemma nansum_all_nan (s : list (option Q)) (k : nat) :
  (forall j, (j < k)%nat -> s !! j = Some None) -> nansum (take k s) = 0.
Proof.
  revert s. induction k as [|k IH]; intros s Hs.
  - rewrite take_0. reflexivity.
  - destruct s as [|o s]; [reflexivity|].
    pose proof (Hs 0%nat ltac:(lia)) as H0. simpl in H0. injection H0 as ->.
    simpl. apply IH. intros j Hj. apply (Hs (S j)). lia.
Qed.

Section soil_rows.

Variable sp : SoilProfile.t.
Variable element : list element_row.
Variable rows : list soil_row.
Hypothesis Hdesc : key_descends x_top element.
Hypothesis Hrows : Model.make_soil_properties element (Some sp) = Returned rows.

Let ground : Q := SoilProfile.top_elevation sp.
Let water : Q := SoilProfile.water_elevation sp.
Let right : list profile_row := sort_values pr_top (Model.get_soil_profile sp).

Let merge_one (e : element_row) : merged_row :=
  match find (fun r => Qle_bool (x_top e) (pr_top r)) right with
  | Some r =>
      mk_merged_row (x_top e) (x_bottom e) (Some (pr_top r)) (Some (pr_weight r))
  | None => mk_merged_row (x_top e) (x_bottom e) None None
  end.

Let M : list merged_row := map merge_one element.
Let W : list (option Q) := map (Model.buoyant water) M.
Let incr : list (option Q) :=
  map (fun r => option_map (fun w => (mr_x_top r - mr_x_bottom r) * w)
                  (Model.buoyant water r)) M.
Let B : list (option Q) := cumsum incr.
Let check : list bool := map (fun r => Qeq_bool (mr_x_top r) ground) M.
Let T : list (option Q) := np_insert (drop_last B) (np_where check) (Some 0).

Lemma soil_rows_shape :
  List.length T = List.length M
  /\ rows
     = zip_with
         (fun rw tb =>
            mk_soil_row (mr_x_top (fst rw)) (mr_x_bottom (fst rw))
              (mr_top_soil_layer (fst rw)) (snd rw)
              (mr_x_top (fst rw) - ground) (mr_x_bottom (fst rw) - ground)
              (fst tb) (snd tb))
         (zip M W) (zip T B).
Proof.
  pose proof Hrows as Hr. unfold Model.make_soil_properties in Hr.
  unfold merge_asof_forward in Hr.
  rewrite (sort_round_trip (fun e => (x_top e, x_bottom e)) _ fst mr_x_top) in Hr.
  2: { intros b. destruct (find _ _); reflexivity. }
  2: { exact Hdesc. }
  rewrite map_map in Hr. cbn [fst snd] in Hr.
  change (map _ element) with M in Hr.
  fold water ground in Hr.
  rewrite !(zip_with_map_r_same
              (fun (r : merged_row) (w : option Q) =>
                 option_map (fun w0 => (mr_x_top r - mr_x_bottom r) * w0) w))
    in Hr.
  fold incr W in Hr. fold B in Hr. fold check in Hr. fold T in Hr.
  destruct (List.length T =? List.length M)%nat eqn:Hlen; [|discriminate].
  apply Nat.eqb_eq in Hlen. simpl in Hr. injection Hr as Hr.
  split; [exact Hlen|symmetry; exact Hr].
Qed.

Lemma soil_rows_lengths :
  List.length M = List.length element
  /\ List.length W = List.length element
  /\ List.length incr = List.length element
  /\ List.length B = List.length element
  /\ List.length T = List.length element
  /\ List.length rows = List.length element.
Proof.
  destruct soil_rows_shape as [HT Hshape].
  assert (HM : List.length M = List.length element) by apply length_map.
  assert (HW : List.length W = List.length element)
    by (unfold W; rewrite length_map; exact HM).
  assert (HS : List.length incr = List.length element)
    by (unfold incr; rewrite length_map; exact HM).
  assert (HB : List.length B = List.length element)
    by (unfold B, cumsum; rewrite cumsum_from_length; exact HS).
  repeat split; try assumption; try lia.
  rewrite Hshape, length_zip_with, !length_zip. lia.
Qed.

(** Row [i] of [soil_properties], from row [i] of each column. *)
Lemma soil_rows_lookup (i : nat) (row : soil_row) :
  rows !! i = Some row ->
  exists e t b,
    element !! i = Some e
    /\ T !! i = Some t
    /\ B !! i = Some b
    /\ incr !! i
       = Some (option_map (fun w => (sp_x_top row - sp_x_bottom row) * w)
                 (sp_unit_weight row))
    /\ sp_x_top row = x_top e
    /\ sp_x_bottom row = x_bottom e
    /\ sp_unit_weight row = Model.buoyant water (merge_one e)
    /\ sp_sigma_v_top row = t
    /\ sp_sigma_v_bottom row = b.
Proof.
  destruct soil_rows_shape as [_ Hshape]. intros Hrow.
  rewrite Hshape in Hrow. rewrite lookup_zip_with in Hrow.
  destruct (zip M W !! i) as [[m w]|] eqn:Hmw; [|discriminate].
  destruct (zip T B !! i) as [[t b]|] eqn:Htb; [|discriminate].
  simpl in Hrow. injection Hrow as <-. simpl.
  apply lookup_zip_with_Some in Hmw. destruct Hmw as (m' & w' & Heq & Hm & Hw).
  injection Heq as <- <-.
  apply lookup_zip_with_Some in Htb. destruct Htb as (t' & b' & Heq & Ht & Hb).
  injection Heq as <- <-.
  unfold M in Hm. rewrite list_lookup_fmap in Hm.
  destruct (element !! i) as [e|] eqn:He; [|discriminate].
  simpl in Hm. injection Hm as <-.
  unfold W in Hw. rewrite list_lookup_fmap in Hw. unfold M in Hw.
  rewrite list_lookup_fmap, He in Hw. simpl in Hw. injection Hw as <-.
  exists e, t, b. unfold incr, M. rewrite !list_lookup_fmap, He. simpl.
  assert (Htop : mr_x_top (merge_one e) = x_top e)
    by (unfold merge_one; destruct (find _ _); reflexivity).
  assert (Hbot : mr_x_bottom (merge_one e) = x_bottom e)
    by (unfold merge_one; destruct (find _ _); reflexivity).
  rewrite Htop, Hbot. repeat split; assumption.
Qed.

(** There is exactly one element whose top is at the ground elevation. *)
Lemma soil_rows_ground :
  element <> [] ->
  exists g, np_where check = [g]
            /\ T = take g (drop_last B) ++ Some 0 :: drop g (drop_last B)
            /\ (g < List.length element)%nat.
Proof.
  intros Hne.
  destruct soil_rows_lengths as (HM & _ & _ & HB & HT & _).
  assert (Hn : (0 < List.length element)%nat)
    by (destruct element; [congruence|simpl; lia]).
  assert (Harr : List.length (drop_last B) = (List.length element - 1)%nat).
  { unfold drop_last. rewrite removelast_firstn_len, length_take. lia. }
  assert (Hcheck : List.length check = S (List.length (drop_last B)))
    by (unfold check; rewrite length_map; lia).
  pose proof (np_insert_from_length (drop_last B) check (np_where check) 0
                (Some 0) Hcheck) as Hlen.
  fold (np_insert (drop_last B) (np_where check) (Some 0)) in Hlen.
  fold T in Hlen. fold (np_where check) in Hlen.
  rewrite Hlen in HT; [|intros i _; apply list_elem_of_In].
  destruct (np_where check) as [|g [|g' rest]] eqn:Hidx; simpl in HT; try lia.
  exists g. split; [reflexivity|].
  assert (Hg : (g < List.length element)%nat).
  { assert (Hin : In g (np_where check)) by (rewrite Hidx; left; reflexivity).
    apply np_where_spec in Hin. apply lookup_lt_Some in Hin.
    unfold check in Hin. rewrite length_map in Hin. lia. }
  split; [|exact Hg].
  unfold T, np_insert.
  rewrite (np_insert_from_single (drop_last B) [g] 0 g (Some 0)).
  - rewrite Nat.sub_0_r. reflexivity.
  - intros i _. rewrite list_elem_of_In. simpl. split; [intros [H|[]]|]; auto.
  - lia.
Qed.

Hypothesis Hvalid : SoilProfile.check_layers_elevations sp = Returned tt.

(** The unit weight that the merge gives an element: that of the layer with
    the lowest top at or above the top of the element, and none above the
    ground. *)
Lemma merge_one_weight (e : element_row) :
  (x_top e <= ground ->
   exists l,
     In l (SoilProfile.layers sp)
     /\ x_top e <= Layer.top l
     /\ (forall l', In l' (SoilProfile.layers sp) ->
                    x_top e <= Layer.top l' -> Layer.top l <= Layer.top l')
     /\ mr_unit_weight (merge_one e) = Some (Layer.weight l))
  /\ (ground < x_top e -> mr_unit_weight (merge_one e) = None).
Proof.
  destruct (ground_is_highest_top sp Hvalid) as [Hmax (l0 & Hl0 & Htop0)].
  fold ground in Hmax, Htop0.
  pose proof (find_first_at_or_above right (x_top e)
                (sort_values_ascends pr_top _)) as Hfind.
  unfold merge_one.
  destruct (find (fun r => Qle_bool (x_top e) (pr_top r)) right) as [r|].
  - destruct Hfind as (Hin & Hxr & Hmin).
    apply soil_profile_rows in Hin. destruct Hin as (l & Hl & ->).
    simpl in *. split.
    + intros _. exists l. split; [exact Hl|]. split; [exact Hxr|].
      split; [|reflexivity].
      intros l' Hl' Hx.
      apply (Hmin (mk_profile_row (Layer.top l') (Layer.weight l')));
        [|exact Hx].
      apply soil_profile_rows. exists l'. split; [exact Hl'|reflexivity].
    + intros Habove. pose proof (Hmax l Hl). lra.
  - split; [|reflexivity].
    intros Hbelow. exfalso.
    assert (Hr : In (mk_profile_row (Layer.top l0) (Layer.weight l0)) right)
      by (apply soil_profile_rows; exists l0; split; [exact Hl0|reflexivity]).
    specialize (Hfind _ Hr). simpl in Hfind. lra.
Qed.

Lemma merge_one_x_top (e : element_row) : mr_x_top (merge_one e) = x_top e.
Proof. unfold merge_one. destruct (find _ _); reflexivity. Qed.

Lemma merge_one_x_bottom (e : element_row) :
  mr_x_bottom (merge_one e) = x_bottom e.
Proof. unfold merge_one. destruct (find _ _); reflexivity. Qed.

(** The stress increment of an element is a number at or below the ground
    and NaN above it. *)
Lemma incr_lookup (j : nat) (e : element_row) :
  element !! j = Some e ->
  (x_top e <= ground -> exists v, incr !! j = Some (Some v))
  /\ (ground < x_top e -> incr !! j = Some None).
Proof.
  intros He. unfold incr, M. rewrite !list_lookup_fmap, He. simpl.
  unfold Model.buoyant. rewrite merge_one_x_top.
  destruct (merge_one_weight e) as [Hbelow Habove]. split.
  - intros Hle. destruct (Hbelow Hle) as (l & _ & _ & _ & ->).
    destruct (Qle_bool (x_top e) water); simpl; eexists; reflexivity.
  - intros Hlt. rewrite (Habove Hlt).
    destruct (Qle_bool (x_top e) water); reflexivity.
Qed.

(** The stresses of a row at or below the ground. *)
Lemma soil_row_stress (i : nat) (row : soil_row) :
  rows !! i = Some row ->
  sp_x_top row <= ground ->
  exists t b,
    sp_sigma_v_top row = Some t
    /\ sp_sigma_v_bottom row = Some b
    /\ t == overburden (take i rows)
    /\ b == overburden (take (Datatypes.S i) rows).
Proof.
  intros Hrow Hbelow.
  destruct (soil_rows_lookup i row Hrow)
    as (e & t & b & He & Ht & Hb & _ & Htop & _ & _ & Hst & Hsb).
  rewrite Htop in Hbelow.
  destruct soil_rows_lengths as (_ & _ & Hlincr & HlB & _ & Hlrows).
  assert (Hne : element <> []) by (intros Hnil; rewrite Hnil in He; discriminate).
  destruct (soil_rows_ground Hne) as (g & Hidx & HT & Hg).
  pose proof (lookup_lt_Some _ _ _ He) as Hi.
  (* the element at the ground *)
  assert (Hwhere : forall j, check !! j = Some true <-> j = g).
  { intros j. rewrite <- np_where_spec, Hidx. simpl.
    split; [intros [H|[]]; auto|intros ->; left; reflexivity]. }
  assert (Hcheck : forall j ej, element !! j = Some ej ->
                     (x_top ej == ground <-> j = g)).
  { intros j ej Hej. rewrite <- Hwhere. unfold check, M.
    rewrite !list_lookup_fmap, Hej. simpl. rewrite merge_one_x_top.
    rewrite <- Qeq_bool_iff.
    split; [intros ->; reflexivity|intros H; injection H as H; exact H]. }
  destruct (lookup_lt_is_Some_2 element g Hg) as [eg Heg].
  assert (Hground : x_top eg == ground) by (apply (Hcheck g eg Heg); reflexivity).
  (* above the ground before [g], at or below it from [g] on *)
  assert (Hbefore : forall j, (j < g)%nat -> incr !! j = Some None).
  { intros j Hj.
    destruct (lookup_lt_is_Some_2 element j ltac:(lia)) as [ej Hej].
    apply (incr_lookup j ej Hej).
    pose proof (key_descends_lookup x_top element j g ej eg Hdesc
                  ltac:(lia) Hej Heg) as Hle.
    destruct (Qlt_le_dec ground (x_top ej)) as [Hlt|Hge]; [exact Hlt|].
    exfalso. assert (Heq : x_top ej == ground) by lra.
    apply (Hcheck j ej Hej) in Heq. lia. }
  assert (Hafter : forall j, (g <= j < List.length element)%nat ->
                     exists v, incr !! j = Some (Some v)).
  { intros j Hj.
    destruct (lookup_lt_is_Some_2 element j ltac:(lia)) as [ej Hej].
    apply (incr_lookup j ej Hej).
    pose proof (key_descends_lookup x_top element g j eg ej Hdesc
                  ltac:(lia) Heg Hej) as Hle.
    lra. }
  assert (Hig : (g <= i)%nat).
  { destruct (le_lt_dec g i) as [Hle|Hlt]; [exact Hle|]. exfalso.
    pose proof (key_descends_lookup x_top element i g e eg Hdesc
                  ltac:(lia) He Heg) as Hle.
    assert (Heq : x_top e == ground) by lra.
    apply (Hcheck i e He) in Heq. lia. }
  (* the running sums *)
  assert (Hsum : forall k, (k <= List.length rows)%nat ->
                   overburden (take k rows) == nansum (take k incr)).
  { intros k Hk. apply overburden_nansum; [|exact Hk].
    intros j r Hj.
    destruct (soil_rows_lookup j r Hj) as (_ & _ & _ & _ & _ & _ & H & _).
    exact H. }
  assert (Hcum : forall j, (g <= j < List.length element)%nat ->
                   exists u, B !! j = Some (Some u)
                             /\ u == nansum (take (Datatypes.S j) incr)).
  { intros j Hj. destruct (Hafter j Hj) as (v & Hv).
    pose proof (cumsum_from_lookup 0 incr j) as Hlook. rewrite Hv in Hlook.
    destruct Hlook as (u & Hu & Heq). exists u. split; [exact Hu|].
    rewrite Heq. ring. }
  (* bottom stress *)
  destruct (Hcum i ltac:(lia)) as (ub & Hub & Hubeq).
  rewrite Hub in Hb. injection Hb as <-.
  (* top stress *)
  assert (Harr : List.length (drop_last B) = (List.length element - 1)%nat).
  { unfold drop_last. rewrite removelast_firstn_len, length_take. lia. }
  assert (Htake : List.length (take g (drop_last B)) = g)
    by (rewrite length_take; lia).
  destruct (decide (i = g)) as [->|Hneq].
  - rewrite HT in Ht.
    rewrite (list_lookup_middle _ _ _ g) in Ht by (symmetry; exact Htake).
    injection Ht as <-.
    exists 0, ub. rewrite Hst, Hsb.
    split; [reflexivity|]. split; [reflexivity|].
    split.
    + rewrite (Hsum g) by lia. rewrite (nansum_all_nan incr g Hbefore).
      reflexivity.
    + rewrite (Hsum (Datatypes.S g)) by lia. exact Hubeq.
  - rewrite HT in Ht.
    rewrite lookup_app_r in Ht by (rewrite Htake; lia).
    rewrite Htake in Ht.
    replace (i - g)%nat with (Datatypes.S (i - g - 1)) in Ht by lia.
    simpl in Ht. rewrite lookup_drop in Ht.
    replace (g + (i - g - 1))%nat with (i - 1)%nat in Ht by lia.
    unfold drop_last in Ht. rewrite removelast_firstn_len in Ht.
    rewrite lookup_take_lt in Ht by lia.
    destruct (Hcum (i - 1)%nat ltac:(lia)) as (ut & Hut & Huteq).
    rewrite Hut in Ht. injection Ht as <-.
    exists ut, ub. rewrite Hst, Hsb.
    split; [reflexivity|]. split; [reflexivity|].
    split.
    + rewrite (Hsum i) by lia. rewrite Huteq.
      replace (Datatypes.S (i - 1)) with i by lia. reflexivity.
    + rewrite (Hsum (Datatypes.S i)) by lia. exact Hubeq.
Qed.

(** The unit weight and the stresses of a row above the ground are NaN. *)
Lemma soil_row_above_ground (i : nat) (row : soil_row) :
  rows !! i = Some row ->
  ground < sp_x_top row ->
  sp_unit_weight row = None
  /\ sp_sigma_v_top row = None
  /\ sp_sigma_v_bottom row = None.
Proof.
  intros Hrow Habove.
  destruct (soil_rows_lookup i row Hrow)
    as (e & t & b & He & Ht & Hb & _ & Htop & _ & Hw & Hst & Hsb).
  rewrite Htop in Habove.
  destruct (incr_lookup i e He) as [_ Hnan]. specialize (Hnan Habove).
  destruct (merge_one_weight e) as [_ Hnone].
  destruct soil_rows_lengths as (_ & _ & Hlincr & HlB & _ & Hlrows).
  assert (Hne : element <> []) by (intros Hnil; rewrite Hnil in He; discriminate).
  destruct (soil_rows_ground Hne) as (g & Hidx & HT & Hg).
  pose proof (lookup_lt_Some _ _ _ He) as Hi.
  assert (HBi : B !! i = Some None).
  { pose proof (cumsum_from_lookup 0 incr i) as Hlook. rewrite Hnan in Hlook.
    exact Hlook. }
  (* the row is before the element at the ground *)
  assert (Hcheckg : check !! g = Some true).
  { apply np_where_spec. rewrite Hidx. left. reflexivity. }
  destruct (lookup_lt_is_Some_2 element g Hg) as [eg Heg].
  assert (Hground : x_top eg == ground).
  { unfold check, M in Hcheckg. rewrite !list_lookup_fmap, Heg in Hcheckg.
    simpl in Hcheckg. rewrite merge_one_x_top in Hcheckg.
    apply Qeq_bool_iff. congruence. }
  assert (Hig : (i < g)%nat).
  { destruct (le_lt_dec g i) as [Hle|Hlt]; [|exact Hlt]. exfalso.
    pose proof (key_descends_lookup x_top element g i eg e Hdesc Hle Heg He).
    lra. }
  assert (Harr : List.length (drop_last B) = (List.length element - 1)%nat).
  { unfold drop_last. rewrite removelast_firstn_len, length_take. lia. }
  split; [|split].
  - rewrite Hw. unfold Model.buoyant. rewrite (Hnone Habove).
    destruct (Qle_bool _ _); reflexivity.
  - rewrite Hst. rewrite HT in Ht.
    rewrite lookup_app_l in Ht by (rewrite length_take; lia).
    rewrite lookup_take_lt in Ht by lia.
    unfold drop_last in Ht. rewrite removelast_firstn_len in Ht.
    rewrite lookup_take_lt in Ht by lia.
    congruence.
  - rewrite Hsb. congruence.
Qed.

(** The element and the unit weight of a row at or below the ground. *)
Lemma soil_row_element (i : nat) (row : soil_row) :
  rows !! i = Some row ->
  exists e, element !! i = Some e
            /\ sp_x_top row = x_top e /\ sp_x_bottom row = x_bottom e.
Proof.
  intros Hrow.
  destruct (soil_rows_lookup i row Hrow)
    as (e & _ & _ & He & _ & _ & _ & Htop & Hbot & _).
  exists e. repeat split; assumption.
Qed.

Lemma soil_row_weight (i : nat) (row : soil_row) :
  rows !! i = Some row ->
  sp_x_top row <= ground ->
  exists l,
    In l (SoilProfile.layers sp)
    /\ sp_x_top row <= Layer.top l
    /\ (forall l', In l' (SoilProfile.layers sp) ->
                   sp_x_top row <= Layer.top l' -> Layer.top l <= Layer.top l')
    /\ sp_unit_weight row
       = Some (if Qle_bool (sp_x_top row) water
               then Layer.weight l - 10 else Layer.weight l).
Proof.
  intros Hrow Hbelow.
  destruct (soil_rows_lookup i row Hrow)
    as (e & _ & _ & He & _ & _ & _ & Htop & _ & Hw & _).
  rewrite Htop in Hbelow |- *.
  destruct (merge_one_weight e) as [Hlayer _].
  destruct (Hlayer Hbelow) as (l & Hl & Hxl & Hmin & Hweight).
  exists l. split; [exact Hl|]. split; [exact Hxl|]. split; [exact Hmin|].
  rewrite Hw. unfold Model.buoyant. rewrite merge_one_x_top, Hweight.
  destruct (Qle_bool (x_top e) water); reflexivity.
Qed.

End soil_rows.

(** Rounding keeps the order of the elevations. *)

Lemma round_half_even_mono (t t' : Q) :
  t <= t' -> (round_half_even t <= round_half_even t')%Z.
Proof.
  intros Hle. pose proof (Qfloor_resp_le _ _ Hle) as Hf.
  pose proof (Qfloor_le t) as Hlow. pose proof (Qlt_floor t) as Hhigh.
  pose proof (Qfloor_le t') as Hlow'. pose proof (Qlt_floor t') as Hhigh'.
  rewrite inject_Z_plus in Hhigh, Hhigh'.
  change (inject_Z 1) with 1 in Hhigh, Hhigh'.
  destruct (Z.eq_dec (Qfloor t) (Qfloor t')) as [Heq|Hne].
  - unfold round_half_even. rewrite <- Heq in *.
    destruct (Qcompare_spec (t - inject_Z (Qfloor t)) (1 # 2)),
             (Qcompare_spec (t' - inject_Z (Qfloor t)) (1 # 2));
      try lia; try (exfalso; lra); destruct (Z.even (Qfloor t)); lia.
  - assert (H1 : (round_half_even t <= Qfloor t + 1)%Z).
    { unfold round_half_even.
      destruct (Qcompare _ _); [destruct (Z.even _)| |]; lia. }
    assert (H2 : (Qfloor t' <= round_half_even t')%Z).
    { unfold round_half_even.
      destruct (Qcompare _ _); [destruct (Z.even _)| |]; lia. }
    lia.
Qed.

Lemma round3_mono (p q : Q) : p <= q -> round3 p <= round3 q.
Proof.
  intros Hle. unfold round3, Qdiv. apply Qmult_le_compat_r; [|discriminate].
  rewrite <- Zle_Qle. apply round_half_even_mono. lra.
Qed.

Lemma consecutive_tops_descend (x : list Q) :
  descending x -> key_descends fst (consecutive x).
Proof.
  unfold key_descends. induction x as [|p x IH]; intros Hd; [constructor|].
  destruct x as [|q rest]; [constructor|].
  rewrite consecutive_cons.
  pose proof (descending_inv _ _ Hd) as [Hd' Hp].
  constructor; [apply IH, Hd'|].
  apply List.Forall_forall. intros [a b] Hab. simpl.
  apply Qlt_le_weak, Hp. apply (consecutive_In _ _ _ Hab).
Qed.

(** The element table of a created model runs from the top down. *)
Lemma created_elements_descend (name : string) (pile : Pile.t)
    (soil : option SoilProfile.t) (x2mesh : list Q) (c : Q) (m : Model.t) :
  Model.create name pile soil x2mesh c = Returned m ->
  key_descends x_top (Model.element_coordinates m).
Proof.
  intros Hcreate.
  destruct (create_inv _ _ _ _ _ _ Hcreate) as (sp & x & _ & Hx & _ & -> & _).
  apply key_descends_map. simpl.
  pose proof (consecutive_tops_descend x (mesh_x_descending _ _ _ Hx)) as Hd.
  unfold key_descends in *.
  induction Hd as [|ab l Hl IH Hall]; [constructor|].
  constructor; [exact IH|].
  rewrite List.Forall_forall in Hall |- *. intros cd Hcd.
  apply round3_mono, Hall, Hcd.
Qed.

(** C6 (as amended).  In a model built on a soil profile that passed its
    validator, every element whose top is at or below the ground surface
    has, as vertical effective stress at its bottom, the sum of thickness
    times unit weight over the elements from the ground surface down to and
    including itself, and at its top the same sum without itself, which is
    zero for the element at the ground surface.  The unit weight of such an
    element is that of the layer whose top is the nearest at or above the
    top of the element, less exactly 10 when the top of the element is at
    or below the water elevation.  An element whose top is above the ground
    surface has no unit weight and no stress (NaN). *)
Theorem vertical_stress_is_cumulative (name : string) (pile : Pile.t)
    (sp : SoilProfile.t) (x2mesh : list Q) (c : Q) (m : Model.t)
    (i : nat) (row : soil_row) :
  SoilProfile.check_layers_elevations sp = Returned tt ->
  Model.create name pile (Some sp) x2mesh c = Returned m ->
  Model.soil_properties m !! i = Some row ->
  (exists e, Model.element_coordinates m !! i = Some e
             /\ sp_x_top row = x_top e /\ sp_x_bottom row = x_bottom e)
  /\ (sp_x_top row <= SoilProfile.top_elevation sp ->
      (exists l,
         In l (SoilProfile.layers sp)
         /\ sp_x_top row <= Layer.top l
         /\ (forall l', In l' (SoilProfile.layers sp) ->
                        sp_x_top row <= Layer.top l' ->
                        Layer.top l <= Layer.top l')
         /\ sp_unit_weight row
            = Some (if Qle_bool (sp_x_top row) (SoilProfile.water_elevation sp)
                    then Layer.weight l - 10 else Layer.weight l))
      /\ (exists top bottom,
            sp_sigma_v_top row = Some top
            /\ sp_sigma_v_bottom row = Some bottom
            /\ top == overburden (take i (Model.soil_properties m))
            /\ bottom == overburden (take (S i) (Model.soil_properties m))))
  /\ (SoilProfile.top_elevation sp < sp_x_top row ->
      sp_unit_weight row = None
      /\ sp_sigma_v_top row = None
      /\ sp_sigma_v_bottom row = None).
Proof.
  intros Hvalid Hcreate Hrow.
  pose proof (created_elements_descend _ _ _ _ _ _ Hcreate) as Hdesc.
  destruct (create_inv _ _ _ _ _ _ Hcreate) as (sp' & x & Hsp & _ & _ & _ & Hrows & _).
  split; [|split].
  - apply (soil_row_element sp _ _ Hdesc Hrows i row Hrow).
  - intros Hbelow. split.
    + apply (soil_row_weight sp _ _ Hdesc Hrows Hvalid i row Hrow Hbelow).
    + apply (soil_row_stress sp _ _ Hdesc Hrows Hvalid i row Hrow Hbelow).
  - intros Habove.
    apply (soil_row_above_ground sp _ _ Hdesc Hrows Hvalid i row Hrow Habove).
Qed.

(** The amended C6 at work on the pile that stands out of the ground: the
    third element of the mesh, from -5 to -10, is the second one below the
    ground. *)
Lemma vertical_stress_is_cumulative_witness :
  exists m row,
    tall_created = Returned m
    /\ Model.soil_properties m !! 2%nat = Some row
    /\ (exists e, Model.element_coordinates m !! 2%nat = Some e
                  /\ sp_x_top row = x_top e /\ sp_x_bottom row = x_bottom e)
    /\ (sp_x_top row <= SoilProfile.top_elevation layered_soil ->
        (exists l,
           In l (SoilProfile.layers layered_soil)
           /\ sp_x_top row <= Layer.top l
           /\ (forall l', In l' (SoilProfile.layers layered_soil) ->
                          sp_x_top row <= Layer.top l' ->
                          Layer.top l <= Layer.top l')
           /\ sp_unit_weight row
              = Some (if Qle_bool (sp_x_top row)
                           (SoilProfile.water_elevation layered_soil)
                      then Layer.weight l - 10 else Layer.weight l))
        /\ (exists top bottom,
              sp_sigma_v_top row = Some top
              /\ sp_sigma_v_bottom row = Some bottom
              /\ top == overburden (take 2 (Model.soil_properties m))
              /\ bottom == overburden (take 3 (Model.soil_properties m))))
    /\ (SoilProfile.top_elevation layered_soil < sp_x_top row ->
        sp_unit_weight row = None
        /\ sp_sigma_v_top row = None
        /\ sp_sigma_v_bottom row = None).
Proof.
  eexists. eexists. split; [vm_compute; reflexivity|].
  split; [reflexivity|].
  apply (vertical_stress_is_cumulative "Tall" tall_pile layered_soil [] 5).
  - vm_compute. reflexivity.
  - vm_compute. reflexivity.
  - reflexivity.
Defined.

(** C6 as stated fails.  On the pile that stands out of the ground, the
    first element, from 5 down to 0, is above the ground and has no stress
    at its top nor at its bottom; the second element, from 0 down to -5,
    reaches below the water table at -3 and still has the full unit weight
    of its layer, 18, because its top is above the water. *)
Lemma stress_undefined_above_ground :
  exists m above across,
    tall_created = Returned m
    /\ Model.soil_properties m !! 0%nat = Some above
    /\ sp_x_top above == 5 /\ sp_x_bottom above == 0
    /\ sp_sigma_v_top above = None
    /\ sp_sigma_v_bottom above = None
    /\ Model.soil_properties m !! 1%nat = Some across
    /\ sp_x_top across == 0 /\ sp_x_bottom across == -5
    /\ sp_x_bottom across < SoilProfile.water_elevation layered_soil
    /\ sp_unit_weight across = Some 18.
Proof.
  eexists. eexists. eexists. split; [vm_compute; reflexivity|].
  repeat (split; [reflexivity|]). reflexivity.
Qed.

(** The numbers of that mesh: 18 above the water table, 8 below it in the
    sand and 9 in the clay; no stress above the ground. *)
Example tall_pile_stresses :
  exists m,
    tall_created = Returned m
    /\ map (fun r => (Qred (sp_x_top r), option_map Qred (sp_unit_weight r),
                      option_map Qred (sp_sigma_v_top r),
                      option_map Qred (sp_sigma_v_bottom r)))
         (Model.soil_properties m)
       = [ (5, None, None, None);
           (0, Some 18, Some 0, Some 90);
           (-5, Some 8, Some 90, Some 130);
           (-10, Some 8, Some 130, Some 170);
           (-15, Some 8, Some 170, Some 210);
           (-20, Some 9, Some 210, Some 255);
           (-25, Some 9, Some 255, Some 300);
           (-30, Some 9, Some 300, Some 345) ].
Proof.
  eexists. split; vm_compute; reflexivity.
Qed.


(** * Further properties *)

(** ** Boundary-condition setters, continued *)

Lemma any_lookup_true (check : list bool) (i : nat) :
  check !! i = Some true -> any check = true.
Proof.
  unfold any. revert i. induction check as [|b rest IH]; intros i Hi.
  - discriminate.
  - destruct i as [|i]; simpl in *.
    + injection Hi as ->. reflexivity.
    + rewrite (IH i Hi). apply orb_true_r.
Qed.

Lemma node_check_lookup (self : Model.t) (elevation : Q) (i : nat) :
  node_check self elevation !! i
  = (fun n => isclose (x_m n) elevation (1 # 1000))
    <$> Model.nodes_coordinates self !! i.
Proof.
  unfold node_check. rewrite map_map. apply list_lookup_fmap.
Qed.

(** How a call of a setter that returns has gone: either no node matched
    and the model is handed back as it was, or exactly one node matched and
    nothing was printed. *)
Lemma apply_call_returned (self m1 : Model.t) (elevation : Q) (c : bc_call)
    (out : printed) :
  apply_call self elevation c = (out, Returned m1) ->
  (any (node_check self elevation) = false /\ m1 = self)
  \/ (out = [] /\ any (node_check self elevation) = true
      /\ exists node_idx, np_where (node_check self elevation) = [node_idx]).
Proof.
  intros Hcall.
  destruct (any (node_check self elevation)) eqn:Hany.
  - right.
    destruct (np_where (node_check self elevation)) as [|i [|j rest]] eqn:Hidx.
    + destruct c; simpl in Hcall;
        unfold set_pointload, set_pointdisplacement, set_support in Hcall;
        rewrite Hany, Hidx in Hcall; discriminate.
    + rewrite (apply_call_matched _ _ c i Hany Hidx) in Hcall.
      injection Hcall as <- _. split; [reflexivity|]. split; [reflexivity|].
      exists i. reflexivity.
    + destruct c; simpl in Hcall;
        unfold set_pointload, set_pointdisplacement, set_support in Hcall;
        rewrite Hany, Hidx in Hcall; discriminate.
  - left. split; [reflexivity|].
    rewrite (apply_call_unmatched _ _ _ Hany) in Hcall.
    unfold report_unmatched, try_except_raise in Hcall.
    destruct (iloc_first (Model.nodes_coordinates self)); simpl in Hcall;
      try discriminate.
    destruct (Qgt_bool elevation a); simpl in Hcall;
      [injection Hcall as _ <-; reflexivity|].
    destruct (iloc_last (Model.nodes_coordinates self)); simpl in Hcall;
      try discriminate.
    destruct (Qlt_bool elevation a0); simpl in Hcall;
      injection Hcall as _ <-; reflexivity.
Qed.

(** Two positions that hold [true] make [np.where] return an array that
    [int] refuses. *)
Lemma np_where_two (check : list bool) (i j : nat) :
  i <> j -> check !! i = Some true -> check !! j = Some true ->
  int_of_array (np_where check) = Raised TypeError.
Proof.
  intros Hne Hi Hj.
  apply np_where_spec in Hi. apply np_where_spec in Hj.
  destruct (np_where check) as [|a [|b rest]]; simpl in *; try reflexivity.
  destruct Hi as [<-|[]]. destruct Hj as [<-|[]]. congruence.
Qed.

(** X1.  When two nodes lie within the tolerance of the requested elevation,
    which happens when the mesh is finer than the tolerance or when rounding
    has brought two nodes together, no boundary condition is applied: the
    conversion of the two matches to one node number raises [TypeError],
    the setter prints its "please create the Model first" line and lets the
    exception through. *)
Theorem setter_ambiguous_elevation_raises
    (self : Model.t) (elevation : Q) (c : bc_call) (i j : nat)
    (ni nj : node_row) :
  i <> j ->
  Model.nodes_coordinates self !! i = Some ni ->
  Model.nodes_coordinates self !! j = Some nj ->
  isclose (x_m ni) elevation (1 # 1000) = true ->
  isclose (x_m nj) elevation (1 # 1000) = true ->
  apply_call self elevation c = ([UserInputError], Raised TypeError).
Proof.
  intros Hne Hi Hj Hci Hcj.
  assert (Hli : node_check self elevation !! i = Some true)
    by (rewrite node_check_lookup, Hi; simpl; congruence).
  assert (Hlj : node_check self elevation !! j = Some true)
    by (rewrite node_check_lookup, Hj; simpl; congruence).
  pose proof (any_lookup_true _ _ Hli) as Hany.
  pose proof (np_where_two _ _ _ Hne Hli Hlj) as Hint.
  destruct c; simpl;
    unfold set_pointload, set_pointdisplacement, set_support;
    rewrite Hany, Hint; reflexivity.
Qed.

(** A 10 m pile with 9.9995 m added to the mesh: rounded to three
    decimals the toe appears twice, and a support asked for at the toe is
    refused. *)
Lemma setter_ambiguous_elevation_raises_witness :
  exists m,
    Model.create "Short" short_pile (Some short_soil) [-99995 # 10000] 10
    = Returned m
    /\ map x_m (Model.nodes_coordinates m) = [0 / 1000; -10000 / 1000; -10000 / 1000]
    /\ apply_call m (-10) (Support true true false)
       = ([UserInputError], Raised TypeError).
Proof.
  eexists. split; [vm_compute; reflexivity|].
  split; [vm_compute; reflexivity|].
  eapply (setter_ambiguous_elevation_raises _ (-10) _ 1 2).
  - lia.
  - reflexivity.
  - reflexivity.
  - vm_compute. reflexivity.
  - vm_compute. reflexivity.
Defined.


(** A setter call that returns leaves the node, element and soil tables
    alone. *)
Lemma setter_rows_kept (self m1 : Model.t) (elevation : Q) (c : bc_call)
    (out : printed) :
  apply_call self elevation c = (out, Returned m1) ->
  Model.nodes_coordinates m1 = Model.nodes_coordinates self
  /\ Model.element_coordinates m1 = Model.element_coordinates self
  /\ Model.soil_properties m1 = Model.soil_properties self.
Proof.
  intros Hcall.
  destruct (apply_call_returned _ _ _ _ _ Hcall)
    as [[_ ->]|(-> & Hany & g & Hidx)].
  - auto.
  - rewrite (apply_call_matched _ _ c g Hany Hidx) in Hcall.
    injection Hcall as <-. destruct c; auto.
Qed.

(** X2.  A setter call that returns touches nothing but the row of the node
    it matched: the node, element and soil tables are as before, every row
    of the three boundary-condition tables that belongs to a node outside
    the tolerance is as before, and the tables of the other kinds of
    boundary condition are untouched as a whole (a load leaves prescribed
    displacements and supports alone, a support or a prescribed displacement
    leaves the loads alone, a support leaves the prescribed displacements
    alone). *)
Theorem setter_touches_only_matched_row
    (self m1 : Model.t) (elevation : Q) (c : bc_call) (out : printed) :
  apply_call self elevation c = (out, Returned m1) ->
  Model.nodes_coordinates m1 = Model.nodes_coordinates self
  /\ Model.element_coordinates m1 = Model.element_coordinates self
  /\ Model.soil_properties m1 = Model.soil_properties self
  /\ (forall k n,
        Model.nodes_coordinates self !! k = Some n ->
        isclose (x_m n) elevation (1 # 1000) = false ->
        Model.global_forces m1 !! k = Model.global_forces self !! k
        /\ Model.global_disp m1 !! k = Model.global_disp self !! k
        /\ Model.global_restrained m1 !! k = Model.global_restrained self !! k)
  /\ match c with
     | PointLoad _ _ _ =>
         Model.global_disp m1 = Model.global_disp self
         /\ Model.global_restrained m1 = Model.global_restrained self
     | PointDisplacement _ _ _ =>
         Model.global_forces m1 = Model.global_forces self
     | Support _ _ _ =>
         Model.global_forces m1 = Model.global_forces self
         /\ Model.global_disp m1 = Model.global_disp self
     end.
Proof.
  intros Hcall.
  destruct (apply_call_returned _ _ _ _ _ Hcall)
    as [[_ ->]|(-> & Hany & g & Hidx)].
  - repeat split; try reflexivity. destruct c; repeat split; reflexivity.
  - rewrite (apply_call_matched _ _ c g Hany Hidx) in Hcall.
    injection Hcall as <-.
    split; [destruct c; reflexivity|]. split; [destruct c; reflexivity|].
    split; [destruct c; reflexivity|]. split.
    + intros k n Hk Hfar.
      assert (Hgk : g <> k).
      { intros ->. destruct (matched_node_is_close _ _ _ Hidx) as (n' & Hn' & Hc).
        congruence. }
      destruct c as [Py Px Mz|Ty Tx Rz|Ty Tx Rz]; simpl;
        unfold loc_set_if, loc_set_restrained_if;
        repeat match goal with
               | |- context [match ?o with Some _ => _ | None => _ end] =>
                   destruct o
               end;
        rewrite ?(list_lookup_alter_ne _ _ g k Hgk); repeat split; reflexivity.
    + destruct c; repeat split; reflexivity.
Qed.

(** A load at the head of the example pile leaves the row of the node at
    -10 and the support table as they were. *)
Lemma setter_touches_only_matched_row_witness :
  exists m m1,
    example_created = Returned m
    /\ apply_call m 0 (PointLoad (Some 100) None None) = ([], Returned m1)
    /\ Model.global_forces m1 !! 1%nat = Model.global_forces m !! 1%nat
    /\ Model.global_restrained m1 = Model.global_restrained m.
Proof.
  eexists. eexists. split; [vm_compute; reflexivity|].
  split; [vm_compute; reflexivity|].
  match goal with
  | |- Model.global_forces ?m1 !! _ = Model.global_forces ?m !! _ /\ _ =>
      destruct (setter_touches_only_matched_row m m1 0
                  (PointLoad (Some 100) None None) [])
        as (_ & _ & _ & Hrows & _ & Hrestrained)
  end.
  - vm_compute. reflexivity.
  - split; [|exact Hrestrained].
    apply (Hrows 1%nat (mk_node (-10000 / 1000) (0 / 1000))).
    + vm_compute. reflexivity.
    + vm_compute. reflexivity.
Defined.

(** The boundary-condition tables of a model that has just been created:
    one row per node, nothing applied. *)
Lemma create_tables (name : string) (pile : Pile.t) (soil : option SoilProfile.t)
    (x2mesh : list Q) (c : Q) (m : Model.t) :
  Model.create name pile soil x2mesh c = Returned m ->
  Model.global_forces m
  = map (fun n => mk_force n 0 0 0) (Model.nodes_coordinates m)
  /\ Model.global_disp m
     = map (fun n => mk_disp n 0 0 0) (Model.nodes_coordinates m)
  /\ Model.global_restrained m
     = map (fun n => mk_restrained n false false false)
         (Model.nodes_coordinates m)
  /\ Model.element_number m = List.length (Model.element_coordinates m).
Proof.
  unfold Model.create, Model.soil_and_pile_bottom_elevation_match.
  destruct soil as [sp|]; [|discriminate].
  destruct (Qlt_bool _ _); [discriminate|]. unfold bind at 1.
  destruct (Model.get_coordinates _ _ _ _) as [[nodes element]| |];
    try discriminate.
  unfold bind at 1. cbn [fst snd].
  destruct (Model.make_soil_properties element (Some sp)) as [rows| |];
    try discriminate.
  unfold bind. intros Heq. injection Heq as <-. cbn.
  repeat split; reflexivity.
Qed.

Lemma create_tables_aligned (name : string) (pile : Pile.t)
    (soil : option SoilProfile.t) (x2mesh : list Q) (c : Q) (m : Model.t) :
  Model.create name pile soil x2mesh c = Returned m -> tables_aligned m.
Proof.
  intros Hcreate.
  destruct (create_tables _ _ _ _ _ _ Hcreate) as (Hf & Hd & Hr & _).
  unfold tables_aligned. rewrite Hf, Hd, Hr, !length_map. auto.
Qed.

Lemma apply_call_returned_aligned (self m1 : Model.t) (elevation : Q)
    (c : bc_call) (out : printed) :
  tables_aligned self ->
  apply_call self elevation c = (out, Returned m1) ->
  tables_aligned m1.
Proof.
  intros Haligned Hcall.
  destruct (apply_call_returned _ _ _ _ _ Hcall) as [[_ ->]|(-> & _ & _)].
  - exact Haligned.
  - apply (apply_call_keeps_aligned _ _ _ _ Haligned Hcall).
Qed.

Lemma apply_calls_invariant (self m' : Model.t) (calls : list (Q * bc_call))
    (out : printed) :
  tables_aligned self ->
  apply_calls self calls = (out, Returned m') ->
  Model.nodes_coordinates m' = Model.nodes_coordinates self
  /\ Model.element_coordinates m' = Model.element_coordinates self
  /\ Model.soil_properties m' = Model.soil_properties self
  /\ tables_aligned m'.
Proof.
  revert self out. induction calls as [|[elevation c] rest IH];
    intros self out Haligned Hcalls; simpl in Hcalls.
  - injection Hcalls as _ <-. auto.
  - destruct (apply_call self elevation c) as [o [m1|e|]] eqn:Hcall;
      try discriminate.
    destruct (apply_calls m1 rest) as [o' r] eqn:Hrest. simpl in Hcalls.
    injection Hcalls as _ ->.
    pose proof (apply_call_returned_aligned _ _ _ _ _ Haligned Hcall) as Ha1.
    destruct (setter_rows_kept self m1 elevation c o Hcall) as (Hn & He & Hs).
    destruct (IH _ _ Ha1 Hrest) as (Hn' & He' & Hs' & Ha').
    rewrite Hn', He', Hs'. auto.
Qed.

(** X3.  The tables of a model stay in step through any script of setter
    calls: from a model that [Model.create] has returned, whatever calls are
    made and whether they find their node or are rejected with a printed
    line, as long as none raises, the model that results has the node,
    element and soil tables of the start and its force, displacement and
    restraint tables still have one row per node. *)
Theorem setter_scripts_keep_tables_aligned
    (name : string) (pile : Pile.t) (soil : option SoilProfile.t)
    (x2mesh : list Q) (c : Q) (m m' : Model.t) (calls : list (Q * bc_call))
    (out : printed) :
  Model.create name pile soil x2mesh c = Returned m ->
  apply_calls m calls = (out, Returned m') ->
  Model.nodes_coordinates m' = Model.nodes_coordinates m
  /\ Model.element_coordinates m' = Model.element_coordinates m
  /\ Model.soil_properties m' = Model.soil_properties m
  /\ tables_aligned m'.
Proof.
  intros Hcreate Hcalls.
  apply (apply_calls_invariant m m' calls out); [|exact Hcalls].
  apply (create_tables_aligned _ _ _ _ _ _ Hcreate).
Qed.

(** A load at the head, a support asked for where there is no node, and a
    support at the toe of the example pile. *)
Lemma setter_scripts_keep_tables_aligned_witness :
  exists m m',
    example_created = Returned m
    /\ apply_calls m
         [ (0, PointLoad (Some 100) None None);
           (-35, Support true true false);
           (-40, Support true true false) ]
       = ([SupportNotMeshed], Returned m')
    /\ Model.nodes_coordinates m' = Model.nodes_coordinates m
    /\ Model.element_coordinates m' = Model.element_coordinates m
    /\ Model.soil_properties m' = Model.soil_properties m
    /\ tables_aligned m'.
Proof.
  eexists. eexists. split; [vm_compute; reflexivity|].
  split; [vm_compute; reflexivity|].
  match goal with
  | |- Model.nodes_coordinates ?m' = Model.nodes_coordinates ?m /\ _ =>
      apply (setter_scripts_keep_tables_aligned "Example" example_pile
               (Some example_soil) [] 10 m m'
               [ (0, PointLoad (Some 100) None None);
                 (-35, Support true true false);
                 (-40, Support true true false) ]
               [SupportNotMeshed])
  end.
  - vm_compute. reflexivity.
  - vm_compute. reflexivity.
Defined.

(** Writes into rows of different nodes can be swapped. *)
Lemma alter_ne {A : Type} (i j : nat) (Hne : i <> j) (f g : A -> A)
    (l : list A) :
  alter f i (alter g j l) = alter g j (alter f i l).
Proof. apply list_alter_alter_ne. exact Hne. Qed.

Lemma node_check_same_nodes (m1 m2 : Model.t) (elevation : Q) :
  Model.nodes_coordinates m1 = Model.nodes_coordinates m2 ->
  node_check m1 elevation = node_check m2 elevation.
Proof. unfold node_check. intros ->. reflexivity. Qed.

(** X4.  Boundary conditions declared at two different nodes do not
    interfere: two setter calls that each find their node, at different
    nodes, can be made in either order and leave the same model. *)
Theorem setters_at_distinct_nodes_commute
    (self m1 m12 : Model.t) (e1 e2 : Q) (c1 c2 : bc_call) (g1 g2 : nat) :
  np_where (node_check self e1) = [g1] ->
  np_where (node_check self e2) = [g2] ->
  g1 <> g2 ->
  apply_call self e1 c1 = ([], Returned m1) ->
  apply_call m1 e2 c2 = ([], Returned m12) ->
  exists m2,
    apply_call self e2 c2 = ([], Returned m2)
    /\ apply_call m2 e1 c1 = ([], Returned m12).
Proof.
  intros Hg1 Hg2 Hne H1 H2.
  assert (Hne' : g2 <> g1) by congruence.
  pose proof (apply_call_keeps_nodes _ _ _ _ H1) as Hnodes1.
  destruct (apply_call_silent _ _ _ _ H1) as (Hany1 & _).
  destruct (apply_call_silent _ _ _ _ H2) as (Hany2 & _).
  rewrite (node_check_same_nodes m1 self e2 Hnodes1) in Hany2.
  rewrite (apply_call_matched _ _ c1 g1 Hany1 Hg1) in H1.
  injection H1 as <-.
  rewrite (apply_call_matched _ _ c2 g2) in H2;
    [|rewrite <- Hany2; f_equal; apply node_check_same_nodes; destruct c1; reflexivity
     |rewrite <- Hg2; f_equal; apply node_check_same_nodes; destruct c1; reflexivity].
  injection H2 as <-.
  eexists. split; [apply (apply_call_matched _ _ c2 g2 Hany2 Hg2)|].
  rewrite (apply_call_matched _ _ c1 g1);
    [|rewrite <- Hany1; f_equal; apply node_check_same_nodes; destruct c2; reflexivity
     |rewrite <- Hg1; f_equal; apply node_check_same_nodes; destruct c2; reflexivity].
  f_equal. f_equal.
  destruct c1 as [Py1 Px1 Mz1|Ty1 Tx1 Rz1|Ty1 Tx1 Rz1],
           c2 as [Py2 Px2 Mz2|Ty2 Tx2 Rz2|Ty2 Tx2 Rz2];
    unfold with_global_forces, with_global_disp, with_global_restrained;
    simpl; f_equal;
    unfold loc_set_if, loc_set_restrained_if;
    repeat match goal with
           | |- context [match ?o with Some _ => _ | None => _ end] =>
               destruct o
           end;
    rewrite ?(alter_ne g2 g1 Hne'); reflexivity.
Qed.

(** A load at the head and a support at the toe of the example pile, in
    either order. *)
Lemma setters_at_distinct_nodes_commute_witness :
  exists m m1 m12,
    example_created = Returned m
    /\ apply_call m 0 (PointLoad (Some 100) None None) = ([], Returned m1)
    /\ apply_call m1 (-40) (Support true true false) = ([], Returned m12)
    /\ exists m2,
         apply_call m (-40) (Support true true false) = ([], Returned m2)
         /\ apply_call m2 0 (PointLoad (Some 100) None None)
            = ([], Returned m12).
Proof.
  eexists. eexists. eexists. split; [vm_compute; reflexivity|].
  split; [vm_compute; reflexivity|]. split; [vm_compute; reflexivity|].
  match goal with
  | |- exists m2, apply_call ?m _ _ = _ /\ apply_call _ _ _ = (_, Returned ?m12) =>
      apply (setters_at_distinct_nodes_commute m
               (with_global_forces m
                  (alter (set_Py 100) 0%nat (Model.global_forces m)))
               m12 0 (-40) (PointLoad (Some 100) None None)
               (Support true true false) 0%nat 4%nat)
  end.
  - vm_compute. reflexivity.
  - vm_compute. reflexivity.
  - lia.
  - vm_compute. reflexivity.
  - vm_compute. reflexivity.
Defined.

(** ** [get_pointload] *)

Lemma alter_middle {A : Type} (f : A -> A) (l : list A) (i : nat) (x : A) :
  l !! i = Some x -> alter f i l = take i l ++ f x :: drop (S i) l.
Proof.
  revert i. induction l as [|a l IH]; intros i Hi; [discriminate|].
  destruct i as [|i]; simpl in *.
  - injection Hi as ->. reflexivity.
  - f_equal. apply IH. exact Hi.
Qed.

(** The three conditional writes of [set_pointload] as one write. *)
Lemma set_pointload_row (Py Px Mz : option Q) (g : nat) (t : list force_row) :
  loc_set_if set_Mz Mz g (loc_set_if set_Py Py g (loc_set_if set_Px Px g t))
  = alter (fun r => mk_force (f_node r) (default (Px_kN r) Px)
                      (default (Py_kN r) Py) (default (Mz_kNm r) Mz)) g t.
Proof.
  destruct Px, Py, Mz; simpl; rewrite ?list_alter_alter_eq;
    first [ apply list_alter_ext; [intros [] _; reflexivity | reflexivity]
          | symmetry; apply list_alter_id; intros []; reflexivity ].
Qed.

Lemma pointload_lines_from_app (k : nat) (l1 l2 : list force_row) :
  pointload_lines_from k (l1 ++ l2)
  = pointload_lines_from k l1
    ++ pointload_lines_from (k + List.length l1) l2.
Proof.
  revert k. induction l1 as [|r l1 IH]; intros k; simpl.
  - rewrite Nat.add_0_r. reflexivity.
  - rewrite IH. replace (S k + List.length l1)%nat
      with (k + S (List.length l1))%nat by lia.
    destruct (truthy _ || truthy _ || truthy _); reflexivity.
Qed.

Lemma pointload_lines_from_none (k : nat) (rows : list force_row) :
  Forall (fun r => Px_kN r = 0 /\ Py_kN r = 0 /\ Mz_kNm r = 0) rows ->
  pointload_lines_from k rows = [].
Proof.
  intros Hall. revert k. induction Hall as [|r rows (Hx & Hy & Hz) _ IH];
    intros k; simpl; [reflexivity|].
  rewrite Hx, Hy, Hz. simpl. apply IH.
Qed.

Lemma fresh_forces_zero (nodes : list node_row) :
  Forall (fun r => Px_kN r = 0 /\ Py_kN r = 0 /\ Mz_kNm r = 0)
    (map (fun n => mk_force n 0 0 0) nodes).
Proof.
  induction nodes as [|n nodes IH]; simpl; constructor; auto.
Qed.

(** X5.  [get_pointload] reads back what [set_pointload] wrote.  On a model
    that has just been created it reports nothing; after one call of
    [set_pointload] that found its node it reports exactly one line, for
    that node, with the elevation of the node (not the elevation asked for),
    the components given and zero for the others; and it reports nothing
    when every component given is zero. *)
Theorem get_pointload_reads_back
    (name : string) (pile : Pile.t) (soil : option SoilProfile.t)
    (x2mesh : list Q) (c : Q) (m m1 : Model.t) (elevation : Q)
    (Py Px Mz : option Q) :
  Model.create name pile soil x2mesh c = Returned m ->
  apply_call m elevation (PointLoad Py Px Mz) = ([], Returned m1) ->
  get_pointload m true true = ([], Some [])
  /\ exists node_idx n,
       Model.nodes_coordinates m !! node_idx = Some n
       /\ isclose (x_m n) elevation (1 # 1000) = true
       /\ let px := default 0 Px in
          let py := default 0 Py in
          let mz := default 0 Mz in
          let lines :=
            if truthy px || truthy py || truthy mz
            then [LoadAppliedAt (x_m n) node_idx px py mz] else [] in
          get_pointload m1 true true = (lines, Some lines).
Proof.
  intros Hcreate Hcall.
  destruct (create_tables _ _ _ _ _ _ Hcreate) as (Hforces & _).
  pose proof (fresh_forces_zero (Model.nodes_coordinates m)) as Hzero.
  rewrite <- Hforces in Hzero.
  split.
  { unfold get_pointload.
    rewrite (pointload_lines_from_none _ _ Hzero). reflexivity. }
  destruct (apply_call_silent _ _ _ _ Hcall) as (Hany & g & Hidx).
  destruct (matched_node_is_close _ _ _ Hidx) as (n & Hn & Hclose).
  exists g, n. split; [exact Hn|]. split; [exact Hclose|].
  rewrite (apply_call_matched _ _ _ g Hany Hidx) in Hcall.
  injection Hcall as <-.
  assert (Hrow : Model.global_forces m !! g = Some (mk_force n 0 0 0))
    by (rewrite Hforces; change (map ?f ?l) with (f <$> l);
        rewrite list_lookup_fmap, Hn; reflexivity).
  pose proof (lookup_lt_Some _ _ _ Hrow) as Hlt.
  unfold get_pointload. cbn [Model.global_forces with_global_forces].
  rewrite set_pointload_row, (alter_middle _ _ g _ Hrow).
  rewrite pointload_lines_from_app.
  rewrite (pointload_lines_from_none _ _ (Forall_take _ g _ Hzero)).
  rewrite length_take.
  replace (0 + g `min` List.length (Model.global_forces m))%nat with g by lia.
  cbn [pointload_lines_from Px_kN Py_kN Mz_kNm f_node app].
  rewrite (pointload_lines_from_none _ _ (Forall_drop _ (S g) _ Hzero)).
  cbv zeta.
  destruct (truthy (default 0 Px) || truthy (default 0 Py)
            || truthy (default 0 Mz)); reflexivity.
Qed.

(** A shear load of 100 asked for at -30.0012 on the example pile is
    reported at the node it went to, at -30. *)
Lemma get_pointload_reads_back_witness :
  exists m m1,
    example_created = Returned m
    /\ apply_call m (-300012 # 10000) (PointLoad (Some 100) None None)
       = ([], Returned m1)
    /\ get_pointload m true true = ([], Some [])
    /\ get_pointload m1 true true
       = ([LoadAppliedAt (-30000 / 1000) 3 0 100 0],
          Some [LoadAppliedAt (-30000 / 1000) 3 0 100 0]).
Proof.
  eexists. eexists. split; [vm_compute; reflexivity|].
  split; [vm_compute; reflexivity|].
  match goal with
  | |- get_pointload ?m _ _ = _ /\ get_pointload ?m1 _ _ = _ =>
      destruct (get_pointload_reads_back "Example" example_pile
                  (Some example_soil) [] 10 m m1 (-300012 # 10000)
                  (Some 100) None None)
        as (Hfresh & g & n & Hn & _ & Hlines)
  end.
  - vm_compute. reflexivity.
  - vm_compute. reflexivity.
  - split; [exact Hfresh|]. vm_compute. reflexivity.
Defined.

(** ** The Winkler loop, continued *)

Section loop_edges.

Context `{Kernel}.
Variable model : Model.t.

(** X6.  A budget below zero: the loop body is never entered, [Q] is never
    bound, and the code after the loop fails on it; nothing is printed. *)
Theorem negative_budget_raises (max_iter : Z) (sp : SoilProfile.t) :
  Model.soil model = Some sp ->
  (max_iter < 0)%Z ->
  simple_winkler_analysis model max_iter = ([], Raised UnboundLocalError).
Proof.
  intros Hsoil Hneg. unfold simple_winkler_analysis. rewrite Hsoil.
  replace (Z.to_nat (max_iter + 1)) with 0%nat by lia.
  simpl. destruct (0 <=? max_iter)%Z eqn:Hguard; [apply Z.leb_le in Hguard; lia|].
  reflexivity.
Qed.

(** X7.  A singular system in the very first solve: the failure line is
    printed and the loop is left, but no reactions have been computed yet
    and the code that builds the result raises [UnboundLocalError] instead
    of returning. *)
Theorem singular_first_solve_raises (max_iter : Z) (sp : SoilProfile.t) :
  Model.soil model = Some sp ->
  (0 <= max_iter)%Z ->
  solve_equations (st_K (initial_state model)) (st_Rg (initial_state model))
    (st_U (initial_state model)) (global_supports model)
  = Raised LinAlgError ->
  simple_winkler_analysis model max_iter
  = ([CannotConverge], Raised UnboundLocalError).
Proof.
  intros Hsoil Hpos Hsolve. unfold simple_winkler_analysis. rewrite Hsoil.
  replace (Z.to_nat (max_iter + 1)) with (S (Z.to_nat max_iter)) by lia.
  cbn [while_loop].
  replace (st_iter_no (initial_state model) <=? max_iter)%Z with true
    by (symmetry; apply Z.leb_le; simpl; lia).
  unfold loop_body. rewrite Hsolve. reflexivity.
Qed.

(** What a run of passes prints: the "not converged" line once the pass
    with iteration number 100 has reached the bottom of the body, and
    nothing else. *)
Lemma run_passes_out (max_iter : Z) (n : nat) (out0 out : printed)
    (st0 st : loop_state) :
  run_passes model max_iter n out0 st0 = Some (out, st) ->
  out = out0
        ++ (if ((st_iter_no st0 <=? 100) && (100 <? st_iter_no st0 + Z.of_nat n))%Z
            then [NotConvergedAfter100] else []).
Proof.
  revert out0 st0. induction n as [|n IH]; intros out0 st0 Hrun;
    simpl in Hrun.
  - injection Hrun as <- <-.
    destruct (Z.leb_spec (st_iter_no st0) 100),
             (Z.ltb_spec 100 (st_iter_no st0 + Z.of_nat 0));
      simpl; rewrite ?app_nil_r; try reflexivity; lia.
  - destruct (st_iter_no st0 <=? max_iter)%Z; [|discriminate].
    destruct (loop_body model st0) as [o s| | |] eqn:Hbody; try discriminate.
    destruct (loop_body_continue_iter _ _ _ _ Hbody) as [Hiter _].
    rewrite (loop_body_continue_out _ _ _ _ Hbody) in Hrun.
    rewrite (IH _ _ Hrun), Hiter, <- app_assoc. f_equal.
    destruct (Z.eqb_spec (st_iter_no st0) 100),
             (Z.leb_spec (st_iter_no st0 + 1) 100),
             (Z.ltb_spec 100 (st_iter_no st0 + 1 + Z.of_nat n)),
             (Z.leb_spec (st_iter_no st0) 100),
             (Z.ltb_spec 100 (st_iter_no st0 + Z.of_nat (S n)));
      simpl; try reflexivity; lia.
Qed.

(** X8.  The "Not converged after 100 iterations." line belongs to the
    iteration number 100, not to the budget.  A run of passes that all reach
    the bottom of the body prints that line when it is longer than 100
    passes and prints nothing otherwise; and when such a run uses up a
    budget [max_iter], the analysis returns the result of its last pass
    with exactly those lines: for a budget below 100, a result that did not
    converge comes back without any line. *)
Theorem not_converged_line_only_at_100 (max_iter : Z) (sp : SoilProfile.t)
    (n : nat) (out : printed) (st : loop_state) :
  Model.soil model = Some sp ->
  run_passes model max_iter n [] (initial_state model) = Some (out, st) ->
  out = (if (100 <? Z.of_nat n)%Z then [NotConvergedAfter100] else [])
  /\ (Z.of_nat n = (max_iter + 1)%Z -> (0 <= max_iter)%Z ->
      exists Q,
        st_Q st = Some Q
        /\ simple_winkler_analysis model max_iter
           = (out, Returned (Some (result_from model sp (st_d st) Q)))).
Proof.
  intros Hsoil Hrun.
  pose proof (run_passes_out _ _ _ _ _ _ Hrun) as Hout. simpl in Hout.
  split; [exact Hout|].
  intros Hn Hpos.
  destruct (run_passes_iter _ _ _ _ _ _ _ Hrun) as (Hiter & _ & HQ).
  simpl in Hiter.
  destruct (st_Q st) as [Q|] eqn:HstQ; [|exfalso; apply HQ; [lia|reflexivity]].
  exists Q. split; [reflexivity|].
  unfold simple_winkler_analysis. rewrite Hsoil.
  replace (Z.to_nat (max_iter + 1)) with (n + 0)%nat by lia.
  rewrite (while_loop_after_passes _ _ _ _ _ _ _ _ Hrun).
  cbn [while_loop].
  destruct (Z.leb_spec (st_iter_no st) max_iter); [lia|].
  unfold final_results. rewrite HstQ. reflexivity.
Qed.

End loop_edges.

(** X6 at work: the loaded short pile with a budget of -1. *)
Lemma negative_budget_raises_witness :
  exists m,
    let K := scripted_kernel idle_answer idle_answer in
    short_loaded = Returned m
    /\ simple_winkler_analysis m (-1) = ([], Raised UnboundLocalError).
Proof.
  eexists. intros K. split; [vm_compute; reflexivity|].
  apply (negative_budget_raises (H := K) _ (-1) short_soil).
  - reflexivity.
  - lia.
Defined.

(** X7 at work: a kernel that cannot solve the first system. *)
Lemma singular_first_solve_raises_witness :
  exists m,
    let K := scripted_kernel (Raised LinAlgError) idle_answer in
    short_loaded = Returned m
    /\ simple_winkler_analysis m 100
       = ([CannotConverge], Raised UnboundLocalError).
Proof.
  eexists. intros K. split; [vm_compute; reflexivity|].
  apply (singular_first_solve_raises (H := K) _ 100 short_soil).
  - reflexivity.
  - lia.
  - vm_compute. reflexivity.
Defined.

(** X8 at work: with a budget of 2 and a kernel whose solves move nothing,
    the three passes happen and the result comes back without a line. *)
Lemma not_converged_line_only_at_100_witness :
  exists m out st,
    let K := scripted_kernel idle_answer idle_answer in
    short_loaded = Returned m
    /\ run_passes m 2 3 [] (initial_state m) = Some (out, st)
    /\ out = []
    /\ (Z.of_nat 3 = (2 + 1)%Z -> (0 <= 2)%Z ->
        exists Q,
          st_Q st = Some Q
          /\ simple_winkler_analysis m 2
             = (out, Returned (Some (result_from m short_soil (st_d st) Q)))).
Proof.
  eexists. eexists. eexists. intros K.
  split; [vm_compute; reflexivity|].
  split; [vm_compute; reflexivity|].
  apply (not_converged_line_only_at_100 (H := K) _ 2 short_soil 3).
  - reflexivity.
  - vm_compute. reflexivity.
Defined.

(** ** Result tables *)

(** [reshape(-1, 3)] row by row. *)
Lemma reshape3_lookup (u : Vec) (i : nat) (a b c : Q) :
  reshape3 u !! i = Some (a, b, c)
  <-> u !! (3 * i)%nat = Some a /\ u !! (3 * i + 1)%nat = Some b
      /\ u !! (3 * i + 2)%nat = Some c.
Proof.
  revert u. induction i as [|i IH]; intros u.
  - destruct u as [|a' [|b' [|c' rest]]]; simpl;
      try (split; [discriminate | intros (H1 & H2 & H3); discriminate]).
    split.
    + intros Heq. injection Heq as -> -> ->. auto.
    + intros (H1 & H2 & H3). congruence.
  - replace (3 * S i)%nat with (S (S (S (3 * i)))) by lia.
    replace (S (S (S (3 * i))) + 1)%nat with (S (S (S (3 * i + 1)))) by lia.
    replace (S (S (S (3 * i))) + 2)%nat with (S (S (S (3 * i + 2)))) by lia.
    destruct u as [|a' [|b' [|c' rest]]];
      try (split; [intros Hx | intros (H1 & H2 & H3)]; discriminate).
    change (reshape3 (a' :: b' :: c' :: rest) !! S i) with (reshape3 rest !! i).
    rewrite IH. reflexivity.
Qed.

Lemma reshape3_length (u : Vec) (k : nat) :
  List.length u = (3 * k)%nat -> List.length (reshape3 u) = k.
Proof.
  revert u. induction k as [|k IH]; intros u Hlen.
  - destruct u; [reflexivity|discriminate].
  - destruct u as [|a [|b [|c rest]]]; simpl in Hlen; try lia.
    change (reshape3 (a :: b :: c :: rest)) with ((a, b, c) :: reshape3 rest).
    simpl. f_equal. apply IH. lia.
Qed.

(** X9.  The displacement table has one row per node, and row [i] holds the
    elevation of node [i] with entries [3i], [3i + 1] and [3i + 2] of the
    displacement vector as settlement, deflection and rotation. *)
Theorem disp_table_rows (model : Model.t) (u : Vec) :
  List.length u = (3 * List.length (Model.nodes_coordinates model))%nat ->
  List.length (disp_to_df model u) = List.length (Model.nodes_coordinates model)
  /\ forall i n,
       Model.nodes_coordinates model !! i = Some n ->
       exists tx ty rz,
         u !! (3 * i)%nat = Some tx
         /\ u !! (3 * i + 1)%nat = Some ty
         /\ u !! (3 * i + 2)%nat = Some rz
         /\ disp_to_df model u !! i = Some (x_m n, (tx, ty, rz)).
Proof.
  intros Hlen. pose proof (reshape3_length _ _ Hlen) as Hrows.
  unfold disp_to_df, result_row. split.
  - rewrite length_zip, length_map. lia.
  - intros i n Hn. pose proof (lookup_lt_Some _ _ _ Hn) as Hlt.
    destruct (lookup_lt_is_Some_2 (reshape3 u) i) as [[[tx ty] rz] Hrow];
      [lia|].
    exists tx, ty, rz.
    destruct (proj1 (reshape3_lookup _ _ _ _ _) Hrow) as (H1 & H2 & H3).
    repeat (split; [assumption|]).
    rewrite lookup_zip_with.
    change (map x_m ?l) with (x_m <$> l).
    rewrite list_lookup_fmap, Hn, Hrow. reflexivity.
Qed.

(** The head deflection of 99 of the short pile. *)
Lemma disp_table_rows_witness :
  exists m,
    short_loaded = Returned m
    /\ disp_to_df m [0; 99; 0; 0; 0; 0] !! 0%nat = Some (0 / 1000, (0, 99, 0)).
Proof.
  eexists. split; [vm_compute; reflexivity|].
  match goal with
  | |- disp_to_df ?m ?u !! _ = _ =>
      destruct (disp_table_rows m u) as (_ & Hrows); [reflexivity|];
      destruct (Hrows 0%nat (mk_node (0 / 1000) (0 / 1000)) eq_refl)
        as (tx & ty & rz & H1 & H2 & H3 & Hrow)
  end.
  simpl in H1, H2, H3. injection H1 as <-. injection H2 as <-.
  injection H3 as <-. exact Hrow.
Defined.

(** Masking leaves the test against 1e-3 as it was. *)
Lemma mask_small_above (v : Q) :
  Qgt_bool (Qabs (mask_small v)) (1 # 1000) = Qgt_bool (Qabs v) (1 # 1000).
Proof.
  unfold mask_small. destruct (Qlt_bool (Qabs v) (1 # 1000)) eqn:Hsmall;
    [|reflexivity].
  apply Qlt_bool_true in Hsmall. symmetry.
  transitivity false; [|reflexivity].
  apply Qgt_bool_false. apply Qlt_le_weak. exact Hsmall.
Qed.

Lemma mask_small_shown (value shown : Q) :
  shown = mask_small value <-> shown_as value shown.
Proof.
  unfold mask_small, shown_as.
  destruct (Qlt_bool (Qabs value) (1 # 1000)) eqn:Hsmall.
  - apply Qlt_bool_true in Hsmall. split.
    + intros ->. left. split; [exact Hsmall|reflexivity].
    + intros [[_ ->]|[Hge _]]; [reflexivity|].
      exfalso. apply (Qlt_not_le _ _ Hsmall Hge).
  - apply Qlt_bool_false in Hsmall. split.
    + intros ->. right. split; [exact Hsmall|reflexivity].
    + intros [[Hlt _]|[_ ->]]; [|reflexivity].
      exfalso. apply (Qlt_not_le _ _ Hlt Hsmall).
Qed.

(** The rows of [zip] of the node elevations with [reshape(-1, 3)], by
    node. *)
Lemma reshaped_rows (x n v m : Q) (model : Model.t) (Q : Vec) :
  In (x, (n, v, m)) (zip (map x_m (Model.nodes_coordinates model)) (reshape3 Q))
  <-> exists i node,
        Model.nodes_coordinates model !! i = Some node
        /\ x = x_m node
        /\ Q !! (3 * i)%nat = Some n
        /\ Q !! (3 * i + 1)%nat = Some v
        /\ Q !! (3 * i + 2)%nat = Some m.
Proof.
  rewrite <- list_elem_of_In, list_elem_of_lookup.
  setoid_rewrite lookup_zip_with.
  change (map x_m ?l) with (x_m <$> l).
  setoid_rewrite list_lookup_fmap.
  split.
  - intros (i & Hrow).
    destruct (Model.nodes_coordinates model !! i) as [node|] eqn:Hn;
      [|discriminate].
    destruct (reshape3 Q !! i) as [[[a b] c]|] eqn:Hq; [|discriminate].
    simpl in Hrow. injection Hrow as <- <- <- <-.
    apply reshape3_lookup in Hq. destruct Hq as (H1 & H2 & H3).
    exists i, node. auto.
  - intros (i & node & Hn & -> & H1 & H2 & H3).
    exists i. rewrite Hn.
    rewrite (proj2 (reshape3_lookup Q i n v m) (conj H1 (conj H2 H3))).
    reflexivity.
Qed.

(** X10.  For a reaction vector with three entries per node, which is
    what the code accepts, every node [i] has its three reaction
    components in entries [3i], [3i + 1] and [3i + 2] of the vector, and
    the reaction table lists exactly the nodes at which one of the three
    is above 1e-3 in absolute value; in a row that is listed, each
    component is shown as it is when its absolute value is at least 1e-3
    and as zero when it is below.  A component of exactly 1e-3 is shown as
    it is but does not by itself make the node appear. *)
Theorem reaction_table_rows (x n v m : Q) (model : Model.t) (Q : Vec) :
  List.length Q = (3 * List.length (Model.nodes_coordinates model))%nat ->
  (In (x, (n, v, m)) (reaction_forces_to_df model Q)
   <-> exists i node n0 v0 m0,
         Model.nodes_coordinates model !! i = Some node
         /\ x = x_m node
         /\ Q !! (3 * i)%nat = Some n0
         /\ Q !! (3 * i + 1)%nat = Some v0
         /\ Q !! (3 * i + 2)%nat = Some m0
         /\ ((1 # 1000) < Qabs n0 \/ (1 # 1000) < Qabs v0
             \/ (1 # 1000) < Qabs m0)
         /\ shown_as n0 n /\ shown_as v0 v /\ shown_as m0 m)
  /\ (forall i node,
        Model.nodes_coordinates model !! i = Some node ->
        exists n0 v0 m0,
          Q !! (3 * i)%nat = Some n0
          /\ Q !! (3 * i + 1)%nat = Some v0
          /\ Q !! (3 * i + 2)%nat = Some m0).
Proof.
  intros Hlen. split; cycle 1.
  { intros i node Hn. pose proof (lookup_lt_Some _ _ _ Hn) as Hlt.
    destruct (lookup_lt_is_Some_2 Q (3 * i)%nat) as [n0 H1]; [lia|].
    destruct (lookup_lt_is_Some_2 Q (3 * i + 1)%nat) as [v0 H2]; [lia|].
    destruct (lookup_lt_is_Some_2 Q (3 * i + 2)%nat) as [m0 H3]; [lia|].
    exists n0, v0, m0. auto. }
  setoid_rewrite <- mask_small_shown.
  unfold reaction_forces_to_df.
  rewrite <- list_elem_of_In, list_elem_of_filter.
  change (map ?f ?l) with (f <$> l) at 1.
  rewrite list_elem_of_fmap. split.
  - intros (Habove & [x0 [[n0 v0] m0]] & Heq & Hin).
    injection Heq as -> -> -> ->.
    apply list_elem_of_In, reshaped_rows in Hin.
    destruct Hin as (i & node & Hn & -> & H1 & H2 & H3).
    exists i, node, n0, v0, m0. repeat (split; [assumption || reflexivity|]).
    split; [|auto].
    rewrite !mask_small_above in Habove.
    apply Is_true_true in Habove.
    apply orb_true_iff in Habove. destruct Habove as [Habove|Hm].
    + apply orb_true_iff in Habove. destruct Habove as [Hn0|Hv].
      * left. apply Qgt_bool_true. exact Hn0.
      * right. left. apply Qgt_bool_true. exact Hv.
    + right. right. apply Qgt_bool_true. exact Hm.
  - intros (i & node & n0 & v0 & m0 & Hn & -> & H1 & H2 & H3 & Habove
            & -> & -> & ->).
    split.
    + rewrite !mask_small_above. apply Is_true_true.
      destruct Habove as [Hn0|[Hv|Hm]].
      * apply Qgt_bool_true in Hn0. rewrite Hn0. reflexivity.
      * apply Qgt_bool_true in Hv. rewrite Hv. apply orb_true_iff. left.
        apply orb_true_r.
      * apply Qgt_bool_true in Hm. rewrite Hm. apply orb_true_r.
    + exists (x_m node, (n0, v0, m0)). split; [reflexivity|].
      apply list_elem_of_In, reshaped_rows. exists i, node. auto.
Qed.

(** The toe reaction of -60 of the short pile: the toe node is listed, the
    head node, with no reaction, is not. *)
Lemma reaction_table_rows_witness :
  exists m,
    short_loaded = Returned m
    /\ In (-10000 / 1000, (0, -60, 0))
         (reaction_forces_to_df m [0; 0; 0; 0; -60; 0])
    /\ ~ In (0 / 1000, (0, 0, 0))
           (reaction_forces_to_df m [0; 0; 0; 0; -60; 0]).
Proof.
  eexists. split; [vm_compute; reflexivity|].
  match goal with
  | |- In _ (reaction_forces_to_df ?m ?Q) /\ _ =>
      pose proof (fun x n v f =>
                    proj1 (reaction_table_rows x n v f m Q eq_refl))
        as Hrows
  end.
  split.
  - apply Hrows.
    exists 1%nat, (mk_node (-10000 / 1000) (0 / 1000)), 0, (-60), 0.
    repeat (split; [reflexivity|]).
    split; [right; left; reflexivity|].
    split; [left; split; reflexivity|].
    split; [right; split; [discriminate|reflexivity]|].
    left; split; reflexivity.
  - intros Hin. apply Hrows in Hin.
    destruct Hin as (i & node & n0 & v0 & m0 & _ & _ & _ & _ & _ & Habove
                     & Hn & Hv & Hm).
    assert (Hzero : forall a, shown_as a 0 -> Qabs a < 1 # 1000 \/ a = 0).
    { intros a [[Hlt _]|[_ Heq]]; [left; exact Hlt|right; symmetry; exact Heq]. }
    assert (Hsmall : forall a, shown_as a 0 -> ~ (1 # 1000) < Qabs a).
    { intros a Ha Hgt. destruct (Hzero a Ha) as [Hlt| ->].
      - apply (Qlt_irrefl (Qabs a)). apply (Qlt_trans _ (1 # 1000)); assumption.
      - vm_compute in Hgt. discriminate. }
    destruct Habove as [H|[H|H]];
      [apply (Hsmall n0 Hn H)|apply (Hsmall v0 Hv H)|apply (Hsmall m0 Hm H)].
Defined.

(** ** The mesh, continued *)

(** Rounding does not depend on how a number is written. *)
Lemma round_half_even_comp (t t' : Q) :
  t == t' -> round_half_even t = round_half_even t'.
Proof.
  intros Heq. unfold round_half_even. rewrite (Qfloor_comp _ _ Heq).
  assert (Hcmp : Qcompare (t - inject_Z (Qfloor t')) (1 # 2)
                 = Qcompare (t' - inject_Z (Qfloor t')) (1 # 2))
    by (apply Qcompare_comp; [rewrite Heq; reflexivity|reflexivity]).
  rewrite Hcmp. reflexivity.
Qed.

Lemma round3_comp (a b : Q) : a == b -> round3 a = round3 b.
Proof.
  intros Heq. unfold round3.
  rewrite (round_half_even_comp (a * 1000) (b * 1000));
    [reflexivity|rewrite Heq; reflexivity].
Qed.

(** What goes into the anchors: the pile elevations, the extra elevations
    and the layer boundaries that are not below the pile toe. *)
Lemma primary_x_has (pile : Pile.t) (sp : SoilProfile.t) (x2mesh : list Q)
    (e : Q) :
  In e (Pile.data_elevation pile)
  \/ In e x2mesh
  \/ (Pile.bottom_elevation pile <= e
      /\ exists l, In l (SoilProfile.layers sp)
                   /\ (e = Layer.top l \/ e = Layer.bottom l)) ->
  InQ e (Model.primary_x pile (Some sp) x2mesh).
Proof.
  intros He. unfold Model.primary_x. apply rev_np_unique_has.
  destruct He as [He|[He|(Hlow & l & Hl & He)]].
  - apply in_or_app. left. apply in_or_app. left. exact He.
  - apply in_or_app. right. exact He.
  - apply in_or_app. left. apply in_or_app. right.
    assert (Hin : In e (map Layer.top (SoilProfile.layers sp)
                        ++ map Layer.bottom (SoilProfile.layers sp))).
    { apply in_or_app. destruct He as [->| ->]; [left|right];
        apply in_map; exact Hl. }
    destruct (existsb _ _); [|exact Hin].
    apply list_elem_of_In. apply list_elem_of_filter. split.
    + apply Is_true_true. apply Qle_bool_iff. exact Hlow.
    + apply list_elem_of_In. right. exact Hin.
Qed.

(** And nothing else: every anchor is one of these. *)
Lemma primary_x_from (pile : Pile.t) (sp : SoilProfile.t) (x2mesh : list Q)
    (e : Q) :
  In e (Model.primary_x pile (Some sp) x2mesh) ->
  In e (Pile.data_elevation pile)
  \/ In e x2mesh
  \/ Pile.bottom_elevation pile <= e.
Proof.
  unfold Model.primary_x. intros He. apply rev_np_unique_In in He.
  apply in_app_or in He. destruct He as [He|He]; [|auto].
  apply in_app_or in He. destruct He as [He|He]; [auto|].
  right. right.
  destruct (existsb _ _) eqn:Hany.
  - apply list_elem_of_In, list_elem_of_filter in He. destruct He as [Hge _].
    apply Is_true_true in Hge. apply Qle_bool_iff. exact Hge.
  - apply Qlt_bool_false.
    destruct (Qlt_bool e (Pile.bottom_elevation pile)) eqn:Hlt; [|reflexivity].
    assert (Hex : existsb (fun e0 => Qlt_bool e0 (Pile.bottom_elevation pile))
                    (map Layer.top (SoilProfile.layers sp)
                     ++ map Layer.bottom (SoilProfile.layers sp)) = true)
      by (apply existsb_exists; exists e; split; assumption).
    congruence.
Qed.

(** An anchor is a node of the mesh before rounding. *)
Lemma mesh_x_has_anchor (c : Q) (anchors x : list Q) (e : Q) :
  Model.mesh_x c anchors = Some x -> InQ e anchors -> InQ e x.
Proof.
  intros Hx (z & Hz & Hze). destruct (mesh_x_inv _ _ _ Hx) as (sec & _ & ->).
  destruct (rev_np_unique_has (anchors ++ sec) z) as (z' & Hz' & Heq);
    [apply in_or_app; left; exact Hz|].
  exists z'. split; [exact Hz'|]. rewrite Heq. exact Hze.
Qed.

(** X11.  Every elevation that the mesh is asked to respect is a node, to
    three decimals: the top and bottom of every pile section, every
    elevation of [x2mesh] (wherever it lies, also above the head or below
    the toe of the pile), and every top or bottom of a soil layer that is
    not below the pile toe. *)
Theorem anchors_are_nodes (name : string) (pile : Pile.t) (sp : SoilProfile.t)
    (x2mesh : list Q) (c : Q) (m : Model.t) (e : Q) :
  Model.create name pile (Some sp) x2mesh c = Returned m ->
  In e (Pile.data_elevation pile)
  \/ In e x2mesh
  \/ (Pile.bottom_elevation pile <= e
      /\ exists l, In l (SoilProfile.layers sp)
                   /\ (e = Layer.top l \/ e = Layer.bottom l)) ->
  exists n, In n (Model.nodes_coordinates m) /\ x_m n = round3 e.
Proof.
  intros Hcreate He.
  destruct (create_inv _ _ _ _ _ _ Hcreate) as (_ & x & _ & Hx & Hnodes & _).
  destruct (mesh_x_has_anchor _ _ _ e Hx (primary_x_has _ _ _ _ He))
    as (z & Hz & Hze).
  exists (mk_node (round3 z) (round3 0)). split.
  - rewrite Hnodes. apply in_map_iff. exists z. split; [reflexivity|exact Hz].
  - simpl. apply round3_comp. exact Hze.
Qed.

(** An extra elevation at -12.5 on the example pile, meshed every 10 m. *)
Lemma anchors_are_nodes_witness :
  exists m n,
    Model.create "Example" example_pile (Some example_soil) [-125 # 10] 10
    = Returned m
    /\ In n (Model.nodes_coordinates m) /\ x_m n = round3 (-125 # 10).
Proof.
  eexists.
  match goal with
  | |- exists n, ?create = Returned ?m /\ _ =>
      assert (Hcreate : create = Returned m) by (vm_compute; reflexivity);
      destruct (anchors_are_nodes "Example" example_pile example_soil
                  [-125 # 10] 10 m (-125 # 10) Hcreate) as (n & Hn & Hx);
      [right; left; left; reflexivity|];
      exists n; split; [exact Hcreate|split; [exact Hn|exact Hx]]
  end.
Defined.

(** Consecutive pairs, position by position. *)
Lemma consecutive_lookup (x : list Q) (i : nat) (a b : Q) :
  consecutive x !! i = Some (a, b)
  <-> x !! i = Some a /\ x !! S i = Some b.
Proof.
  revert i. induction x as [|p x IH]; intros i.
  - simpl. split; [discriminate|intros [H _]; discriminate].
  - destruct x as [|q rest].
    + simpl. split; [discriminate|].
      intros [_ H]. destruct i; discriminate.
    + rewrite consecutive_cons. destruct i as [|i].
      * simpl. split.
        -- intros Heq. injection Heq as -> ->. auto.
        -- intros [Ha Hb]. congruence.
      * change ((p :: q :: rest) !! S i) with ((q :: rest) !! i).
        change ((p :: q :: rest) !! S (S i)) with ((q :: rest) !! S i).
        change (((p, q) :: consecutive (q :: rest)) !! S i)
          with (consecutive (q :: rest) !! i).
        apply IH.
Qed.

Lemma consecutive_length (x : list Q) :
  List.length (consecutive x) = (List.length x - 1)%nat.
Proof.
  induction x as [|p x IH]; [reflexivity|].
  destruct x as [|q rest]; [reflexivity|].
  rewrite consecutive_cons. simpl in *. rewrite IH. lia.
Qed.

(** X12.  The element table and the node table of a created model fit
    together: there is one element fewer than there are nodes, element [i]
    runs from node [i] to node [i + 1] with exactly their (rounded)
    elevations, and [element_number] is the number of rows of the element
    table. *)
Theorem elements_join_nodes (name : string) (pile : Pile.t)
    (soil : option SoilProfile.t) (x2mesh : list Q) (c : Q) (m : Model.t) :
  Model.create name pile soil x2mesh c = Returned m ->
  List.length (Model.element_coordinates m)
  = (List.length (Model.nodes_coordinates m) - 1)%nat
  /\ Model.element_number m = List.length (Model.element_coordinates m)
  /\ forall i e,
       Model.element_coordinates m !! i = Some e ->
       exists n1 n2,
         Model.nodes_coordinates m !! i = Some n1
         /\ Model.nodes_coordinates m !! S i = Some n2
         /\ x_top e = x_m n1 /\ x_bottom e = x_m n2
         /\ y_top e = y_m n1 /\ y_bottom e = y_m n2.
Proof.
  intros Hcreate.
  destruct (create_inv _ _ _ _ _ _ Hcreate) as (_ & x & _ & _ & Hnodes & Helem & _).
  destruct (create_tables _ _ _ _ _ _ Hcreate) as (_ & _ & _ & Hnumber).
  split; [rewrite Helem, Hnodes, !length_map; apply consecutive_length|].
  split; [exact Hnumber|].
  intros i e He. rewrite Helem in He.
  change (map ?f ?l) with (f <$> l) in He. rewrite list_lookup_fmap in He.
  destruct (consecutive x !! i) as [[a b]|] eqn:Hab; [|discriminate].
  injection He as <-.
  apply consecutive_lookup in Hab. destruct Hab as [Ha Hb].
  exists (mk_node (round3 a) (round3 0)), (mk_node (round3 b) (round3 0)).
  rewrite Hnodes. change (map ?f ?l) with (f <$> l).
  rewrite !list_lookup_fmap, Ha, Hb. simpl. auto 6.
Qed.

(** The second element of the example mesh runs from -10 to -20. *)
Lemma elements_join_nodes_witness :
  exists m e n1 n2,
    example_created = Returned m
    /\ List.length (Model.element_coordinates m) = 4%nat
    /\ Model.element_coordinates m !! 1%nat = Some e
    /\ Model.nodes_coordinates m !! 1%nat = Some n1
    /\ Model.nodes_coordinates m !! 2%nat = Some n2
    /\ x_top e = x_m n1 /\ x_bottom e = x_m n2.
Proof.
  eexists.
  match goal with
  | |- exists e n1 n2, ?create = Returned ?m /\ _ =>
      assert (Hcreate : create = Returned m) by (vm_compute; reflexivity);
      destruct (elements_join_nodes "Example" example_pile (Some example_soil)
                  [] 10 m Hcreate) as (Hlen & _ & Hrows);
      destruct (Hrows 1%nat
                  (mk_element (-10000 / 1000) (-20000 / 1000) (0 / 1000) (0 / 1000))
                  eq_refl)
        as (n1 & n2 & Hn1 & Hn2 & Ht & Hb & _)
  end.
  eexists. exists n1, n2.
  split; [exact Hcreate|]. split; [exact Hlen|].
  split; [reflexivity|]. auto.
Defined.

(** With a coarseness that is not positive the inner [while] never stops:
    the spacing tried stays positive, hence above the coarseness, whatever
    the divider. *)
Lemma refine_spacing_never_stops (fuel : nat) (spacing c : Q) (divider : Z)
    (new_spacing : Q) :
  c <= 0 -> 0 < spacing -> (0 < divider)%Z -> 0 < new_spacing ->
  refine_spacing fuel spacing c divider new_spacing = None.
Proof.
  intros Hc Hs. revert divider new_spacing.
  induction fuel as [|fuel IH]; intros divider new_spacing Hd Hn;
    [reflexivity|].
  simpl.
  replace (Qgt_bool new_spacing c) with true
    by (symmetry; apply Qgt_bool_true; lra).
  apply IH; [lia|].
  apply Qlt_shift_div_l; [|lra].
  change 0 with (inject_Z 0). rewrite <- Zlt_Qlt. lia.
Qed.

(** A list that holds two different numbers has at least two entries. *)
Lemma two_values_two_entries (x : list Q) (a b : Q) :
  InQ a x -> InQ b x -> b < a -> exists p q rest, x = p :: q :: rest.
Proof.
  intros (za & Hza & Ha) (zb & Hzb & Hb) Hlt.
  destruct x as [|p [|q rest]].
  - contradiction.
  - exfalso. destruct Hza as [<-|[]]. destruct Hzb as [<-|[]]. lra.
  - exists p, q, rest. reflexivity.
Qed.

(** X13.  A coarseness of zero or below makes [Model.create] hang.  As soon
    as the pile has a section, the mesh has a span to subdivide; its inner
    [while new_spacing > coarseness] loop then never stops, whatever the
    number of passes allowed, and the construction does not return. *)
Theorem nonpositive_coarseness_never_returns
    (name : string) (pile : Pile.t) (sp : SoilProfile.t) (x2mesh : list Q)
    (c : Q) (L : Q) (rest : list Q) :
  c <= 0 ->
  Pile.section_length pile = L :: rest -> 0 < L ->
  Model.soil_and_pile_bottom_elevation_match pile (Some sp) = Returned tt ->
  (forall fuel spacing,
     0 < spacing -> refine_spacing fuel spacing c 1 spacing = None)
  /\ Model.create name pile (Some sp) x2mesh c = Diverged.
Proof.
  intros Hc Hsec HL Hmatch.
  split; [intros fuel spacing Hs;
          apply refine_spacing_never_stops; [exact Hc|exact Hs|lia|exact Hs]|].
  unfold Model.create. rewrite Hmatch. unfold bind at 1.
  unfold Model.get_coordinates, Model.mesh_x.
  pose proof (rev_np_unique_descending
                ((Pile.data_elevation pile
                  ++ (let soil_elevations :=
                        map Layer.top (SoilProfile.layers sp)
                        ++ map Layer.bottom (SoilProfile.layers sp) in
                      if existsb (fun e => Qlt_bool e (Pile.bottom_elevation pile))
                           soil_elevations
                      then filter (fun e => Qge_bool e (Pile.bottom_elevation pile))
                             (Pile.bottom_elevation pile :: soil_elevations)
                      else soil_elevations))
                 ++ x2mesh)) as Hd.
  change (rev (np_unique _)) with (Model.primary_x pile (Some sp) x2mesh) in Hd.
  assert (Htop : InQ (Pile.top_elevation pile)
                   (Model.primary_x pile (Some sp) x2mesh)).
  { apply primary_x_has. left. unfold Pile.data_elevation. rewrite Hsec.
    left. reflexivity. }
  assert (Hnext : InQ (Pile.top_elevation pile - L)
                    (Model.primary_x pile (Some sp) x2mesh)).
  { apply primary_x_has. left. unfold Pile.data_elevation. rewrite Hsec.
    right. left. reflexivity. }
  destruct (two_values_two_entries _ _ _ Htop Hnext ltac:(lra))
    as (p & q & tail & Hx).
  rewrite Hx in Hd |- *.
  assert (Hpq : q < p).
  { apply descending_inv in Hd. apply (proj2 Hd). left. reflexivity. }
  rewrite x_secondary_cons. unfold new_x.
  rewrite (refine_spacing_never_stops _ (p - q) c 1 (p - q));
    [reflexivity|exact Hc|lra|lia|lra].
Qed.

(** The example pile with a coarseness of zero. *)
Lemma nonpositive_coarseness_never_returns_witness :
  (forall fuel spacing,
     0 < spacing -> refine_spacing fuel spacing 0 1 spacing = None)
  /\ Model.create "Example" example_pile (Some example_soil) [] 0 = Diverged.
Proof.
  apply (nonpositive_coarseness_never_returns "Example" example_pile
           example_soil [] 0 40 []).
  - discriminate.
  - reflexivity.
  - reflexivity.
  - vm_compute. reflexivity.
Defined.

Lemma py_sum_nonneg (l : list Q) :
  Forall (fun v => 0 < v) l -> 0 <= py_sum l.
Proof.
  induction 1 as [|v l Hv _ IH].
  - unfold py_sum. simpl. lra.
  - rewrite py_sum_cons. lra.
Qed.

(** The elevation column of the pile table: every entry lies between the
    toe and the head, and the toe is the last entry. *)
Lemma elevations_from_bounds (cur : Q) (lengths : list Q) (z : Q) :
  Forall (fun v => 0 < v) lengths ->
  In z (Pile.elevations_from cur lengths) ->
  cur - py_sum lengths <= z <= cur.
Proof.
  intros Hall. revert cur. induction Hall as [|v l Hv Hl IH]; intros cur Hz;
    simpl in Hz; [contradiction|].
  pose proof (py_sum_nonneg _ Hl) as Hsum.
  rewrite py_sum_cons.
  destruct Hz as [<-|[<-|Hz]]; [lra|lra|].
  specialize (IH _ Hz). lra.
Qed.

Lemma elevations_from_last (cur : Q) (lengths : list Q) :
  lengths <> [] ->
  exists z, last (Pile.elevations_from cur lengths) = Some z
            /\ z == cur - py_sum lengths.
Proof.
  revert cur. induction lengths as [|v l IH]; intros cur Hne; [congruence|].
  destruct l as [|w l].
  - exists (cur - v). split; [reflexivity|]. unfold py_sum. simpl. ring.
  - destruct (IH (cur - v) ltac:(discriminate)) as (z & Hz & Heq).
    exists z. split.
    + change (Pile.elevations_from cur (v :: w :: l))
        with (cur :: (cur - v) :: Pile.elevations_from (cur - v) (w :: l)).
      rewrite !last_cons, Hz. reflexivity.
    + rewrite Heq, (py_sum_cons v). ring.
Qed.

(** The lowest entry of a descending list is its last one. *)
Lemma descending_last (x : list Q) (w : Q) :
  descending x -> last x = Some w -> forall y, In y x -> w <= y.
Proof.
  induction x as [|p x IH]; intros Hd Hlast y Hy; [contradiction|].
  apply descending_inv in Hd. destruct Hd as [Hd Hp].
  rewrite last_cons in Hlast. destruct (last x) as [w'|] eqn:Hw.
  - injection Hlast as ->.
    assert (Hin : In w x) by (apply list_elem_of_In, last_Some_elem_of, Hw).
    destruct Hy as [<-|Hy]; [apply Qlt_le_weak, Hp, Hin|apply IH; auto].
  - injection Hlast as ->. apply last_None in Hw. subst x.
    destruct Hy as [<-|[]]. lra.
Qed.

(** No node of the mesh lies below the lowest anchor. *)
Lemma mesh_x_lower_bound (c : Q) (anchors x : list Q) (lo : Q) :
  0 < c -> descending anchors -> Model.mesh_x c anchors = Some x ->
  (forall a, In a anchors -> lo <= a) ->
  forall y, In y x -> lo <= y.
Proof.
  intros Hc Hd Hx Hlo y Hy.
  destruct (mesh_x_inv _ _ _ Hx) as (sec & Hsec & ->).
  destruct (x_secondary_spec c anchors Hc Hd) as (sec' & Hsec' & Hfrom & _).
  rewrite Hsec in Hsec'. injection Hsec' as <-.
  apply rev_np_unique_In in Hy. apply in_app_or in Hy.
  destruct Hy as [Hy|Hy]; [apply Hlo, Hy|].
  destruct (Hfrom y Hy) as (a & b & k & Hin & Hk & Heq).
  pose proof (consecutive_lt _ _ _ Hd Hin) as Hab.
  destruct (subdivision_point_inside c a b Hc Hab k Hk) as [Hlow _].
  destruct (consecutive_In _ _ _ Hin) as [_ Hb].
  pose proof (Hlo b Hb). lra.
Qed.

(** X14.  The mesh ends at the pile toe.  With a positive coarseness, pile
    sections of positive length and no extra elevation below the toe, the
    last node of a created model is the bottom elevation of the pile, top
    elevation minus the sum of the section lengths, rounded to three
    decimals, and no node lies below it: the part of the soil profile
    below the pile is not meshed. *)
Theorem mesh_ends_at_pile_toe (name : string) (pile : Pile.t)
    (sp : SoilProfile.t) (x2mesh : list Q) (c : Q) (m : Model.t) :
  0 < c ->
  Pile.section_length pile <> [] ->
  Forall (fun L => 0 < L) (Pile.section_length pile) ->
  Forall (fun e => Pile.bottom_elevation pile <= e) x2mesh ->
  Model.create name pile (Some sp) x2mesh c = Returned m ->
  (exists n, last (Model.nodes_coordinates m) = Some n
             /\ x_m n = round3 (Pile.bottom_elevation pile))
  /\ forall n, In n (Model.nodes_coordinates m) ->
               round3 (Pile.bottom_elevation pile) <= x_m n.
Proof.
  intros Hc Hne Hpos Hx2 Hcreate.
  destruct (create_inv _ _ _ _ _ _ Hcreate) as (_ & x & _ & Hx & Hnodes & _).
  assert (Hd : descending (Model.primary_x pile (Some sp) x2mesh))
    by apply rev_np_unique_descending.
  pose proof (mesh_x_descending _ _ _ Hx) as Hdx.
  (* every anchor is at or above the toe *)
  assert (Hlo : forall a, In a (Model.primary_x pile (Some sp) x2mesh) ->
                          Pile.bottom_elevation pile <= a).
  { intros a Ha. destruct (primary_x_from _ _ _ _ Ha) as [Hp|[Hm|Hs]].
    - apply (elevations_from_bounds _ _ _ Hpos Hp).
    - rewrite List.Forall_forall in Hx2. apply Hx2, Hm.
    - exact Hs. }
  pose proof (mesh_x_lower_bound c _ x _ Hc Hd Hx Hlo) as Hlow.
  (* the toe is an anchor, hence a node before rounding *)
  destruct (elevations_from_last (Pile.top_elevation pile) _ Hne)
    as (z & Hz & Hzb).
  assert (Htoe : InQ (Pile.bottom_elevation pile) x).
  { apply last_Some_elem_of, list_elem_of_In in Hz.
    destruct (mesh_x_has_anchor c _ x z Hx
                (primary_x_has pile sp x2mesh z (or_introl Hz)))
      as (t & Ht & Htz).
    exists t. split; [exact Ht|]. rewrite Htz. exact Hzb. }
  destruct Htoe as (t & Ht & Htb).
  destruct (last x) as [w|] eqn:Hw;
    [|apply last_None in Hw; subst x; contradiction].
  assert (Hwb : w == Pile.bottom_elevation pile).
  { pose proof (descending_last _ _ Hdx Hw t Ht) as Hwt.
    assert (Hin : In w x) by (apply list_elem_of_In, last_Some_elem_of, Hw).
    pose proof (Hlow w Hin). lra. }
  split.
  - exists (mk_node (round3 w) (round3 0)). split.
    + rewrite Hnodes. change (map ?f ?l) with (f <$> l).
      rewrite fmap_last, Hw. reflexivity.
    + simpl. apply round3_comp. exact Hwb.
  - intros n Hn. rewrite Hnodes in Hn. apply in_map_iff in Hn.
    destruct Hn as (y & <- & Hy). simpl. apply round3_mono. apply Hlow, Hy.
Qed.

(** The tall pile ends at -35 in a soil profile that goes down to -40: the
    last node is at -35. *)
Lemma mesh_ends_at_pile_toe_witness :
  exists m n,
    tall_created = Returned m
    /\ last (Model.nodes_coordinates m) = Some n
    /\ x_m n = round3 (Pile.bottom_elevation tall_pile)
    /\ x_m n == -35.
Proof.
  eexists.
  match goal with
  | |- exists n, ?create = Returned ?m /\ _ =>
      assert (Hcreate : create = Returned m) by (vm_compute; reflexivity);
      destruct (mesh_ends_at_pile_toe "Tall" tall_pile layered_soil [] 5 m)
        as ((n & Hn & Hx) & _)
  end.
  - reflexivity.
  - discriminate.
  - repeat constructor.
  - constructor.
  - exact Hcreate.
  - exists n. split; [exact Hcreate|]. split; [exact Hn|].
    split; [exact Hx|]. rewrite Hx. vm_compute. reflexivity.
Defined.

(** ** Soil properties, continued *)

Section ground_element.

Variable sp : SoilProfile.t.
Variable element : list element_row.
Variable rows : list soil_row.
Hypothesis Hdesc : key_descends x_top element.
Hypothesis Hrows : Model.make_soil_properties element (Some sp) = Returned rows.

Let ground : Q := SoilProfile.top_elevation sp.
Let water : Q := SoilProfile.water_elevation sp.
Let right : list profile_row := sort_values pr_top (Model.get_soil_profile sp).

Let merge_one (e : element_row) : merged_row :=
  match find (fun r => Qle_bool (x_top e) (pr_top r)) right with
  | Some r =>
      mk_merged_row (x_top e) (x_bottom e) (Some (pr_top r)) (Some (pr_weight r))
  | None => mk_merged_row (x_top e) (x_bottom e) None None
  end.

Let M : list merged_row := map merge_one element.
Let incr : list (option Q) :=
  map (fun r => option_map (fun w => (mr_x_top r - mr_x_bottom r) * w)
                  (Model.buoyant water r)) M.
Let B : list (option Q) := cumsum incr.
Let check : list bool := map (fun r => Qeq_bool (mr_x_top r) ground) M.
Let T : list (option Q) := np_insert (drop_last B) (np_where check) (Some 0).

Lemma ground_check_lookup (j : nat) (e : element_row) :
  element !! j = Some e -> check !! j = Some (Qeq_bool (x_top e) ground).
Proof.
  intros He. unfold check, M.
  change (map ?f ?l) with (f <$> l).
  rewrite !list_lookup_fmap, He. simpl. do 2 f_equal.
  exact (merge_one_x_top sp e).
Qed.

(** When the soil table can be built, exactly one element starts at the
    ground surface, and the stress at its top is zero. *)
Lemma ground_row :
  element <> [] ->
  exists g e row,
    element !! g = Some e
    /\ x_top e == ground
    /\ (forall j e', element !! j = Some e' -> x_top e' == ground -> j = g)
    /\ rows !! g = Some row
    /\ sp_sigma_v_top row = Some 0.
Proof.
  intros Hne.
  assert (Hg : exists g, np_where check = [g]
                 /\ T = take g (drop_last B) ++ Some 0 :: drop g (drop_last B)
                 /\ (g < List.length element)%nat)
    by exact (soil_rows_ground sp element rows Hdesc Hrows Hne).
  destruct Hg as (g & Hidx & HT & Hlt).
  destruct (lookup_lt_is_Some_2 element g Hlt) as [e He].
  assert (Hlen : List.length rows = List.length element)
    by apply (soil_rows_lengths sp element rows Hdesc Hrows).
  destruct (lookup_lt_is_Some_2 rows g ltac:(lia)) as [row Hrow].
  exists g, e, row. split; [exact He|].
  assert (Hin : forall j, In j (np_where check) <-> j = g).
  { intros j. rewrite Hidx. simpl. split; [intros [H|[]]|]; auto. }
  split.
  { pose proof (proj2 (Hin g) eq_refl) as Hgin.
    apply np_where_spec in Hgin. rewrite (ground_check_lookup g e He) in Hgin.
    injection Hgin as Hgin. apply Qeq_bool_iff. exact Hgin. }
  split.
  { intros j e' He' Heq. apply Hin. apply np_where_spec.
    rewrite (ground_check_lookup j e' He'). f_equal.
    apply Qeq_bool_iff. exact Heq. }
  split; [exact Hrow|].
  assert (Hlook : exists e0 t b,
             element !! g = Some e0 /\ T !! g = Some t /\ B !! g = Some b
             /\ incr !! g
                = Some (option_map (fun w => (sp_x_top row - sp_x_bottom row) * w)
                          (sp_unit_weight row))
             /\ sp_x_top row = x_top e0
             /\ sp_x_bottom row = x_bottom e0
             /\ sp_unit_weight row = Model.buoyant water (merge_one e0)
             /\ sp_sigma_v_top row = t
             /\ sp_sigma_v_bottom row = b)
    by exact (soil_rows_lookup sp element rows Hdesc Hrows g row Hrow).
  destruct Hlook as (e0 & t & b & _ & Ht & _ & _ & _ & _ & _ & Htop & _).
  rewrite Htop.
  assert (Harr : List.length (drop_last B) = (List.length element - 1)%nat).
  { unfold drop_last. rewrite removelast_firstn_len, length_take.
    unfold B, cumsum, incr, M.
    rewrite cumsum_from_length, !length_map. lia. }
  rewrite HT in Ht.
  rewrite lookup_app_r in Ht by (rewrite length_take; lia).
  rewrite length_take in Ht.
  replace (g - g `min` List.length (drop_last B))%nat with 0%nat in Ht by lia.
  simpl in Ht. congruence.
Qed.

End ground_element.

(** Rounding to three decimals twice is rounding once. *)
Lemma round3_idempotent (q : Q) : round3 (round3 q) = round3 q.
Proof.
  unfold round3 at 1 3. f_equal. f_equal.
  set (k := round_half_even (q * 1000)).
  transitivity (round_half_even (inject_Z k)).
  - apply round_half_even_comp. unfold round3. fold k. field.
  - unfold round_half_even. rewrite Qfloor_Z.
    assert (Hcmp : Qcompare (inject_Z k - inject_Z k) (1 # 2) = Lt).
    { apply Qlt_alt.
      assert (Hz : inject_Z k - inject_Z k == 0) by ring.
      rewrite Hz. reflexivity. }
    rewrite Hcmp. reflexivity.
Qed.

(** X15.  A model is only created when the ground surface is met by the
    mesh.  When [Model.create] returns a model with at least one element,
    exactly one element has its top at the ground elevation of the soil
    profile, the vertical stress at the top of that element is zero, and
    the ground elevation is a number with at most three decimals. *)
Theorem one_element_starts_at_ground (name : string) (pile : Pile.t)
    (sp : SoilProfile.t) (x2mesh : list Q) (c : Q) (m : Model.t) :
  Model.create name pile (Some sp) x2mesh c = Returned m ->
  Model.element_coordinates m <> [] ->
  (exists g e row,
     Model.element_coordinates m !! g = Some e
     /\ x_top e == SoilProfile.top_elevation sp
     /\ (forall j e', Model.element_coordinates m !! j = Some e' ->
                      x_top e' == SoilProfile.top_elevation sp -> j = g)
     /\ Model.soil_properties m !! g = Some row
     /\ sp_sigma_v_top row = Some 0)
  /\ round3 (SoilProfile.top_elevation sp) == SoilProfile.top_elevation sp.
Proof.
  intros Hcreate Hne.
  pose proof (created_elements_descend _ _ _ _ _ _ Hcreate) as Hdesc.
  destruct (create_inv _ _ _ _ _ _ Hcreate)
    as (sp' & x & Hsp & _ & _ & Helem & Hrows & _).
  destruct (ground_row sp _ _ Hdesc Hrows Hne)
    as (g & e & row & He & Hground & Huniq & Hrow & Hzero).
  split; [exists g, e, row; auto|].
  rewrite Helem in He. change (map ?f ?l) with (f <$> l) in He.
  rewrite list_lookup_fmap in He.
  destruct (consecutive x !! g) as [[a b]|]; [|discriminate].
  injection He as <-. simpl in Hground.
  rewrite <- (round3_comp _ _ Hground), round3_idempotent. exact Hground.
Qed.

(** The tall pile stands 5 m above the ground: its second element is the
    one that starts at the ground. *)
Lemma one_element_starts_at_ground_witness :
  exists m e row,
    tall_created = Returned m
    /\ Model.element_coordinates m !! 1%nat = Some e
    /\ x_top e == SoilProfile.top_elevation layered_soil
    /\ Model.soil_properties m !! 1%nat = Some row
    /\ sp_sigma_v_top row = Some 0.
Proof.
  eexists.
  match goal with
  | |- exists e row, ?create = Returned ?m /\ _ =>
      assert (Hcreate : create = Returned m) by (vm_compute; reflexivity);
      destruct (one_element_starts_at_ground "Tall" tall_pile layered_soil
                  [] 5 m Hcreate)
        as ((g & e & row & He & Hground & Huniq & Hrow & Hzero) & _);
      [discriminate|]
  end.
  assert (Hg : 1%nat = g) by (eapply Huniq; [reflexivity|vm_compute; reflexivity]).
  subst g. exists e, row. auto.
Defined.

(** The element table cut from a descending list of elevations runs from
    the top down and holds rounded elevations only. *)
Lemma mesh_elements_descend (x : list Q) :
  descending x ->
  key_descends x_top
    (map (fun ab => mk_element (round3 (fst ab)) (round3 (snd ab))
                      (round3 0) (round3 0))
       (consecutive x)).
Proof.
  intros Hdx. apply key_descends_map. simpl.
  pose proof (consecutive_tops_descend x Hdx) as Hd.
  unfold key_descends in *.
  induction Hd as [|ab l Hl IH Hall]; [constructor|].
  constructor; [exact IH|].
  rewrite List.Forall_forall in Hall |- *. intros cd Hcd.
  apply round3_mono, Hall, Hcd.
Qed.

(** The soil table cannot be built unless the ground elevation is the
    (rounded) top of an element. *)
Lemma soil_table_needs_ground (sp : SoilProfile.t) (x : list Q)
    (rows : list soil_row) :
  descending x ->
  consecutive x <> [] ->
  Model.make_soil_properties
    (map (fun ab => mk_element (round3 (fst ab)) (round3 (snd ab))
                      (round3 0) (round3 0))
       (consecutive x))
    (Some sp)
  = Returned rows ->
  round3 (SoilProfile.top_elevation sp) == SoilProfile.top_elevation sp.
Proof.
  intros Hdx Hne Hrows.
  destruct (ground_row sp _ _ (mesh_elements_descend x Hdx) Hrows)
    as (g & e & row & He & Hground & _).
  { destruct (consecutive x); [congruence|discriminate]. }
  change (map ?f ?l) with (f <$> l) in He. rewrite list_lookup_fmap in He.
  destruct (consecutive x !! g) as [[a b]|]; [|discriminate].
  injection He as <-. simpl in Hground.
  rewrite <- (round3_comp _ _ Hground), round3_idempotent. exact Hground.
Qed.

(** [make_soil_properties] raises nothing but [ValueError] and always ends. *)
Lemma make_soil_properties_outcome (element : list element_row)
    (sp : SoilProfile.t) :
  (exists rows, Model.make_soil_properties element (Some sp) = Returned rows)
  \/ Model.make_soil_properties element (Some sp) = Raised ValueError.
Proof.
  unfold Model.make_soil_properties.
  destruct (negb _); [right; reflexivity|left; eexists; reflexivity].
Qed.

(** X16.  A ground elevation that is not a multiple of 0.001 makes
    [Model.create] fail.  The element tops are rounded to three decimals
    while the ground elevation of the soil profile is compared as it is, so
    no element is found at the ground surface, the column of stresses at
    the element tops comes out one entry short, and the construction ends
    in a [ValueError]. *)
Theorem ground_off_the_grid_fails (name : string) (pile : Pile.t)
    (sp : SoilProfile.t) (x2mesh : list Q) (c : Q) (L : Q) (rest : list Q) :
  0 < c ->
  Pile.section_length pile = L :: rest -> 0 < L ->
  Model.soil_and_pile_bottom_elevation_match pile (Some sp) = Returned tt ->
  ~ round3 (SoilProfile.top_elevation sp) == SoilProfile.top_elevation sp ->
  Model.create name pile (Some sp) x2mesh c = Raised ValueError.
Proof.
  intros Hc Hsec HL Hmatch Hoff.
  assert (Hd : descending (Model.primary_x pile (Some sp) x2mesh))
    by apply rev_np_unique_descending.
  destruct (mesh_x_total c _ Hc Hd) as [x Hx].
  pose proof (mesh_x_descending _ _ _ Hx) as Hdx.
  assert (Htop : InQ (Pile.top_elevation pile) x).
  { apply (mesh_x_has_anchor c _ x _ Hx), primary_x_has. left.
    unfold Pile.data_elevation. rewrite Hsec. left. reflexivity. }
  assert (Hnext : InQ (Pile.top_elevation pile - L) x).
  { apply (mesh_x_has_anchor c _ x _ Hx), primary_x_has. left.
    unfold Pile.data_elevation. rewrite Hsec. right. left. reflexivity. }
  destruct (two_values_two_entries _ _ _ Htop Hnext ltac:(lra))
    as (p & q & tail & Hpq).
  assert (Hne : consecutive x <> [])
    by (rewrite Hpq, consecutive_cons; discriminate).
  unfold Model.create. rewrite Hmatch. unfold bind at 1.
  unfold Model.get_coordinates. rewrite Hx. unfold bind at 1. cbn [fst snd].
  match goal with
  | |- context [Model.make_soil_properties ?e (Some sp)] =>
      destruct (make_soil_properties_outcome e sp) as [[rows Hrows]|Hraise]
  end.
  - exfalso. apply Hoff. apply (soil_table_needs_ground sp x rows Hdx Hne Hrows).
  - rewrite Hraise. reflexivity.
Qed.

(** The short pile in a soil profile whose ground surface is given as
    0.0005: the head node is rounded to 0.000 and the construction fails. *)
Lemma ground_off_the_grid_fails_witness :
  Model.create "Short" short_pile
    (Some (SoilProfile.mk "BH" (1 # 2000) 0
             [Layer.mk "Layer0" (1 # 2000) (-10) 18 true false]))
    [] 10
  = Raised ValueError.
Proof.
  apply (ground_off_the_grid_fails _ _ _ _ _ 10 []).
  - reflexivity.
  - reflexivity.
  - reflexivity.
  - vm_compute. reflexivity.
  - vm_compute. discriminate.
Defined.

Lemma overburden_app (l1 l2 : list soil_row) :
  overburden (l1 ++ l2) == overburden l1 + overburden l2.
Proof.
  induction l1 as [|r l1 IH]; simpl.
  - ring.
  - destruct (sp_unit_weight r); rewrite IH; ring.
Qed.

Lemma overburden_nonneg (l : list soil_row) :
  Forall (fun r => sp_x_bottom r <= sp_x_top r
                   /\ forall w, sp_unit_weight r = Some w -> 0 <= w) l ->
  0 <= overburden l.
Proof.
  induction 1 as [|r l [Hthick Hw] _ IH]; simpl; [lra|].
  destruct (sp_unit_weight r) as [w|]; [|exact IH].
  specialize (Hw w eq_refl). nra.
Qed.

(** X17.  Below the ground the vertical effective stress never decreases
    with depth.  In a model built on a soil profile that passed its
    validator and whose layers passed theirs (unit weight above 10), every
    element at or below the ground surface has a stress at its top that is
    zero or more and a stress at its bottom that is at least the stress at
    its top; and the stress at the top of the next element is the stress at
    the bottom of this one. *)
Theorem vertical_stress_grows_with_depth (name : string) (pile : Pile.t)
    (sp : SoilProfile.t) (x2mesh : list Q) (c : Q) (m : Model.t)
    (i : nat) (row : soil_row) :
  SoilProfile.check_layers_elevations sp = Returned tt ->
  Forall (fun l => Layer.valid l = true) (SoilProfile.layers sp) ->
  Model.create name pile (Some sp) x2mesh c = Returned m ->
  Model.soil_properties m !! i = Some row ->
  sp_x_top row <= SoilProfile.top_elevation sp ->
  exists top bottom,
    sp_sigma_v_top row = Some top
    /\ sp_sigma_v_bottom row = Some bottom
    /\ 0 <= top /\ top <= bottom
    /\ forall next,
         Model.soil_properties m !! S i = Some next ->
         exists top', sp_sigma_v_top next = Some top' /\ top' == bottom.
Proof.
  intros Hvalid Hlayers Hcreate Hrow Hbelow.
  pose proof (created_elements_descend _ _ _ _ _ _ Hcreate) as Hdesc.
  destruct (create_inv _ _ _ _ _ _ Hcreate)
    as (sp' & x & Hsp & Hx & _ & Helem & Hrows & _).
  pose proof (mesh_x_descending _ _ _ Hx) as Hdx.
  set (rows := Model.soil_properties m) in *.
  set (element := Model.element_coordinates m) in *.
  (* every row: thickness and unit weight are not negative *)
  assert (Hall : Forall (fun r => sp_x_bottom r <= sp_x_top r
                   /\ forall w, sp_unit_weight r = Some w -> 0 <= w) rows).
  { apply List.Forall_forall. intros r Hr.
    apply list_elem_of_In, list_elem_of_lookup in Hr. destruct Hr as [j Hj].
    destruct (soil_row_element sp element rows Hdesc Hrows j r Hj)
      as (e & He & -> & ->).
    split.
    - rewrite Helem in He.
      change (map ?f ?l) with (f <$> l) in He.
      rewrite list_lookup_fmap in He.
      destruct (consecutive x !! j) as [[a b]|] eqn:Hab; [|discriminate].
      injection He as <-. simpl. apply round3_mono, Qlt_le_weak.
      apply (consecutive_lt x a b Hdx).
      apply list_elem_of_In, list_elem_of_lookup. exists j. exact Hab.
    - intros w Hw.
      destruct (Qlt_le_dec (SoilProfile.top_elevation sp) (sp_x_top r))
        as [Habove|Hle].
      + destruct (soil_row_above_ground sp element rows Hdesc Hrows Hvalid
                    j r Hj Habove) as (Hnone & _).
        congruence.
      + destruct (soil_row_weight sp element rows Hdesc Hrows Hvalid j r Hj Hle)
          as (l & Hl & _ & _ & Hweight).
        rewrite List.Forall_forall in Hlayers. specialize (Hlayers l Hl).
        unfold Layer.valid in Hlayers. apply andb_true_iff in Hlayers.
        destruct Hlayers as [_ Hheavy]. apply Qgt_bool_true in Hheavy.
        rewrite Hweight in Hw. injection Hw as <-.
        destruct (Qle_bool _ _); lra. }
  destruct (soil_row_stress sp element rows Hdesc Hrows Hvalid i row Hrow Hbelow)
    as (t & b & Ht & Hb & Hteq & Hbeq).
  exists t, b. split; [exact Ht|]. split; [exact Hb|].
  assert (Hsplit : take (S i) rows = take i rows ++ [row])
    by (apply take_S_r; exact Hrow).
  pose proof (overburden_nonneg _ (Forall_take _ i _ Hall)) as Hpos.
  assert (Hrow_pos : 0 <= overburden [row]).
  { apply overburden_nonneg. constructor; [|constructor].
    rewrite List.Forall_forall in Hall. apply Hall.
    apply list_elem_of_In, list_elem_of_lookup. exists i. exact Hrow. }
  rewrite Hsplit, overburden_app in Hbeq.
  split; [lra|]. split; [lra|].
  intros next Hnext.
  assert (Hnext_below : sp_x_top next <= SoilProfile.top_elevation sp).
  { destruct (soil_row_element sp element rows Hdesc Hrows _ _ Hrow)
      as (e & He & Hetop & _).
    destruct (soil_row_element sp element rows Hdesc Hrows _ _ Hnext)
      as (e' & He' & Hetop' & _).
    pose proof (key_descends_lookup x_top element i (S i) e e' Hdesc
                  ltac:(lia) He He') as Hle.
    rewrite Hetop'. rewrite Hetop in Hbelow. lra. }
  destruct (soil_row_stress sp element rows Hdesc Hrows Hvalid (S i) next
              Hnext Hnext_below) as (t' & _ & Ht' & _ & Hteq' & _).
  exists t'. split; [exact Ht'|].
  rewrite Hteq', Hsplit, overburden_app. lra.
Qed.

(** The third element of the tall pile, from -5 down to -10: the stress
    grows from 90 at its top to 130 at its bottom. *)
Lemma vertical_stress_grows_with_depth_witness :
  exists m row,
    tall_created = Returned m
    /\ Model.soil_properties m !! 2%nat = Some row
    /\ exists top bottom,
         sp_sigma_v_top row = Some top
         /\ sp_sigma_v_bottom row = Some bottom
         /\ 0 <= top /\ top <= bottom
         /\ forall next,
              Model.soil_properties m !! 3%nat = Some next ->
              exists top', sp_sigma_v_top next = Some top' /\ top' == bottom.
Proof.
  eexists. eexists. split; [vm_compute; reflexivity|].
  split; [reflexivity|].
  apply (vertical_stress_grows_with_depth "Tall" tall_pile layered_soil [] 5).
  - vm_compute. reflexivity.
  - repeat constructor.
  - vm_compute. reflexivity.
  - reflexivity.
  - vm_compute. discriminate.
Defined.

(** ** The pile table *)

Lemma twice_length {A : Type} (l : list A) :
  List.length (twice l) = (2 * List.length l)%nat.
Proof.
  unfold twice. induction l as [|a l IH]; simpl; [reflexivity|].
  rewrite IH. lia.
Qed.

Lemma twice_lookup {A : Type} (l : list A) (k : nat) :
  twice l !! (2 * k)%nat = l !! k /\ twice l !! (2 * k + 1)%nat = l !! k.
Proof.
  revert k. induction l as [|a l IH]; intros k.
  - split; reflexivity.
  - destruct k as [|k]; [split; reflexivity|].
    replace (2 * S k)%nat with (S (S (2 * k))) by lia.
    replace (S (S (2 * k)) + 1)%nat with (S (S (2 * k + 1))) by lia.
    apply IH.
Qed.

Lemma elevations_from_length (cur : Q) (lengths : list Q) :
  List.length (Pile.elevations_from cur lengths)
  = (2 * List.length lengths)%nat.
Proof.
  revert cur. induction lengths as [|v l IH]; intros cur; simpl;
    [reflexivity|].
  rewrite IH. lia.
Qed.

(** The two rows of section [k]: its top, the pile head lowered by the
    lengths of the sections above, and its bottom, lower by its own
    length. *)
Lemma elevations_from_lookup (cur : Q) (lengths : list Q) (k : nat) (L : Q) :
  lengths !! k = Some L ->
  exists top_k,
    top_k == cur - py_sum (take k lengths)
    /\ Pile.elevations_from cur lengths !! (2 * k)%nat = Some top_k
    /\ Pile.elevations_from cur lengths !! (2 * k + 1)%nat = Some (top_k - L).
Proof.
  revert cur k. induction lengths as [|v l IH]; intros cur k Hk;
    [discriminate|].
  destruct k as [|k].
  - injection Hk as ->. exists cur. split; [|split; reflexivity].
    unfold py_sum. simpl. ring.
  - destruct (IH (cur - v) k Hk) as (top_k & Heq & H1 & H2).
    exists top_k. split.
    + rewrite Heq. change (take (S k) (v :: l)) with (v :: take k l).
      rewrite py_sum_cons. ring.
    + replace (2 * S k)%nat with (S (S (2 * k))) by lia.
      replace (S (S (2 * k)) + 1)%nat with (S (S (2 * k + 1))) by lia.
      split; assumption.
Qed.

Lemma data_rows_lookup (e d t a i : list Q) (k : nat) (x1 x2 x3 x4 x5 : Q) :
  e !! k = Some x1 -> d !! k = Some x2 -> t !! k = Some x3 ->
  a !! k = Some x4 -> i !! k = Some x5 ->
  data_rows e d t a i !! k = Some (mk_pile_row x1 x2 (Some x3) x4 x5).
Proof.
  revert e d t a i. induction k as [|k IH]; intros e d t a i H1 H2 H3 H4 H5;
    destruct e, d, t, a, i; try discriminate; simpl in *.
  - congruence.
  - apply IH; assumption.
Qed.

Lemma data_rows_columns (e d t a i : list Q) :
  List.length d = List.length e -> List.length t = List.length e ->
  List.length a = List.length e -> List.length i = List.length e ->
  List.length (data_rows e d t a i) = List.length e
  /\ map pd_elevation (data_rows e d t a i) = e
  /\ map pd_diameter (data_rows e d t a i) = d
  /\ map pd_area (data_rows e d t a i) = a
  /\ map pd_I (data_rows e d t a i) = i.
Proof.
  revert d t a i. induction e as [|x e IH]; intros d t a i H1 H2 H3 H4;
    destruct d, t, a, i; try discriminate; simpl.
  - auto.
  - destruct (IH d t a i) as (E0 & E1 & E2 & E3 & E4);
      try (simpl in *; lia).
    rewrite E0, E1, E2, E3, E4. auto.
Qed.

(** What [Pile.create] returns when the three lists of [pile_sections]
    have the same length. *)
Lemma pile_create_inv (check : Pile.t -> outcome unit) (name : string)
    (top : Q) (lengths diameters thicknesses : list Q) :
  check (Pile.mk name top lengths diameters thicknesses) = Returned tt ->
  List.length diameters = List.length lengths ->
  List.length thicknesses = List.length lengths ->
  let e := Pile.elevations_from top lengths in
  let d := twice diameters in
  let t := twice thicknesses in
  let a := twice (zip_with section_area diameters thicknesses) in
  let i := twice (zip_with section_I diameters thicknesses) in
  List.length d = List.length e /\ List.length t = List.length e
  /\ List.length a = List.length e /\ List.length i = List.length e
  /\ PileObject.create check name top lengths diameters thicknesses
     = Returned
         (PileObject.mk (Pile.mk name top lengths diameters thicknesses)
            (Some 78) (Some 210000000) (Some (3 # 10))
            (Some (210000000 / (2 + 2 * (3 # 10))))
            (Some (data_rows e d t a i))).
Proof.
  intros Hcheck Hd Ht e d t a i.
  assert (He : List.length e = (2 * List.length lengths)%nat)
    by apply elevations_from_length.
  assert (Hld : List.length d = List.length e)
    by (unfold d; rewrite twice_length; lia).
  assert (Hlt : List.length t = List.length e)
    by (unfold t; rewrite twice_length; lia).
  assert (Hla : List.length a = List.length e)
    by (unfold a; rewrite twice_length, length_zip_with; lia).
  assert (Hli : List.length i = List.length e)
    by (unfold i; rewrite twice_length, length_zip_with; lia).
  repeat (split; [assumption|]).
  unfold PileObject.create, PileObject._postinit, PileObject.new.
  cbn [PileObject.fields]. rewrite Hcheck. unfold bind at 1.
  unfold PileObject.build_data, Pile.data_elevation.
  cbn [Pile.top_elevation Pile.section_length Pile.section_diameter
       Pile.section_wall_thickness].
  fold e d t a i. rewrite Hld, Hlt, Hla, Hli, !Nat.eqb_refl. reflexivity.
Qed.

(** X18.  The table of a pile.  When the three lists of [pile_sections]
    have the same length, [Pile.create] builds a table of two rows per
    section: the top of the section, at the elevation of the pile head
    lowered by the lengths of the sections above it, and its bottom, lower
    by the length of the section; both rows carry the diameter and the wall
    thickness of the section, and the area and second moment of area of
    the circular tube computed from them. *)
Theorem pile_table_rows (check : Pile.t -> outcome unit) (name : string)
    (top : Q) (lengths diameters thicknesses : list Q) :
  check (Pile.mk name top lengths diameters thicknesses) = Returned tt ->
  List.length diameters = List.length lengths ->
  List.length thicknesses = List.length lengths ->
  exists obj rows,
    PileObject.create check name top lengths diameters thicknesses
    = Returned obj
    /\ PileObject.data obj = Some rows
    /\ List.length rows = (2 * List.length lengths)%nat
    /\ forall k L d wt,
         lengths !! k = Some L -> diameters !! k = Some d ->
         thicknesses !! k = Some wt ->
         exists top_k,
           top_k == top - py_sum (take k lengths)
           /\ rows !! (2 * k)%nat
              = Some (mk_pile_row top_k d (Some wt)
                        (section_area d wt) (section_I d wt))
           /\ rows !! (2 * k + 1)%nat
              = Some (mk_pile_row (top_k - L) d (Some wt)
                        (section_area d wt) (section_I d wt)).
Proof.
  intros Hcheck Hd Ht.
  destruct (pile_create_inv check name top lengths diameters thicknesses
              Hcheck Hd Ht) as (Hld & Hlt & Hla & Hli & Hcreate).
  eexists. eexists. split; [exact Hcreate|]. split; [reflexivity|].
  split.
  { destruct (data_rows_columns _ _ _ _ _ Hld Hlt Hla Hli) as (-> & _).
    apply elevations_from_length. }
  intros k L d wt HL Hdk Hwk.
  destruct (elevations_from_lookup top lengths k L HL) as (top_k & Heq & H1 & H2).
  exists top_k. split; [exact Heq|].
  assert (Harea : zip_with section_area diameters thicknesses !! k
                  = Some (section_area d wt))
    by (rewrite lookup_zip_with, Hdk, Hwk; reflexivity).
  assert (HI : zip_with section_I diameters thicknesses !! k
               = Some (section_I d wt))
    by (rewrite lookup_zip_with, Hdk, Hwk; reflexivity).
  split; apply data_rows_lookup;
    first [ assumption
          | rewrite (proj1 (twice_lookup _ k)); assumption
          | rewrite (proj2 (twice_lookup _ k)); assumption ].
Qed.

(** The pile of the class documentation: two sections of 10 m and 30 m. *)
Lemma pile_table_rows_witness :
  exists obj rows,
    PileObject.create (fun _ => Returned tt) "" 0 [10; 30] [75 # 10; 75 # 10]
      [7 # 100; 8 # 100]
    = Returned obj
    /\ PileObject.data obj = Some rows
    /\ List.length rows = 4%nat
    /\ map pd_elevation rows = [0; 0 - 10; 0 - 10; 0 - 10 - 30].
Proof.
  destruct (pile_table_rows (fun _ => Returned tt) "" 0 [10; 30]
              [75 # 10; 75 # 10] [7 # 100; 8 # 100] eq_refl eq_refl eq_refl)
    as (obj & rows & Hcreate & Hdata & Hlen & _).
  exists obj, rows. split; [exact Hcreate|]. split; [exact Hdata|].
  split; [exact Hlen|].
  vm_compute in Hcreate. injection Hcreate as <-.
  vm_compute in Hdata. injection Hdata as <-. reflexivity.
Defined.

Lemma py_sum_twice (l : list Q) : py_sum (twice l) == 2 * py_sum l.
Proof.
  induction l as [|a l IH].
  - unfold py_sum. simpl. ring.
  - change (twice (a :: l)) with (a :: a :: twice l).
    rewrite !py_sum_cons, IH. ring.
Qed.

Lemma inject_Z_of_nat_pos (n : nat) : (0 < n)%nat -> 0 < inject_Z (Z.of_nat n).
Proof.
  intros Hn. change 0 with (inject_Z 0). rewrite <- Zlt_Qlt. lia.
Qed.

(** The mean of a column in which every section appears twice is the mean
    over the sections. *)
Lemma mean_twice (l : list Q) :
  l <> [] ->
  exists v v', mean (twice l) = Some v /\ mean l = Some v' /\ v == v'.
Proof.
  intros Hne. destruct l as [|a l]; [congruence|].
  eexists. eexists. split; [reflexivity|]. split; [reflexivity|].
  rewrite py_sum_twice.
  change (a :: a :: twice l) with (twice (a :: l)). rewrite twice_length.
  pose proof (inject_Z_of_nat_pos (List.length (a :: l))
                ltac:(simpl; lia)) as Hn.
  set (n := List.length (a :: l)) in *.
  replace (Z.of_nat (2 * n)) with (2 * Z.of_nat n)%Z by lia.
  rewrite inject_Z_mult. change (inject_Z 2) with 2.
  field. lra.
Qed.

(** X19.  The properties [width], [area] and [I] of a pile are plain means
    over its sections: every section counts once, whatever its length. *)
Theorem pile_properties_are_section_means
    (check : Pile.t -> outcome unit) (name : string) (top : Q)
    (lengths diameters thicknesses : list Q) :
  check (Pile.mk name top lengths diameters thicknesses) = Returned tt ->
  List.length diameters = List.length lengths ->
  List.length thicknesses = List.length lengths ->
  lengths <> [] ->
  exists obj w w' a a' i i',
    PileObject.create check name top lengths diameters thicknesses
    = Returned obj
    /\ PileObject.width obj = ([], Some w)
    /\ mean diameters = Some w' /\ w == w'
    /\ PileObject.area obj = ([], Some a)
    /\ mean (zip_with section_area diameters thicknesses) = Some a'
    /\ a == a'
    /\ PileObject.I obj = ([], Some i)
    /\ mean (zip_with section_I diameters thicknesses) = Some i'
    /\ i == i'.
Proof.
  intros Hcheck Hd Ht Hne.
  destruct (pile_create_inv check name top lengths diameters thicknesses
              Hcheck Hd Ht) as (Hld & Hlt & Hla & Hli & Hcreate).
  destruct (data_rows_columns _ _ _ _ _ Hld Hlt Hla Hli)
    as (_ & _ & Hcd & Hca & Hci).
  assert (Hn : (0 < List.length lengths)%nat)
    by (destruct lengths; [congruence|simpl; lia]).
  destruct (mean_twice diameters) as (w & w' & Hw & Hw' & Hweq).
  { destruct diameters; [simpl in Hd; lia|discriminate]. }
  destruct (mean_twice (zip_with section_area diameters thicknesses))
    as (a & a' & Ha & Ha' & Haeq).
  { destruct diameters, thicknesses; simpl in *; try lia; discriminate. }
  destruct (mean_twice (zip_with section_I diameters thicknesses))
    as (i & i' & Hi & Hi' & Hieq).
  { destruct diameters, thicknesses; simpl in *; try lia; discriminate. }
  eexists. exists w, w', a, a', i, i'.
  split; [exact Hcreate|].
  unfold PileObject.width, PileObject.area, PileObject.I,
    PileObject.column_mean.
  cbn [PileObject.data]. rewrite Hcd, Hca, Hci, Hw, Ha, Hi.
  repeat (split; [first [reflexivity|assumption]|]). assumption.
Qed.

(** A pile of a 10 m section of diameter 6 on a 30 m section of diameter
    8: its width is 7. *)
Lemma pile_properties_are_section_means_witness :
  exists obj w,
    PileObject.create (fun _ => Returned tt) "" 0 [10; 30] [6; 8]
      [7 # 100; 8 # 100]
    = Returned obj
    /\ PileObject.width obj = ([], Some w)
    /\ w == 7.
Proof.
  destruct (pile_properties_are_section_means (fun _ => Returned tt) "" 0
              [10; 30] [6; 8] [7 # 100; 8 # 100] eq_refl eq_refl eq_refl)
    as (obj & w & w' & _ & _ & _ & _ & Hcreate & Hw & Hw' & Hweq & _).
  - discriminate.
  - exists obj, w. split; [exact Hcreate|]. split; [exact Hw|].
    rewrite Hweq. vm_compute in Hw'. injection Hw' as <-. reflexivity.
Defined.

Lemma py_sum_constant {A : Type} (v : Q) (l : list A) :
  py_sum (map (fun _ => v) l) == v * inject_Z (Z.of_nat (List.length l)).
Proof.
  induction l as [|a l IH].
  - unfold py_sum. simpl. ring.
  - change (map (fun _ => v) (a :: l)) with (v :: map (fun _ => v) l).
    rewrite py_sum_cons, IH.
    change (List.length (a :: l)) with (S (List.length l)).
    rewrite Nat2Z.inj_succ. unfold Z.succ. rewrite inject_Z_plus.
    change (inject_Z 1) with 1. ring.
Qed.

(** X20.  Overriding the width of a pile.  After [pile.width = value] on a
    pile that has data, [pile.width] gives back that value; the wall
    thickness of every row is NA; and nothing else has moved: the area and
    the second moment of area, which were computed from the former
    diameters, are not computed again, and the elevations and the Young
    modulus are as before. *)
Theorem pile_width_override (obj : PileObject.t) (rows : list pile_row)
    (value : Q) :
  PileObject.data obj = Some rows ->
  rows <> [] ->
  exists obj' rows',
    PileObject.set_width value obj = ([], obj')
    /\ (exists w, PileObject.width obj' = ([], Some w) /\ w == value)
    /\ PileObject.area obj' = PileObject.area obj
    /\ PileObject.I obj' = PileObject.I obj
    /\ PileObject.E obj' = PileObject.E obj
    /\ PileObject.data obj' = Some rows'
    /\ map pd_elevation rows' = map pd_elevation rows
    /\ Forall (fun r => pd_wall_thickness r = None) rows'.
Proof.
  intros Hdata Hne.
  unfold PileObject.set_width, PileObject.set_column. rewrite Hdata.
  eexists.
  exists (map (fun r => mk_pile_row (pd_elevation r) value None (pd_area r)
                         (pd_I r)) rows).
  split; [reflexivity|].
  unfold PileObject.width, PileObject.area, PileObject.I, PileObject.E,
    PileObject.column_mean.
  cbn [PileObject.data PileObject._young_modulus]. rewrite Hdata.
  rewrite !(map_map _ pd_diameter), !(map_map _ pd_area), !(map_map _ pd_I),
    !(map_map _ pd_elevation).
  cbn [pd_elevation pd_diameter pd_area pd_I pd_wall_thickness].
  split.
  { destruct rows as [|r rows]; [congruence|].
    eexists. split; [reflexivity|].
    rewrite (py_sum_constant value (r :: rows)), length_map.
    pose proof (inject_Z_of_nat_pos (List.length (r :: rows))
                  ltac:(simpl; lia)) as Hn.
    field. lra. }
  repeat (split; [reflexivity|]).
  apply List.Forall_forall. intros r Hr. apply in_map_iff in Hr.
  destruct Hr as (r0 & <- & _). reflexivity.
Qed.

(** The documented pile with its width set to 8. *)
Lemma pile_width_override_witness :
  exists obj obj' w,
    PileObject.create (fun _ => Returned tt) "" 0 [10; 30] [75 # 10; 75 # 10]
      [7 # 100; 8 # 100]
    = Returned obj
    /\ PileObject.set_width 8 obj = ([], obj')
    /\ PileObject.width obj' = ([], Some w) /\ w == 8
    /\ PileObject.area obj' = PileObject.area obj.
Proof.
  eexists.
  match goal with
  | |- exists obj' w, ?create = Returned ?obj /\ _ =>
      assert (Hcreate : create = Returned obj) by (vm_compute; reflexivity);
      destruct (pile_width_override obj
                  (data_rows (Pile.elevations_from 0 [10; 30])
                     (twice [75 # 10; 75 # 10]) (twice [7 # 100; 8 # 100])
                     (twice (zip_with section_area [75 # 10; 75 # 10]
                               [7 # 100; 8 # 100]))
                     (twice (zip_with section_I [75 # 10; 75 # 10]
                               [7 # 100; 8 # 100])))
                  8)
        as (obj' & rows' & Hset & (w & Hw & Hweq) & Harea & _)
  end.
  - vm_compute. reflexivity.
  - discriminate.
  - exists obj', w. split; [exact Hcreate|]. auto.
Defined.

(** ** The soil profile *)

Lemma insert_by_perm {A : Type} (key : A -> Q) (a : A) (l : list A) :
  Permutation (insert_by key a l) (a :: l).
Proof.
  induction l as [|b l IH]; simpl; [reflexivity|].
  destruct (Qle_bool (key b) (key a)); [|reflexivity].
  rewrite IH. apply perm_swap.
Qed.

Lemma sort_values_perm {A : Type} (key : A -> Q) (l : list A) :
  Permutation (sort_values key l) l.
Proof.
  induction l as [|a l IH]; simpl; [reflexivity|].
  rewrite insert_by_perm. constructor. exact IH.
Qed.

(** A sum does not depend on the order of its terms. *)
Lemma py_sum_perm (l l' : list Q) : Permutation l l' -> py_sum l == py_sum l'.
Proof.
  induction 1 as [|a l l' _ IH|a b l|l1 l2 l3 _ IH1 _ IH2].
  - reflexivity.
  - rewrite !py_sum_cons, IH. reflexivity.
  - rewrite !py_sum_cons. ring.
  - rewrite IH1. exact IH2.
Qed.

Lemma py_sum_ext {A : Type} (f g : A -> Q) (l : list A) :
  (forall a, In a l -> f a == g a) -> py_sum (map f l) == py_sum (map g l).
Proof.
  induction l as [|a l IH]; intros Heq; simpl; [reflexivity|].
  rewrite !py_sum_cons, (Heq a (or_introl eq_refl)), IH; [reflexivity|].
  intros b Hb. apply Heq. right. exact Hb.
Qed.

(** The last entry of a list that has a first one. *)
Lemma last_cons_default {A : Type} (a d : A) (l : list A) :
  List.last (a :: l) d = List.last l a.
Proof.
  revert a d. induction l as [|b l IH]; intros a d; [reflexivity|].
  change (List.last (a :: b :: l) d) with (List.last (b :: l) d).
  rewrite IH. symmetry. apply IH.
Qed.

(** The tolerance of [math.isclose] with [abs_tol=0.001] is 1 mm as long as
    the numbers compared stay within a million. *)
Lemma math_isclose_1mm (a b : Q) :
  Qabs a <= 1000000 -> Qabs b <= 1000000 ->
  math_isclose a b (1 # 1000) = true -> Qabs (a - b) <= 1 # 1000.
Proof.
  intros Ha Hb Hclose. unfold math_isclose in Hclose.
  apply Qle_bool_iff in Hclose.
  eapply Qle_trans; [exact Hclose|].
  apply Q.max_lub; [|lra].
  assert (Hmax : Qmax (Qabs a) (Qabs b) <= 1000000)
    by (apply Q.max_lub; assumption).
  lra.
Qed.

(** Layers stacked from the top down, each starting within 1 mm of the
    bottom of the one above: the top of the first, less the thicknesses of
    all, is the bottom of the last to within 1 mm per interface. *)
Lemma stacked_layers_bottom (sorted : list (Q * Q)) (t0 b0 : Q) :
  (forall p, In p ((t0, b0) :: sorted) ->
             Qabs (fst p) <= 1000000 /\ Qabs (snd p) <= 1000000) ->
  SoilProfile.layers_touch ((t0, b0) :: sorted) = true ->
  Qabs (t0 - py_sum (map (fun p => fst p - snd p) ((t0, b0) :: sorted))
        - snd (List.last sorted (t0, b0)))
  <= inject_Z (Z.of_nat (List.length sorted)) * (1 # 1000).
Proof.
  revert t0 b0. induction sorted as [|[t1 b1] rest IH];
    intros t0 b0 Hbound Htouch.
  - cbn [map List.last snd fst List.length]. rewrite py_sum_cons.
    assert (Hz : t0 - (t0 - b0 + py_sum []) - b0 == 0)
      by (unfold py_sum; simpl; ring).
    rewrite Hz. apply Qle_bool_iff. reflexivity.
  - change (SoilProfile.layers_touch ((t0, b0) :: (t1, b1) :: rest))
      with (math_isclose t1 b0 (1 # 1000)
            && SoilProfile.layers_touch ((t1, b1) :: rest)) in Htouch.
    apply andb_true_iff in Htouch. destruct Htouch as [Hclose Htouch].
    assert (Hgap : Qabs (t1 - b0) <= 1 # 1000).
    { apply math_isclose_1mm; [| |exact Hclose].
      - apply (Hbound (t1, b1)). right. left. reflexivity.
      - apply (Hbound (t0, b0)). left. reflexivity. }
    assert (Hrest : Qabs (t1 - py_sum (map (fun p => fst p - snd p)
                                         ((t1, b1) :: rest))
                          - snd (List.last rest (t1, b1)))
                    <= inject_Z (Z.of_nat (List.length rest)) * (1 # 1000)).
    { apply IH; [|exact Htouch]. intros p Hp. apply Hbound. right. exact Hp. }
    change (map (fun p => fst p - snd p) ((t0, b0) :: (t1, b1) :: rest))
      with ((t0 - b0) :: map (fun p => fst p - snd p) ((t1, b1) :: rest)).
    rewrite py_sum_cons.
    assert (Hlast : List.last ((t1, b1) :: rest) (t0, b0)
                    = List.last rest (t1, b1))
      by apply last_cons_default.
    rewrite Hlast.
    set (S0 := py_sum (map (fun p => fst p - snd p) ((t1, b1) :: rest))) in *.
    set (bl := snd (List.last rest (t1, b1))) in *.
    assert (Hsplit : t0 - (t0 - b0 + S0) - bl == (t1 - S0 - bl) - (t1 - b0))
      by ring.
    rewrite Hsplit.
    change (List.length ((t1, b1) :: rest)) with (S (List.length rest)).
    rewrite Nat2Z.inj_succ. unfold Z.succ. rewrite inject_Z_plus.
    change (inject_Z 1) with 1.
    unfold Qminus at 1.
    eapply Qle_trans; [apply Qabs_triangle|].
    rewrite Qabs_opp. lra.
Qed.

(** In a table whose key never increases, the last row has the lowest
    key. *)
Lemma key_descends_last {A : Type} (key : A -> Q) (a : A) (l : list A) :
  key_descends key (a :: l) ->
  In (List.last l a) (a :: l)
  /\ forall p, In p (a :: l) -> key (List.last l a) <= key p.
Proof.
  unfold key_descends. revert a. induction l as [|b l IH]; intros a Hd.
  - split; [left; reflexivity|]. intros p [<-|[]]. simpl. lra.
  - apply StronglySorted_inv in Hd. destruct Hd as [Hd Ha].
    destruct (IH b Hd) as [Hin Hmin].
    rewrite last_cons_default.
    split; [right; exact Hin|].
    intros p [<-|Hp]; [|apply Hmin, Hp].
    rewrite List.Forall_forall in Ha. apply Ha. exact Hin.
Qed.

(** X21.  The bottom elevation of a soil profile, which the code computes
    as the ground elevation less the thicknesses of all layers, is the
    bottom of the lowest layer.  For a profile that passed its validator,
    with layers that passed theirs and elevations within a million, it
    differs from the bottom of the layer with the lowest top by at most
    1 mm for each interface between two layers, the play that the validator
    leaves between the bottom of a layer and the top of the next; with a
    single layer the two agree exactly. *)
Theorem soil_bottom_is_lowest_layer_bottom (sp : SoilProfile.t) :
  SoilProfile.check_layers_elevations sp = Returned tt ->
  Forall (fun l => Layer.valid l = true) (SoilProfile.layers sp) ->
  Forall (fun l => Qabs (Layer.top l) <= 1000000
                   /\ Qabs (Layer.bottom l) <= 1000000)
    (SoilProfile.layers sp) ->
  exists l,
    In l (SoilProfile.layers sp)
    /\ (forall l', In l' (SoilProfile.layers sp) -> Layer.top l <= Layer.top l')
    /\ Qabs (SoilProfile.bottom_elevation sp - Layer.bottom l)
       <= inject_Z (Z.of_nat (List.length (SoilProfile.layers sp) - 1))
          * (1 # 1000).
Proof.
  intros Hcheck Hvalid Hbound.
  unfold SoilProfile.check_layers_elevations in Hcheck.
  set (pairs := map (fun x => (Layer.top x, Layer.bottom x))
                  (SoilProfile.layers sp)) in *.
  pose proof (key_ascends_rev _ _ (sort_values_ascends fst pairs)) as Hd.
  assert (Hperm : Permutation (rev (sort_values fst pairs)) pairs)
    by (rewrite <- Permutation_rev; apply sort_values_perm).
  destruct (rev (sort_values fst pairs)) as [|[t0 b0] rest] eqn:Hsorted;
    [discriminate|].
  destruct (Qeq_bool t0 (SoilProfile.top_elevation sp)) eqn:Htop;
    cbn [negb] in Hcheck; [|discriminate].
  apply Qeq_bool_iff in Htop.
  destruct (SoilProfile.layers_touch ((t0, b0) :: rest)) eqn:Htouch;
    [|discriminate].
  assert (Hin : forall p, In p ((t0, b0) :: rest) ->
                  exists l, In l (SoilProfile.layers sp)
                            /\ p = (Layer.top l, Layer.bottom l)).
  { intros p Hp. apply (Permutation_in _ Hperm) in Hp.
    unfold pairs in Hp. apply in_map_iff in Hp.
    destruct Hp as (l & <- & Hl). exists l. auto. }
  rewrite List.Forall_forall in Hvalid, Hbound.
  destruct (key_descends_last fst (t0, b0) rest Hd) as [Hlast Hmin].
  destruct (Hin _ Hlast) as (l & Hl & Heq).
  exists l. split; [exact Hl|]. split.
  { intros l' Hl'.
    assert (Hp : In (Layer.top l', Layer.bottom l') ((t0, b0) :: rest)).
    { apply (Permutation_in _ (Permutation_sym Hperm)). unfold pairs.
      apply in_map_iff. exists l'. auto. }
    specialize (Hmin _ Hp). rewrite Heq in Hmin. exact Hmin. }
  pose proof (stacked_layers_bottom rest t0 b0) as Hstack.
  rewrite Heq in Hstack. cbn [snd] in Hstack.
  assert (Hlen : List.length rest
                 = (List.length (SoilProfile.layers sp) - 1)%nat).
  { apply Permutation_length in Hperm. unfold pairs in Hperm.
    rewrite length_map in Hperm. simpl in Hperm. lia. }
  rewrite <- Hlen.
  assert (Hsum : py_sum (map (fun p => fst p - snd p) ((t0, b0) :: rest))
                 == py_sum (map (fun x => Qabs (Layer.top x - Layer.bottom x))
                              (SoilProfile.layers sp))).
  { rewrite (py_sum_perm _ _ (Permutation_map _ Hperm)).
    unfold pairs. rewrite map_map. apply py_sum_ext.
    intros x Hx. cbn [fst snd]. specialize (Hvalid x Hx).
    unfold Layer.valid in Hvalid. apply andb_true_iff in Hvalid.
    destruct Hvalid as [Hthick _]. apply Qgt_bool_true in Hthick.
    symmetry. apply Qabs_pos. lra. }
  unfold SoilProfile.bottom_elevation. rewrite <- Hsum, <- Htop.
  apply Hstack; [|exact Htouch].
  intros p Hp. destruct (Hin p Hp) as (x & Hx & ->). apply Hbound, Hx.
Qed.

(** The two layers of the layered profile, from 0 to -20 and from -20 to
    -40: the bottom elevation is within 1 mm of -40. *)
Lemma soil_bottom_is_lowest_layer_bottom_witness :
  exists l,
    In l (SoilProfile.layers layered_soil)
    /\ (forall l', In l' (SoilProfile.layers layered_soil) ->
                   Layer.top l <= Layer.top l')
    /\ Qabs (SoilProfile.bottom_elevation layered_soil - Layer.bottom l)
       <= inject_Z (Z.of_nat (2 - 1)) * (1 # 1000).
Proof.
  apply (soil_bottom_is_lowest_layer_bottom layered_soil).
  - vm_compute. reflexivity.
  - repeat constructor.
  - repeat constructor; vm_compute; discriminate.
Defined.

(** ** The Winkler loop: convergence and what a pass leaves behind *)

Section loop_passes.

Context `{Kernel}.
Variable model : Model.t.

(** X22.  Convergence.  When, after [n >= 1] passes that reached the
    bottom of the body, the next solve returns and its residual passes the
    convergence test, the analysis prints "Converged at iteration no. n"
    and returns the result built from the displacements with the increment
    of that last solve added and from the reactions of that last solve. *)
Theorem converged_analysis_returns_last_pass (max_iter : Z)
    (sp : SoilProfile.t) (n : nat) (out : printed) (st : loop_state)
    (u_inc Q : Vec) :
  Model.soil model = Some sp ->
  run_passes model max_iter n [] (initial_state model) = Some (out, st) ->
  (0 < n)%nat ->
  (st_iter_no st <= max_iter)%Z ->
  solve_equations (st_K st) (st_Rg st) (st_U st) (global_supports model)
  = Returned (u_inc, Q) ->
  (let F_ext := vsub (global_F model) Q in
   let d := vadd (st_d st) u_inc in
   residual_test model
     (vadd F_ext (vneg (mdot (build_stiffness_matrix model d secant) d)))
     (np_linalg_norm F_ext) = true) ->
  simple_winkler_analysis model max_iter
  = (out ++ [ConvergedAt (Z.of_nat n)],
     Returned (Some (result_from model sp (vadd (st_d st) u_inc) Q))).
Proof.
  intros Hsoil Hrun Hn Hguard Hsolve Htest.
  destruct (run_passes_iter _ _ _ _ _ _ _ Hrun) as (Hiter & _ & _).
  simpl in Hiter.
  unfold simple_winkler_analysis. rewrite Hsoil.
  replace (Z.to_nat (max_iter + 1))
    with (n + S (Z.to_nat (max_iter + 1) - S n))%nat by lia.
  rewrite (while_loop_after_passes _ _ _ _ _ _ _ _ Hrun).
  cbn [while_loop]. apply Z.leb_le in Hguard. rewrite Hguard.
  unfold loop_body. rewrite Hsolve. cbv zeta in Htest |- *. rewrite Htest.
  replace (0 <? st_iter_no st)%Z with true by (symmetry; apply Z.ltb_lt; lia).
  rewrite Hiter. reflexivity.
Qed.

(** X23.  What a pass leaves for the next one.  After any number [n >= 1]
    of passes that reached the bottom of the body, the iteration number is
    [n], the prescribed displacements have been reset to zero, the
    stiffness matrix is the tangent one at the displacements accumulated so
    far, and the right-hand side is the residual: the external force [F]
    less the reactions of the last solve, less the internal force of the
    secant stiffness at the accumulated displacements.  The prescribed
    displacements of the model are thus applied in the first solve only. *)
Theorem pass_leaves_residual_system (max_iter : Z) (n : nat) (out : printed)
    (st : loop_state) :
  run_passes model max_iter n [] (initial_state model) = Some (out, st) ->
  (0 < n)%nat ->
  st_iter_no st = Z.of_nat n
  /\ st_U st
     = zeros_like (mesh_to_global_disp_dof_vector (Model.global_disp model))
  /\ st_K st = build_stiffness_matrix model (st_d st) tangent
  /\ exists Q,
       st_Q st = Some Q
       /\ st_Rg st
          = vadd (vsub (global_F model) Q)
              (vneg (mdot (build_stiffness_matrix model (st_d st) secant)
                       (st_d st))).
Proof.
  intros Hrun Hn.
  destruct (run_passes_iter _ _ _ _ _ _ _ Hrun) as (Hiter & _ & _).
  simpl in Hiter. split; [exact Hiter|].
  revert out st Hrun Hiter. induction n as [|n IH]; intros out st Hrun Hiter;
    [lia|].
  destruct (run_passes_last _ _ _ _ _ _ _ Hrun)
    as (out1 & st1 & o & Hrun1 & _ & Hbody & _).
  assert (HU1 : st_U st1
                = zeros_like (mesh_to_global_disp_dof_vector
                                (Model.global_disp model))
                \/ st_U st1
                   = mesh_to_global_disp_dof_vector (Model.global_disp model)).
  { destruct n as [|n'].
    - simpl in Hrun1. injection Hrun1 as _ <-. right. reflexivity.
    - left.
      destruct (run_passes_iter _ _ _ _ _ _ _ Hrun1) as (Hiter1 & _ & _).
      apply (IH ltac:(lia) out1 st1 Hrun1 Hiter1). }
  assert (Hzeros : zeros_like (st_U st1)
                   = zeros_like (mesh_to_global_disp_dof_vector
                                   (Model.global_disp model))).
  { destruct HU1 as [-> | ->]; [|reflexivity].
    unfold zeros_like. rewrite map_map. reflexivity. }
  unfold loop_body in Hbody.
  destruct (solve_equations _ _ _ _) as [[u_inc Q]|e|]; [|destruct e|];
    try discriminate.
  destruct (residual_test _ _ _); [destruct (0 <? st_iter_no st1)%Z|];
    try discriminate; injection Hbody as _ <-; cbn;
    (split; [exact Hzeros|]); (split; [reflexivity|]);
    exists Q; split; reflexivity.
Qed.

End loop_passes.

(** X22 at work: the scripted kernel answers the first solve with a head
    deflection of 99 and a toe reaction of -60, and the second with a
    further deflection of 1 and no reaction; the residual of the second
    pass is then zero. *)
Lemma converged_analysis_returns_last_pass_witness :
  exists m out st,
    let K := scripted_kernel first_answer
               (Returned ([0; 1; 0; 0; 0; 0], [0; 0; 0; 0; 0; 0])) in
    short_loaded = Returned m
    /\ run_passes m 100 1 [] (initial_state m) = Some (out, st)
    /\ simple_winkler_analysis m 100
       = (out ++ [ConvergedAt 1],
          Returned (Some (result_from m short_soil
                            (vadd (st_d st) [0; 1; 0; 0; 0; 0])
                            [0; 0; 0; 0; 0; 0]))).
Proof.
  eexists. eexists. eexists. intros K.
  split; [vm_compute; reflexivity|].
  split; [vm_compute; reflexivity|].
  apply (converged_analysis_returns_last_pass (H := K) _ 100 short_soil 1).
  - reflexivity.
  - vm_compute. reflexivity.
  - lia.
  - vm_compute. discriminate.
  - vm_compute. reflexivity.
  - vm_compute. reflexivity.
Defined.

(** X23 at work: the state after the first pass of the same run. *)
Lemma pass_leaves_residual_system_witness :
  exists m out st,
    let K := scripted_kernel first_answer second_answer in
    short_loaded = Returned m
    /\ run_passes m 100 1 [] (initial_state m) = Some (out, st)
    /\ st_iter_no st = 1%Z
    /\ st_U st = [0; 0; 0; 0; 0; 0].
Proof.
  eexists. eexists. eexists. intros K.
  split; [vm_compute; reflexivity|].
  match goal with
  | |- run_passes ?m _ _ _ _ = Some (_, ?st) /\ _ =>
      assert (Hrun : run_passes m 100 1 [] (initial_state m) = Some ([], st))
        by (vm_compute; reflexivity);
      destruct (pass_leaves_residual_system (H := K) m 100 1 [] st Hrun)
        as (Hiter & HU & _); [lia|]
  end.
  split; [exact Hrun|]. split; [exact Hiter|]. rewrite HU. reflexivity.
Defined.

(** ** Termination *)

Section loop_ends.

Context `{Kernel}.
Variable model : Model.t.
Variable max_iter : Z.

(** The loop needs no more passes than the iteration numbers left. *)
Lemma while_loop_fuel (fuel : nat) (out : printed) (st : loop_state) :
  (max_iter + 1 - st_iter_no st <= Z.of_nat fuel)%Z ->
  while_loop model max_iter fuel out st <> None.
Proof.
  revert out st. induction fuel as [|fuel IH]; intros out st Hfuel; simpl.
  - destruct (Z.leb_spec (st_iter_no st) max_iter); [lia|discriminate].
  - destruct (Z.leb_spec (st_iter_no st) max_iter); [|discriminate].
    destruct (loop_body model st) as [o st'| | |] eqn:Hbody; try discriminate.
    apply IH. destruct (loop_body_continue_iter _ _ _ _ Hbody) as [-> _]. lia.
Qed.

(** The loop hangs only where a solve hangs. *)
Lemma while_loop_hangs (fuel : nat) (out o : printed) (st : loop_state) :
  while_loop model max_iter fuel out st = Some (o, Diverged) ->
  exists K Rg U, solve_equations K Rg U (global_supports model) = Diverged.
Proof.
  revert out st. induction fuel as [|fuel IH]; intros out st; simpl.
  - destruct (st_iter_no st <=? max_iter)%Z; discriminate.
  - destruct (st_iter_no st <=? max_iter)%Z; [|discriminate].
    unfold loop_body.
    destruct (solve_equations (st_K st) (st_Rg st) (st_U st)
                (global_supports model)) as [[u_inc Q]|e|] eqn:Hsolve.
    + destruct (residual_test _ _ _); [destruct (0 <? st_iter_no st)%Z|];
        try discriminate; apply IH.
    + destruct e; discriminate.
    + intros _. eauto.
Qed.

(** X24.  The Winkler analysis always ends.  Whatever the model and the
    budget, the loop makes at most [max_iter + 1] passes, and as long as
    no call of the solver hangs the analysis returns or raises. *)
Theorem winkler_analysis_ends :
  (forall K Rg U, solve_equations K Rg U (global_supports model) <> Diverged) ->
  snd (simple_winkler_analysis model max_iter) <> Diverged
  /\ forall n out st,
       run_passes model max_iter n [] (initial_state model) = Some (out, st) ->
       (Z.of_nat n <= Z.max 0 (max_iter + 1))%Z.
Proof.
  intros Hsolver. split.
  - unfold simple_winkler_analysis.
    destruct (Model.soil model) as [sp|]; [|discriminate].
    destruct (while_loop model max_iter (Z.to_nat (max_iter + 1)) []
                (initial_state model)) as [[o [st|e|]]|] eqn:Hloop.
    + unfold final_results. simpl. destruct (st_Q st); discriminate.
    + discriminate.
    + exfalso. destruct (while_loop_hangs _ _ _ _ Hloop) as (K & Rg & U & Hd).
      apply (Hsolver K Rg U Hd).
    + exfalso. revert Hloop. apply while_loop_fuel. simpl. lia.
  - intros n out st Hrun.
    destruct (run_passes_iter _ _ _ _ _ _ _ Hrun) as (_ & Hbound & _).
    simpl in Hbound. destruct n as [|n]; [lia|].
    specialize (Hbound ltac:(lia)). lia.
Qed.

End loop_ends.

(** X24 at work: the loaded short pile with a kernel whose solves move
    nothing and a budget of 5. *)
Lemma winkler_analysis_ends_witness :
  exists m,
    let K := scripted_kernel idle_answer idle_answer in
    short_loaded = Returned m
    /\ snd (simple_winkler_analysis m 5) <> Diverged.
Proof.
  eexists. intros K. split; [vm_compute; reflexivity|].
  apply (winkler_analysis_ends (H := K) _ 5).
  intros M Rg U. simpl.
  destruct M as [|[|k row] rows]; try discriminate.
  destruct (Qeq_bool k 1); discriminate.
Defined.

(** ** The order of the nodes *)

Lemma rounded_nodes_descend (x : list Q) :
  descending x ->
  key_descends x_m (map (fun xi => mk_node (round3 xi) (round3 0)) x).
Proof.
  intros Hd. apply key_descends_map. simpl.
  unfold descending, key_descends in *.
  induction Hd as [|a l Hl IH Hall]; [constructor|].
  constructor; [exact IH|].
  rewrite List.Forall_forall in Hall |- *. intros b Hb.
  apply round3_mono, Qlt_le_weak, Hall, Hb.
Qed.

(** X26.  The node table of a created model runs from the top down: going
    down the table the elevations never increase, and no element has its
    bottom above its top.  The first and the last node therefore bound the
    mesh, and the test that the setters use for their "outside the mesh"
    line, above the first node or below the last one, holds exactly for the
    elevations that are above every node or below every node. *)
Theorem outside_mesh_is_beyond_all_nodes (name : string) (pile : Pile.t)
    (soil : option SoilProfile.t) (x2mesh : list Q) (c : Q) (m : Model.t) :
  Model.create name pile soil x2mesh c = Returned m ->
  key_descends x_m (Model.nodes_coordinates m)
  /\ (forall e, In e (Model.element_coordinates m) -> x_bottom e <= x_top e)
  /\ forall elevation,
       outside_mesh m elevation
       <-> Model.nodes_coordinates m <> []
           /\ ((forall n, In n (Model.nodes_coordinates m) ->
                          x_m n < elevation)
               \/ (forall n, In n (Model.nodes_coordinates m) ->
                             elevation < x_m n)).
Proof.
  intros Hcreate.
  destruct (create_inv _ _ _ _ _ _ Hcreate)
    as (_ & x & _ & Hx & Hnodes & Helem & _).
  pose proof (mesh_x_descending _ _ _ Hx) as Hdx.
  pose proof (rounded_nodes_descend x Hdx) as Hd. rewrite <- Hnodes in Hd.
  split; [exact Hd|]. split.
  { intros e He. rewrite Helem in He. apply in_map_iff in He.
    destruct He as ([a b] & <- & Hab). simpl.
    apply round3_mono, Qlt_le_weak, (consecutive_lt x a b Hdx Hab). }
  intros elevation. unfold outside_mesh.
  destruct (Model.nodes_coordinates m) as [|n rest].
  { split; [contradiction|]. intros [Hne _]. congruence. }
  destruct (key_descends_last x_m n rest Hd) as [Hlast Hmin].
  assert (Hmax : forall n', In n' (n :: rest) -> x_m n' <= x_m n).
  { intros n' [<-|Hn']; [lra|].
    apply StronglySorted_inv in Hd. destruct Hd as [_ Hall].
    rewrite List.Forall_forall in Hall. apply Hall, Hn'. }
  split.
  - intros [Habove|Hbelow]; (split; [discriminate|]).
    + left. intros n' Hn'. specialize (Hmax n' Hn'). lra.
    + right. intros n' Hn'. specialize (Hmin n' Hn'). lra.
  - intros [_ [Habove|Hbelow]].
    + left. apply Habove. left. reflexivity.
    + right. apply Hbelow. exact Hlast.
Qed.

(** On the example mesh, +1 is above every node. *)
Lemma outside_mesh_is_beyond_all_nodes_witness :
  exists m,
    example_created = Returned m
    /\ outside_mesh m 1
    /\ forall n, In n (Model.nodes_coordinates m) -> x_m n < 1.
Proof.
  eexists.
  match goal with
  | |- ?create = Returned ?m /\ _ =>
      assert (Hcreate : create = Returned m) by (vm_compute; reflexivity);
      destruct (outside_mesh_is_beyond_all_nodes "Example" example_pile
                  (Some example_soil) [] 10 m Hcreate) as (_ & _ & Hiff);
      assert (Hout : outside_mesh m 1) by (vm_compute; left; reflexivity)
  end.
  split; [exact Hcreate|]. split; [exact Hout|].
  destruct (proj1 (Hiff 1) Hout) as [_ [Habove|Hbelow]]; [exact Habove|].
  exfalso.
  assert (H1 : 1 < x_m (mk_node (0 / 1000) (0 / 1000)))
    by (apply Hbelow; left; reflexivity).
  vm_compute in H1. discriminate.
Defined.
